(** * saras-backend/index.js: field validation and turn handling

    A shallow embedding of the lead-capture turn pipeline of
    [saras-backend/index.js]: the per-field validator [validateUpdate]
    with its regular expressions, the defensive normalisation of the
    planner output in [llmPlan], the session store, the shared turn
    handler [handleTurn] with its persistence side effects, and the two
    routes [/chat] and [/chat_stream]. *)

From Stdlib Require Import NArith Lia Ascii String.
From stdpp Require Import base option list gmap.

Local Open Scope N_scope.

(** ** JavaScript strings

    A JavaScript string is a sequence of UTF-16 code units.  The
    patterns of the validator test single code units (for instance the
    ranges U+0900-U+097F and U+0C00-U+0C7F of the area check), so the
    embedding keeps strings as lists of code units. *)

Abbreviation jsstring := (list N).

(** Literals are written as Rocq strings, whose bytes are the UTF-8
    encoding of the source text; [js] decodes them into code units
    (one unit for a code point of the basic plane, a surrogate pair
    above it). *)
Fixpoint utf16_of_utf8 (bs : list N) : jsstring :=
  match bs with
  | [] => []
  | b1 :: r1 =>
    if b1 <? 0x80 then b1 :: utf16_of_utf8 r1
    else match r1 with
    | [] => [b1]
    | b2 :: r2 =>
      if b1 <? 0xE0 then ((b1 - 0xC0) * 64 + (b2 - 0x80)) :: utf16_of_utf8 r2
      else match r2 with
      | [] => [b1; b2]
      | b3 :: r3 =>
        if b1 <? 0xF0
        then ((b1 - 0xE0) * 4096 + (b2 - 0x80) * 64 + (b3 - 0x80)) :: utf16_of_utf8 r3
        else match r3 with
        | [] => [b1; b2; b3]
        | b4 :: r4 =>
          let cp := (b1 - 0xF0) * 262144 + (b2 - 0x80) * 4096
                    + (b3 - 0x80) * 64 + (b4 - 0x80) in
          (0xD800 + (cp - 0x10000) / 1024) :: (0xDC00 + (cp - 0x10000) mod 1024)
            :: utf16_of_utf8 r4
        end
      end
    end
  end.

Definition js (s : string) : jsstring :=
  utf16_of_utf8 (map N_of_ascii (list_ascii_of_string s)).

(** Code-unit classes of ECMAScript: [\d], [\w] (ASCII only without the
    [u] flag) and the white space and line terminators that both [\s]
    and [String.prototype.trim] use. *)
Definition in_range (x : N) (r : N * N) : bool := (r.1 <=? x) && (x <=? r.2).
Definition in_ranges (rs : list (N * N)) (x : N) : bool := existsb (in_range x) rs.

Definition digit_ranges : list (N * N) := [(48, 57)].
Definition word_ranges : list (N * N) := [(48, 57); (65, 90); (95, 95); (97, 122)].
Definition space_ranges : list (N * N) :=
  [(0x09, 0x0D); (0x20, 0x20); (0xA0, 0xA0); (0x1680, 0x1680); (0x2000, 0x200A);
   (0x2028, 0x2029); (0x202F, 0x202F); (0x205F, 0x205F); (0x3000, 0x3000);
   (0xFEFF, 0xFEFF)].

Definition is_digit (x : N) : bool := in_ranges digit_ranges x.
Definition is_word (x : N) : bool := in_ranges word_ranges x.
Definition is_space (x : N) : bool := in_ranges space_ranges x.

Definition to_upper (x : N) : N := if (97 <=? x) && (x <=? 122) then x - 32 else x.
Definition to_lower (x : N) : N := if (65 <=? x) && (x <=? 90) then x + 32 else x.

(** [String.prototype.toLowerCase].  ASCII letters are lowered; the two
    code units outside ASCII whose lowercase form contains an ASCII
    letter are mapped as Unicode says (U+0130 to "i" followed by U+0307,
    U+212A KELVIN SIGN to "k").  The Unicode case tables are not
    reproduced beyond that: any other code unit is kept, which the
    patterns below cannot tell from its lowercase form, since neither is
    ASCII nor white space. *)
Definition lower_unit (x : N) : jsstring :=
  if (65 <=? x) && (x <=? 90) then [x + 32]
  else if x =? 0x130 then [0x69; 0x307]
  else if x =? 0x212A then [0x6B]
  else [x].
Definition toLowerCase (s : jsstring) : jsstring := flat_map lower_unit s.

(** [String.prototype.trim] *)
Fixpoint dropWhile (f : N -> bool) (s : jsstring) : jsstring :=
  match s with
  | [] => []
  | x :: s' => if f x then dropWhile f s' else s
  end.
Definition trimStart (s : jsstring) : jsstring := dropWhile is_space s.
Definition trimEnd (s : jsstring) : jsstring := rev (dropWhile is_space (rev s)).
Definition trim (s : jsstring) : jsstring := trimEnd (trimStart s).

(** [s.startsWith(p)] and [s.slice(n)] for [0 <= n]. *)
Fixpoint startsWith (p s : jsstring) : bool :=
  match p, s with
  | [], _ => true
  | a :: p', b :: s' => (a =? b) && startsWith p' s'
  | _ :: _, [] => false
  end.
Definition slice (n : nat) (s : jsstring) : jsstring := drop n s.

(** Decimal rendering of a natural number ([String(n)] for a small
    non-negative integer). *)
Fixpoint decimal_go (fuel : nat) (n : N) (acc : jsstring) : jsstring :=
  match fuel with
  | O => acc
  | S fuel' =>
    let acc' := (48 + n mod 10) :: acc in
    if n <? 10 then acc' else decimal_go fuel' (n / 10) acc'
  end.
Definition decimal (n : N) : jsstring := decimal_go (S (N.to_nat (N.log2 n))) n [].

Fixpoint takeWhile (f : N -> bool) (s : jsstring) : jsstring :=
  match s with
  | [] => []
  | x :: s' => if f x then x :: takeWhile f s' else []
  end.

(** [parseInt(s, 10)]: leading white space is skipped, a sign is read,
    then the longest prefix of decimal digits; [None] is NaN (no digit
    to parse).  The number is kept exact: the caller only compares it
    with 1 and 12, which rounding to a double does not change. *)
Definition parseDigits (s : jsstring) : N :=
  fold_left (fun acc x => acc * 10 + (x - 48)) s 0.
Definition parseInt10 (s : jsstring) : option Z :=
  let t := trimStart s in
  let '(neg, body) :=
    match t with
    | x :: r => if x =? 45 then (true, r) else if x =? 43 then (false, r) else (false, t)
    | [] => (false, t)
    end in
  match takeWhile is_digit body with
  | [] => None
  | ds => Some (if neg : bool then (- Z.of_N (parseDigits ds))%Z else Z.of_N (parseDigits ds))
  end.

(** ** Regular expressions

    The patterns of the source as syntax trees, and the backtracking
    matcher of ECMAScript (a matcher takes the current position and a
    continuation, alternatives are tried from left to right, a
    quantifier is greedy and gives up an iteration that consumes
    nothing).  Capture groups only record text that the source never
    reads, so a group is its body. *)
Inductive regex : Type :=
  | Empty                                    (* matches the empty string *)
  | Char (c : N)                             (* a literal code unit *)
  | Class (neg : bool) (rs : list (N * N))   (* [..] or [^..], also \d \D \s *)
  | Seq (r1 r2 : regex)
  | Alt (r1 r2 : regex)
  | Star (r : regex)                         (* r*, greedy *)
  | Bol                                      (* ^ *)
  | Eol                                      (* $ *)
  | WordBoundary.                            (* \b *)

Definition Opt (r : regex) : regex := Alt r Empty.            (* r? *)
Definition Plus (r : regex) : regex := Seq r (Star r).        (* r+ *)
Fixpoint Repeat (n : nat) (r : regex) : regex :=              (* r{n} *)
  match n with
  | O => Empty
  | S n' => Seq r (Repeat n' r)
  end.
Fixpoint UpTo (n : nat) (r : regex) : regex :=                (* r{0,n} *)
  match n with
  | O => Empty
  | S n' => Opt (Seq r (UpTo n' r))
  end.
Definition Between (lo hi : nat) (r : regex) : regex :=       (* r{lo,hi} *)
  Seq (Repeat lo r) (UpTo (hi - lo) r).
Definition AtLeast (lo : nat) (r : regex) : regex :=          (* r{lo,} *)
  Seq (Repeat lo r) (Star r).
Fixpoint Lit (s : jsstring) : regex :=                        (* a literal word *)
  match s with
  | [] => Empty
  | c :: s' => Seq (Char c) (Lit s')
  end.
Fixpoint Alts (r : regex) (rs : list regex) : regex :=        (* r | r1 | ... *)
  match rs with
  | [] => r
  | r' :: rs' => Alt r (Alts r' rs')
  end.
Definition Digit : regex := Class false digit_ranges.         (* \d *)
Definition NonDigit : regex := Class true digit_ranges.       (* \D *)
Definition Space : regex := Class false space_ranges.         (* \s *)

(** A pattern with its flags; only [i] occurs in the source. *)
Record RegExp : Type := { pattern : regex; ignoreCase : bool }.

(** A position in the input: the code unit just before it (if any) and
    the rest of the input from there. *)
Definition position : Type := option N * jsstring.

(** Canonicalisation under the [i] flag without [u]: a code unit is
    compared through its upper case, and a code unit outside ASCII is
    never identified with an ASCII one; the patterns of the source only
    have ASCII letters, for which this is ASCII case folding. *)
Definition char_match (i : bool) (c x : N) : bool :=
  if i then to_upper c =? to_upper x else c =? x.
Definition class_match (i neg : bool) (rs : list (N * N)) (x : N) : bool :=
  xorb neg (in_ranges rs x || (i && (in_ranges rs (to_upper x) || in_ranges rs (to_lower x)))).

Definition is_word_opt (o : option N) : bool :=
  match o with Some x => is_word x | None => false end.
Definition at_word_boundary (p : position) : bool :=
  xorb (is_word_opt p.1) (is_word_opt (head p.2)).

(** The loop of [r*]: [fuel] bounds the number of iterations; every
    iteration consumes at least one code unit, so the length of the rest
    of the input is enough. *)
Definition star_loop
    (body : position -> (position -> option position) -> option position)
    (k : position -> option position) : nat -> position -> option position :=
  fix iterate (fuel : nat) (p : position) : option position :=
    match fuel with
    | O => k p
    | S fuel' =>
      match body p (fun p1 =>
              if (length p1.2 <? length p.2)%nat then iterate fuel' p1 else None) with
      | Some q => Some q
      | None => k p
      end
    end.

Fixpoint matcher (i : bool) (r : regex) (p : position)
    (k : position -> option position) : option position :=
  match r with
  | Empty => k p
  | Char c =>
    match p.2 with
    | x :: rest => if char_match i c x then k (Some x, rest) else None
    | [] => None
    end
  | Class neg rs =>
    match p.2 with
    | x :: rest => if class_match i neg rs x then k (Some x, rest) else None
    | [] => None
    end
  | Seq r1 r2 => matcher i r1 p (fun p1 => matcher i r2 p1 k)
  | Alt r1 r2 =>
    match matcher i r1 p k with
    | Some q => Some q
    | None => matcher i r2 p k
    end
  | Star r1 => star_loop (matcher i r1) k (length p.2) p
  | Bol => if bool_decide (p.1 = None) then k p else None
  | Eol => if bool_decide (p.2 = []) then k p else None
  | WordBoundary => if at_word_boundary p then k p else None
  end.

(** [RegExp.prototype.exec] without the [g] flag: the start positions
    are tried from left to right; the result is the matched text. *)
Fixpoint search (i : bool) (r : regex) (prev : option N) (s : jsstring) : option jsstring :=
  match matcher i r (prev, s) Some with
  | Some q => Some (take (length s - length q.2) s)
  | None =>
    match s with
    | [] => None
    | x :: s' => search i r (Some x) s'
    end
  end.
Definition exec (rx : RegExp) (s : jsstring) : option jsstring :=
  search (ignoreCase rx) (pattern rx) None s.
Definition test (rx : RegExp) (s : jsstring) : bool :=
  match exec rx s with Some _ => true | None => false end.

(** [s.replace(rx, by)] for a pattern with the [g] flag: every match,
    from left to right, is replaced; after an empty match the next code
    unit is copied. *)
Fixpoint replace_go (fuel : nat) (i : bool) (r : regex) (by_ : jsstring)
    (prev : option N) (s : jsstring) : jsstring :=
  match fuel with
  | O => s
  | S fuel' =>
    let copy :=
      match s with
      | [] => []
      | x :: s' => x :: replace_go fuel' i r by_ (Some x) s'
      end in
    match matcher i r (prev, s) Some with
    | Some q =>
      if (length q.2 <? length s)%nat
      then by_ ++ replace_go fuel' i r by_ q.1 q.2
      else by_ ++ copy
    | None => copy
    end
  end.
Definition replaceAll (rx : RegExp) (by_ s : jsstring) : jsstring :=
  replace_go (S (length s)) (ignoreCase rx) (pattern rx) by_ None s.

(** ** JSON values

    What [JSON.parse] returns.  A number is carried as the text that
    [String] renders for it, the only use the validator makes of a
    proposed value.  An object is the list of its own properties in the
    order [Object.entries] yields them. *)
#[local] Unset Elimination Schemes.
Inductive json : Type :=
  | JNull
  | JBool (b : bool)
  | JNum (text : jsstring)
  | JStr (s : jsstring)
  | JArr (items : list json)
  | JObj (props : list (jsstring * json)).
#[local] Set Elimination Schemes.

(** Own property lookup [o[k]]; [None] is [undefined]. *)
Fixpoint get_prop {A : Type} (k : jsstring) (o : list (jsstring * A)) : option A :=
  match o with
  | [] => None
  | (k', v) :: o' => if bool_decide (k' = k) then Some v else get_prop k o'
  end.

(** [String(value)]; [None] when the conversion throws a TypeError.  An
    array joins its elements with commas ([null] elements render as the
    empty string).  A plain object renders as "[object Object]" through
    [Object.prototype.toString]; when it has an own property "toString"
    the conversion finds that one, which is not callable (it comes from
    [JSON.parse]), then [valueOf], which is not callable either or
    returns the object, and throws. *)
Fixpoint ToString (v : json) : option jsstring :=
  match v with
  | JNull => Some (js "null")
  | JBool true => Some (js "true")
  | JBool false => Some (js "false")
  | JNum text => Some text
  | JStr s => Some s
  | JArr items =>
    (fix join (l : list json) : option jsstring :=
       match l with
       | [] => Some []
       | x :: l' =>
         match (match x with JNull => Some [] | _ => ToString x end), l' with
         | None, _ => None
         | Some e, [] => Some e
         | Some e, _ :: _ =>
           match join l' with
           | Some r => Some (e ++ js "," ++ r)
           | None => None
           end
         end
       end) items
  | JObj props =>
    match get_prop (js "toString") props with
    | Some _ => None
    | None => Some (js "[object Object]")
    end
  end.

(** [Object.entries]: the properties of an object, the indexed elements
    of an array, nothing for a primitive. *)
Definition Object_entries (v : json) : list (jsstring * json) :=
  match v with
  | JObj props => props
  | JArr items => imap (fun n x => (decimal (N.of_nat n), x)) items
  | _ => []
  end.

(** ** Server-side validation (hard guard) *)

Definition subjectRx : RegExp :=
  {| pattern :=
       Alts (Seq (Lit (js "iit")) (Seq (Opt (Class false [(45, 45); (32, 32)])) (Lit (js "jee"))))
         [ Lit (js "jee"); Lit (js "neet"); Lit (js "sat");
           Seq (Lit (js "iit"))
             (Seq (Opt (Class false [(45, 45); (32, 32)])) (Lit (js "foundation")));
           Lit (js "foundation"); Lit (js "ntse"); Lit (js "olympiad"); Lit (js "cbse");
           Lit (js "icse"); Lit (js "ib"); Lit (js "school") ];
     ignoreCase := true |}.

Definition dayRx : RegExp :=
  {| pattern :=
       Alts (Lit (js "mon"))
         [ Lit (js "tue"); Lit (js "wed"); Lit (js "thu"); Lit (js "fri");
           Lit (js "sat"); Lit (js "sun") ];
     ignoreCase := true |}.

Definition timeRx : RegExp :=
  {| pattern :=
       Seq WordBoundary
         (Seq (Between 1 2 Digit)
            (Seq (Opt (Seq (Char 58) (Repeat 2 Digit)))
               (Seq (Star Space)
                  (Seq (Opt (Alt (Lit (js "am")) (Lit (js "pm")))) WordBoundary))));
     ignoreCase := true |}.

(** The patterns written inline in [validateUpdate] and [onlyDigits]. *)
Definition nonDigitsRx : RegExp := {| pattern := Plus NonDigit; ignoreCase := false |}.
Definition digitsRx : RegExp := {| pattern := Plus Digit; ignoreCase := false |}.
Definition homeRx : RegExp := {| pattern := Lit (js "home"); ignoreCase := false |}.
Definition onlineZoomRx : RegExp :=
  {| pattern := Alt (Lit (js "online")) (Lit (js "zoom")); ignoreCase := false |}.
Definition localityRx : RegExp :=
  {| pattern := AtLeast 3 (Class false [(65, 90); (97, 122); (0x0900, 0x097F); (0x0C00, 0x0C7F)]);
     ignoreCase := false |}.
Definition onlyModeRx : RegExp :=
  {| pattern := Seq Bol (Seq (Alt (Lit (js "online")) (Lit (js "home"))) Eol);
     ignoreCase := false |}.

Definition onlyDigits (s : jsstring) : jsstring := replaceAll nonDigitsRx [] s.

(** The localisation table [t]: one object with the properties [en],
    [hi] and [te] per validated field. *)
Record localized : Type := { en : jsstring; hi : jsstring; te : jsstring }.

Definition t_phone : localized :=
  {| en := js "Please share a valid 10-digit mobile number (digits only).";
     hi := js "कृपया 10 अंकों का सही मोबाइल नंबर भेजें (केवल अंक)।";
     te := js "దయచేసి సరైన 10 అంకెల మొబైల్ నంబర్ పంపండి (అంకెలు మాత్రమే)." |}.
Definition t_grade : localized :=
  {| en := js "Which class is the student in? (1–12)";
     hi := js "विद्यार्थी किस कक्षा में है? (1–12)";
     te := js "విద్యార్థి ఏ తరగతిలో ఉన్నాడు/ఉంది? (1–12)" |}.
Definition t_mode : localized :=
  {| en := js "Do you prefer **online** (Zoom 1-on-1) or **home** (offline home tuition)?";
     hi := js "आप **online** (Zoom 1-on-1) या **home** (ऑफलाइन होम ट्यूशन) चाहते हैं?";
     te := js "మీకు **online** (Zoom 1-on-1) లేదా **home** (వద్దకు వచ్చి) కావాలా?" |}.
Definition t_area : localized :=
  {| en := js "Please share your area/locality (e.g., Madhapur, Kondapur).";
     hi := js "कृपया अपना क्षेत्र/लोकैलिटी बताएं (जैसे: माधापुर, कोंडापुर)।";
     te := js "దయచేసి మీ ఏరియా/లోకాలిటీ చెప్పండి (ఉదా: మాధాపూర్, కొండాపూర్)." |}.
Definition t_schedule : localized :=
  {| en := js "What days and time work? (e.g., Mon–Fri 6–7pm)";
     hi := js "कौन से दिन और समय ठीक रहेंगे? (जैसे: Mon–Fri 6–7pm)";
     te := js "ఏ రోజులలో, ఏ సమయం బావుంటుంది? (ఉదా: Mon–Fri 6–7pm)" |}.

(** The names of the properties of [Object.prototype].  A table entry
    is a plain object, so that [tbl[lang]] for one of these names is
    the inherited member: a function, or [Object.prototype] itself for
    "__proto__"; it is truthy and not a string. *)
Definition Object_prototype_names : list jsstring :=
  map js [ "constructor"; "__defineGetter__"; "__defineSetter__"; "hasOwnProperty";
           "__lookupGetter__"; "__lookupSetter__"; "isPrototypeOf"; "propertyIsEnumerable";
           "toString"; "valueOf"; "__proto__"; "toLocaleString" ]%string.

(** What [tbl[lang]] can be besides [undefined]: a string of the table,
    or the member of [Object.prototype] that the tag names. *)
Inductive table_value : Type :=
  | table_string (s : jsstring)
  | prototype_member (name : jsstring).

(** [tbl[lang]]: an own property of the table entry, or else one that
    it inherits; [None] is [undefined]. *)
Definition lang_prop (tbl : localized) (lang : jsstring) : option table_value :=
  if bool_decide (lang = js "en") then Some (table_string (en tbl))
  else if bool_decide (lang = js "hi") then Some (table_string (hi tbl))
  else if bool_decide (lang = js "te") then Some (table_string (te tbl))
  else if bool_decide (lang ∈ Object_prototype_names) then Some (prototype_member lang)
  else None.

(** [a || b] where [a] is a string or [undefined]. *)
Definition or_else (a : option jsstring) (b : jsstring) : jsstring :=
  match a with
  | Some (x :: r) => x :: r
  | _ => b
  end.

(** [tbl[lang] || tbl.en]: a member of [Object.prototype] is truthy, a
    string is unless it is empty. *)
Definition prompt_of (tbl : localized) (lang : jsstring) : table_value :=
  match lang_prop tbl lang with
  | Some (table_string (x :: r)) => table_string (x :: r)
  | Some (prototype_member name) => prototype_member name
  | _ => table_string (en tbl)
  end.

(** The result of a validation: [{ ok: true, value }], or
    [{ ok: false, prompt }] where the prompt is a string or, for a tag
    that names a member of [Object.prototype], that member; or no
    result, when [String(value)] throws. *)
Inductive validation : Type :=
  | Accepted (value : jsstring)
  | Rejected (prompt : jsstring)
  | Rejected_inherited (member : jsstring)
  | Throws.

(** [{ ok: false, prompt: tbl[lang] || tbl.en }] *)
Definition reject (tbl : localized) (lang : jsstring) : validation :=
  match prompt_of tbl lang with
  | table_string prompt => Rejected prompt
  | prototype_member name => Rejected_inherited name
  end.

(** Every branch of the switch begins with [String(value)] (the phone
    branch inside [onlyDigits]), the one step that can throw; [str] is
    its result. *)
Definition validateUpdate (key : jsstring) (value : json) (lang : jsstring) : validation :=
  match ToString value with
  | None => Throws
  | Some str =>
    if bool_decide (key = js "phone") then
      let d := onlyDigits str in
      if bool_decide (length d = 10%nat) then Accepted d
      else if bool_decide (length d = 12%nat) && startsWith (js "91") d then Accepted (slice 2 d)
      else reject t_phone lang
    else if bool_decide (key = js "grade") then
      let g := parseInt10 (or_else (exec digitsRx str) []) in
      match g with
      | Some n =>
        if (1 <=? n)%Z && (n <=? 12)%Z then Accepted (decimal (Z.to_N n))
        else reject t_grade lang
      | None => reject t_grade lang
      end
    else if bool_decide (key = js "mode") then
      let v := toLowerCase str in
      if test homeRx v then Accepted (js "home")
      else if test onlineZoomRx v then Accepted (js "online")
      else reject t_mode lang
    else if bool_decide (key = js "area") then
      let s := trim str in
      if test subjectRx s then reject t_area lang
      else if test localityRx s then Accepted s
      else reject t_area lang
    else if bool_decide (key = js "schedule") then
      let s := toLowerCase str in
      if test onlyModeRx s then reject t_schedule lang
      else if test dayRx s || test timeRx s then Accepted (trim str)
      else reject t_schedule lang
    else Accepted (trim str)
  end.

(** ** LLM planner

    The chat-completion call is the external collaborator.  Its effect
    on a turn is one of: the call fails (the promise rejects); the
    response has no content, so that ["{}"] is parsed; the response has
    a content, given here with what [JSON.parse] makes of it ([None]
    when [JSON.parse] throws). *)
Inductive completion : Type :=
  | call_fails
  | no_content
  | content (parsed : option json).

(** The plan as [handleTurn] reads it. *)
Record Plan : Type :=
  { updates : json; assistant_text : jsstring; next_field : jsstring; done : bool }.

(** The result of an [async] function: the value it resolves to, or a
    rejection. *)
Inductive outcome (A : Type) : Type :=
  | resolved (a : A)
  | rejected.
Arguments resolved {A} a.
Arguments rejected {A}.

(** The part of [llmPlan] after the call: parse, then default every
    property of the wrong shape.  [typeof null] is ["object"], so a
    content that parses to [null] is kept and reading [json.updates]
    throws a TypeError. *)
Definition normalizePlan (j : json) : outcome Plan :=
  let j1 :=
    match j with
    | JNull | JObj _ => j
    | _ => JObj []
    end in
  match j1 with
  | JObj props =>
    resolved
      {| updates :=
           match get_prop (js "updates") props with
           | Some (JObj o) => JObj o
           | Some (JArr a) => JArr a
           | _ => JObj []
           end;
         assistant_text :=
           match get_prop (js "assistant_text") props with
           | Some (JStr s) => s
           | _ => js "Okay."
           end;
         next_field :=
           match get_prop (js "next_field") props with
           | Some (JStr s) => s
           | _ => []
           end;
         done :=
           match get_prop (js "done") props with
           | Some (JBool b) => b
           | _ => false
           end |}
  | _ => rejected
  end.

Definition llmPlan (c : completion) : outcome Plan :=
  match c with
  | call_fails => rejected
  | no_content => normalizePlan (JObj [])
  | content None => normalizePlan (JObj [])
  | content (Some j) => normalizePlan j
  end.

(** ** Conversation state and the spreadsheet sink *)

(** [SESSIONS]: conversation identifier to the answers of the session. *)
Abbreviation answers_map := (gmap jsstring jsstring).
Abbreviation sessions := (gmap jsstring answers_map).

(** A request that reached the spreadsheet: a row appended to the
    presales or chat_log tab, or the fixed leads row overwritten. *)
Inductive tab : Type := presales | chat_log.
Inductive sheet_request : Type :=
  | values_append (t : tab) (values : list jsstring)
  | values_update_leads (row : list jsstring).

(** The mutable state around a turn: the session store, the requests
    the spreadsheet has received, and how often the clock was read and
    the spreadsheet API called. *)
Record world : Type :=
  { SESSIONS : sessions;
    sheet : list sheet_request;
    clock_reads : nat;
    api_calls : nat }.

(** What the process does not control: whether the spreadsheet is
    configured ([sheets] is not null), the n-th reading of
    [new Date().toISOString()], whether the n-th spreadsheet call
    succeeds. *)
Record environment : Type :=
  { hasSheets : bool;
    toISOString : nat -> jsstring;
    api_ok : nat -> bool }.

(** Effectful code threads the world and may throw. *)
Definition M (A : Type) : Type := world -> outcome A * world.
Definition ret {A : Type} (a : A) : M A := fun w => (resolved a, w).
Definition throw {A : Type} : M A := fun w => (rejected, w).
Definition bind {A B : Type} (m : M A) (f : A -> M B) : M B :=
  fun w =>
    match m w with
    | (resolved a, w') => f a w'
    | (rejected, w') => (rejected, w')
    end.
(** [try { m } catch {}] *)
Definition try_catch (m : M unit) : M unit :=
  fun w =>
    match m w with
    | (resolved a, w') => (resolved a, w')
    | (rejected, w') => (resolved tt, w')
    end.
Definition get_world : M world := fun w => (resolved w, w).
Definition put_sessions (s : sessions) : M unit :=
  fun w => (resolved tt,
            {| SESSIONS := s; sheet := sheet w;
               clock_reads := clock_reads w; api_calls := api_calls w |}).

Notation "'let*' x := m 'in' k" := (bind m (fun x => k))
  (at level 10, x name, m at level 100, k at level 200).
Notation "'do' m 'then' k" := (bind m (fun _ => k))
  (at level 10, m at level 100, k at level 200).

Definition new_Date (env : environment) : M jsstring :=
  fun w => (resolved (toISOString env (clock_reads w)),
            {| SESSIONS := SESSIONS w; sheet := sheet w;
               clock_reads := S (clock_reads w); api_calls := api_calls w |}).

(** One call of the spreadsheet API: it is counted, and either reaches
    the sheet or throws. *)
Definition sheets_call (env : environment) (r : sheet_request) : M unit :=
  fun w =>
    let n := api_calls w in
    if api_ok env n
    then (resolved tt,
          {| SESSIONS := SESSIONS w; sheet := sheet w ++ [r];
             clock_reads := clock_reads w; api_calls := S n |})
    else (rejected,
          {| SESSIONS := SESSIONS w; sheet := sheet w;
             clock_reads := clock_reads w; api_calls := S n |}).

Definition appendRow (env : environment) (t : tab) (values : list jsstring) : M unit :=
  if negb (hasSheets env) then ret tt
  else sheets_call env (values_append t values).

(** presales: timestamp | phone | field | value | extra *)
Definition appendPresales (env : environment) (phone field value extra : jsstring) : M unit :=
  let* ts := new_Date env in
  appendRow env presales [ts; phone; field; value; extra].

(** chat_log: timestamp | convId | role | message | phone | latencyMs |
    page | userAgent | lang *)
Definition appendChatLog (env : environment)
    (convId role message phone latencyMs page userAgent lang : jsstring) : M unit :=
  let* ts := new_Date env in
  appendRow env chat_log [ts; convId; role; message; phone; latencyMs; page; userAgent; lang].

Definition LEADS_HEADER_COUNT : nat := 12.

(** [answers.k || ''] *)
Definition answer (answers : answers_map) (k : string) : jsstring :=
  or_else (answers !! js k) [].

Definition composeLeadRow (env : environment) (convId : jsstring) (answers : answers_map)
    : M (list jsstring) :=
  let* ts := new_Date env in
  ret [ ts; convId;
        answer answers "parent_name"; answer answers "phone";
        answer answers "student_name"; answer answers "grade";
        answer answers "subjects"; answer answers "mode";
        answer answers "area"; answer answers "schedule";
        answer answers "budget"; answer answers "demo_consent" ].

Definition updateLeadFixedRow (env : environment) (convId : jsstring) (answers : answers_map)
    : M unit :=
  if negb (hasSheets env) then ret tt
  else
    let* row := composeLeadRow env convId answers in
    sheets_call env (values_update_leads (take LEADS_HEADER_COUNT row)).

Definition ensureSession (convId : jsstring) : M answers_map :=
  let* w := get_world in
  match SESSIONS w !! convId with
  | Some a => ret a
  | None => do put_sessions (<[convId := ∅]> (SESSIONS w)) then ret ∅
  end.

(** ** Shared turn handler *)

(** [o[k] = v] on a plain object: the key ["__proto__"] reaches the
    setter of [Object.prototype], which ignores a string, so that no
    property is created. *)
Definition set_prop (k v : jsstring) (o : answers_map) : answers_map :=
  if bool_decide (k = js "__proto__") then o else <[k := v]> o.

(** [Object.assign(target, source)] *)
Definition Object_assign (target source : answers_map) : answers_map :=
  map_fold set_prop target source.

Record message : Type := { role : jsstring; content_ : jsstring }.

(** The body of the validation loop: an accepted value is staged, a
    rejection overwrites [badPrompt], and an exception of the validator
    leaves the loop and the turn (the loop has no [try]).  [langHint]
    is "en", "hi" or "te", none of them a member of
    [Object.prototype], so that the prompt of a rejection is a string
    here; the case of a prompt that is not one is never reached, and
    written to leave [badPrompt] alone. *)
Definition validate_step (langHint : jsstring)
    (acc : jsstring * answers_map) (kv : jsstring * json)
    : outcome (jsstring * answers_map) :=
  match validateUpdate kv.1 kv.2 langHint with
  | Accepted value => resolved (acc.1, set_prop kv.1 value acc.2)
  | Rejected prompt => resolved (prompt, acc.2)
  | Rejected_inherited _ => resolved acc
  | Throws => rejected
  end.
Fixpoint validate_loop (langHint : jsstring) (entries : list (jsstring * json))
    (acc : jsstring * answers_map) : outcome (jsstring * answers_map) :=
  match entries with
  | [] => resolved acc
  | kv :: rest =>
    match validate_step langHint acc kv with
    | resolved acc' => validate_loop langHint rest acc'
    | rejected => rejected
    end
  end.
Definition validate_all (langHint : jsstring) (entries : list (jsstring * json))
    : outcome (jsstring * answers_map) :=
  validate_loop langHint entries ([], ∅).

(** What a turn delivers: the object returned to the caller, or the
    chunks written to [resStream] (the payload of a data chunk is the
    object that [JSON.stringify] serialises). *)
Inductive chunk : Type :=
  | data_chunk (reply convId : jsstring)
  | comment_error
  | end_of_stream.
Inductive delivery : Type :=
  | returned (reply convId : jsstring) (answers : answers_map)
  | streamed (chunks : list chunk).

(** [(lang === 'hi' || lang === 'te') ? lang : 'en'] *)
Definition langHint_of (lang : jsstring) : jsstring :=
  if bool_decide (lang = js "hi") || bool_decide (lang = js "te") then lang else js "en".

(** [lastUser?.content || ''], where [lastUser] is the last message
    of the history whose role is "user". *)
Definition lastUser_content (messages : list message) : jsstring :=
  match find (fun m => bool_decide (role m = js "user")) (rev messages) with
  | Some m => content_ m
  | None => []
  end.

(** [badPrompt || plan.assistant_text || 'Okay.'] *)
Definition compose_reply (badPrompt assistant_text : jsstring) : jsstring :=
  or_else (Some badPrompt) (or_else (Some assistant_text) (js "Okay.")).

(** [handleTurn]; [planner] is what the completion call of this turn
    yields.  The session object is shared with [SESSIONS]:
    [Object.assign] on its answers is a write to the store.  A failure
    of the planner or of the validation loop rejects the turn where it
    happens: after [ensureSession], before the merge and before any
    request to the spreadsheet. *)
Definition handleTurn (env : environment) (planner : completion)
    (convId : jsstring) (messages : list message) (lang page userAgent : jsstring)
    (resStream : bool) : M delivery :=
  let langHint := langHint_of lang in
  let* sess := ensureSession convId in
  let lastUser := lastUser_content messages in
  match llmPlan planner with
  | rejected => throw
  | resolved plan =>
    (* Validate/normalize model updates *)
    match validate_all langHint (Object_entries (updates plan)) with
    | rejected => throw
    | resolved (badPrompt, validated) =>
    let answers := Object_assign sess validated in
    let* w := get_world in
    do put_sessions (<[convId := answers]> (SESSIONS w)) then
    (* mirror phone if we have a clean 10-digit *)
    let phone10 := onlyDigits (answer answers "phone") in
    let phoneClean := if bool_decide (length phone10 = 10%nat) then phone10 else [] in
    do match phoneClean with
       | [] => ret tt
       | _ :: _ => try_catch (appendPresales env phoneClean (js "phone") phoneClean (js "chat"))
       end then
    let reply := compose_reply badPrompt (assistant_text plan) in
    do try_catch (
         do appendChatLog env convId (js "user") lastUser phoneClean [] page userAgent langHint then
         do appendChatLog env convId (js "assistant") reply phoneClean [] page userAgent langHint then
         (* ALWAYS write to fixed first row (row 2) *)
         updateLeadFixedRow env convId answers) then
    if resStream
    then ret (streamed [data_chunk reply convId; end_of_stream])
    else ret (returned reply convId answers)
    end
  end.

(** ** Routes *)

(** The body of a request, for a client that sends strings and a list
    of messages with a role and a content: [convId] may be missing or
    empty. *)
Record request : Type :=
  { req_convId : option jsstring;
    req_messages : list message;
    req_lang : jsstring;
    req_page : jsstring;
    req_userAgent : jsstring }.

Inductive response_body : Type :=
  | json_out (reply convId : jsstring) (answers : answers_map)   (* res.json(out) *)
  | json_chat_failed                                              (* status 500 *)
  | event_stream (chunks : list chunk).
(** The header [x-conv-id] is [None] when it was not set. *)
Record response : Type := { x_conv_id : option jsstring; body : response_body }.

(** [res.setHeader(name, value)] throws ERR_INVALID_CHAR unless every
    code unit of the value is a tab or lies in 0x20-0x7e or 0x80-0xff
    (the header value check of Node's http module,
    [/[^\t\x20-\x7e\x80-\xff]/]). *)
Definition valid_header_unit (x : N) : bool :=
  (x =? 9) || ((32 <=? x) && (x <=? 126)) || ((128 <=? x) && (x <=? 255)).
Definition setHeader_ok (value : jsstring) : bool := forallb valid_header_unit value.

(** [if (!convId) convId = crypto.randomUUID()] *)
Definition convId_of (req : request) (randomUUID : jsstring) : jsstring :=
  match req_convId req with
  | Some (x :: r) => x :: r
  | _ => randomUUID
  end.

(** [app.post('/chat')]: the object that [handleTurn] returns is the
    body; a failure of [setHeader], before the turn, or of the turn is
    answered with status 500 and [{ error: 'chat_failed' }].  (Without
    a stream [handleTurn] never delivers chunks; that case is there for
    the match to be complete.) *)
Definition post_chat (env : environment) (planner : completion) (randomUUID : jsstring)
    (req : request) (w : world) : response * world :=
  let convId := convId_of req randomUUID in
  if negb (setHeader_ok convId) then ({| x_conv_id := None; body := json_chat_failed |}, w)
  else
  match handleTurn env planner convId (req_messages req) (req_lang req)
          (req_page req) (req_userAgent req) false w with
  | (resolved (returned reply c answers), w') =>
    ({| x_conv_id := Some convId; body := json_out reply c answers |}, w')
  | (resolved (streamed chunks), w') =>
    ({| x_conv_id := Some convId; body := event_stream chunks |}, w')
  | (rejected, w') => ({| x_conv_id := Some convId; body := json_chat_failed |}, w')
  end.

(** [app.post('/chat_stream')]: the response is the stream that
    [handleTurn] writes; a failure of [setHeader], before the turn, or
    of the turn is answered with the comment [: error] and the end of
    the stream. *)
Definition post_chat_stream (env : environment) (planner : completion) (randomUUID : jsstring)
    (req : request) (w : world) : response * world :=
  let convId := convId_of req randomUUID in
  if negb (setHeader_ok convId)
  then ({| x_conv_id := None; body := event_stream [comment_error; end_of_stream] |}, w)
  else
  match handleTurn env planner convId (req_messages req) (req_lang req)
          (req_page req) (req_userAgent req) true w with
  | (resolved (streamed chunks), w') =>
    ({| x_conv_id := Some convId; body := event_stream chunks |}, w')
  | (resolved (returned reply c answers), w') =>
    ({| x_conv_id := Some convId; body := json_out reply c answers |}, w')
  | (rejected, w') =>
    ({| x_conv_id := Some convId; body := event_stream [comment_error; end_of_stream] |}, w')
  end.

(** ** What the patterns mean

    The matches of a pattern as a relation between the position where a
    match starts and the position where it ends; the matcher is proved
    to find a match exactly when the relation has one. *)
Inductive Matches (i : bool) : regex -> position -> position -> Prop :=
  | M_Empty p : Matches i Empty p p
  | M_Char c prev x rest :
      char_match i c x = true -> Matches i (Char c) (prev, x :: rest) (Some x, rest)
  | M_Class neg rs prev x rest :
      class_match i neg rs x = true -> Matches i (Class neg rs) (prev, x :: rest) (Some x, rest)
  | M_Seq r1 r2 p q s : Matches i r1 p q -> Matches i r2 q s -> Matches i (Seq r1 r2) p s
  | M_AltL r1 r2 p q : Matches i r1 p q -> Matches i (Alt r1 r2) p q
  | M_AltR r1 r2 p q : Matches i r2 p q -> Matches i (Alt r1 r2) p q
  | M_StarNil r p : Matches i (Star r) p p
  | M_StarCons r p q s :
      Matches i r p q -> (length q.2 < length p.2)%nat -> Matches i (Star r) q s ->
      Matches i (Star r) p s
  | M_Bol rest : Matches i Bol (None, rest) (None, rest)
  | M_Eol prev : Matches i Eol (prev, []) (prev, [])
  | M_WordBoundary p : at_word_boundary p = true -> Matches i WordBoundary p p.

(** The code unit before a position reached by reading [w] from a
    position whose previous code unit is [prev]. *)
Definition before (prev : option N) (w : jsstring) : option N :=
  match last w with
  | Some x => Some x
  | None => prev
  end.

(** [w] occurs in [s]. *)
Definition occurs_in (w s : jsstring) : Prop := exists pre post, s = pre ++ w ++ post.

(** Equality up to ASCII case. *)
Definition same_ignoring_case (a b : jsstring) : Prop := map to_upper a = map to_upper b.

(** [kw] occurs in [s] up to ASCII case. *)
Definition occurs_ignoring_case (kw s : jsstring) : Prop :=
  exists w, same_ignoring_case w kw /\ occurs_in w s.

(** ** The words of the specification *)

(** The corrective prompt "localized to the turn's language", English
    when the tag is not recognised. *)
Definition corrective_prompt (tbl : localized) (lang : jsstring) : jsstring :=
  if bool_decide (lang = js "hi") then hi tbl
  else if bool_decide (lang = js "te") then te tbl
  else en tbl.

(** "strip all non-digit characters" *)
Definition digits_of (raw : jsstring) : jsstring := List.filter is_digit raw.

(** "the first run of digits": skip to the first digit and read while
    digits go on. *)
Definition first_digit_run (raw : jsstring) : jsstring :=
  takeWhile is_digit (dropWhile (fun x => negb (is_digit x)) raw).

(** The sentence on grades as the specification states it: an integer
    of [1,12] written anywhere in the raw value is accepted and is the
    normalised value. *)
Definition grade_embedded_anywhere : Prop :=
  forall (pre post : jsstring) (g : N) (lang : jsstring),
    1 <= g <= 12 ->
    validateUpdate (js "grade") (JStr (pre ++ decimal g ++ post)) lang = Accepted (decimal g).

(** ** Turns and the store *)

(** The validator accepts a proposed update. *)
Definition accepts (lang : jsstring) (kv : jsstring * json) : Prop :=
  exists v, validateUpdate kv.1 kv.2 lang = Accepted v.

(** The validator returns a result for a proposed update: it does not
    throw. *)
Definition returns (lang : jsstring) (kv : jsstring * json) : Prop :=
  validateUpdate kv.1 kv.2 lang <> Throws.

(** A tag that names no member of [Object.prototype]: the prompt that
    the validator finds for it is a string. *)
Definition plain_tag (lang : jsstring) : Prop := lang ∉ Object_prototype_names.

(** What the validation loop computes when it runs to its end, as a
    fold over the proposals: the last prompt and the staged values. *)
Definition stage_step (lang : jsstring)
    (acc : jsstring * answers_map) (kv : jsstring * json) : jsstring * answers_map :=
  match validateUpdate kv.1 kv.2 lang with
  | Accepted value => (acc.1, set_prop kv.1 value acc.2)
  | Rejected prompt => (prompt, acc.2)
  | _ => acc
  end.
Definition stage_all (lang : jsstring) (entries : list (jsstring * json))
    : jsstring * answers_map :=
  foldl (stage_step lang) ([], ∅) entries.

(** The proposals of a turn, and the turn fails: the planner fails, or
    the validator throws on one of the proposals. *)
Definition proposals (planner : completion) : list (jsstring * json) :=
  match llmPlan planner with
  | resolved plan => Object_entries (updates plan)
  | rejected => []
  end.
Definition turn_fails (lang : jsstring) (planner : completion) : Prop :=
  llmPlan planner = rejected \/ ~ Forall (returns (langHint_of lang)) (proposals planner).

(** Every stored answer is a value that the validator accepted for its
    key. *)
Definition validated_store (s : sessions) : Prop :=
  forall c a k v, s !! c = Some a -> a !! k = Some v ->
    exists raw lang, validateUpdate k raw lang = Accepted v.

(** The inputs of one turn, and a conversation as a list of turns
    served one after the other. *)
Record turn : Type :=
  { turn_planner : completion;
    turn_convId : jsstring;
    turn_messages : list message;
    turn_lang : jsstring;
    turn_page : jsstring;
    turn_userAgent : jsstring;
    turn_stream : bool }.

Definition serve (env : environment) (t : turn) (w : world) : world :=
  (handleTurn env (turn_planner t) (turn_convId t) (turn_messages t) (turn_lang t)
     (turn_page t) (turn_userAgent t) (turn_stream t) w).2.

Definition serve_all (env : environment) (ts : list turn) (w : world) : world :=
  foldl (fun w t => serve env t w) w ts.

Definition boot : world := {| SESSIONS := ∅; sheet := []; clock_reads := 0; api_calls := 0 |}.

(** An action that leaves the session store alone. *)
Definition keeps_sessions {A : Type} (m : M A) : Prop :=
  forall w, SESSIONS (m w).2 = SESSIONS w.

(** An action that never throws. *)
Definition total {A : Type} (m : M A) : Prop :=
  forall w, exists a, (m w).1 = resolved a.

(** The two effectful blocks of [handleTurn] after the merge, named for
    the proofs: the mirror of a clean phone number to the presales tab,
    and the persistence block. *)
Definition mirror_phone (env : environment) (phoneClean : jsstring) : M unit :=
  match phoneClean with
  | [] => ret tt
  | _ :: _ => try_catch (appendPresales env phoneClean (js "phone") phoneClean (js "chat"))
  end.

Definition persist_turn (env : environment)
    (convId lastUser reply phoneClean page userAgent langHint : jsstring)
    (answers : answers_map) : M unit :=
  try_catch (
    do appendChatLog env convId (js "user") lastUser phoneClean [] page userAgent langHint then
    do appendChatLog env convId (js "assistant") reply phoneClean [] page userAgent langHint then
    updateLeadFixedRow env convId answers).

(** [phoneClean] as [handleTurn] derives it from the answers. *)
Definition phoneClean_of (answers : answers_map) : jsstring :=
  let phone10 := onlyDigits (answer answers "phone") in
  if bool_decide (length phone10 = 10%nat) then phone10 else [].

(** The reply that a turn delivered, if any. *)
Definition reply_of (o : outcome delivery) : option jsstring :=
  match o with
  | resolved (returned reply _ _) => Some reply
  | resolved (streamed (data_chunk reply _ :: _)) => Some reply
  | _ => None
  end.

(** The twelve columns of the leads row: timestamp, conversation
    identifier, and the ten fields, empty when absent. *)
Definition lead_columns (ts convId : jsstring) (answers : answers_map) : list jsstring :=
  ts :: convId ::
  map (fun k => default [] (answers !! js k))
    [ "parent_name"; "phone"; "student_name"; "grade"; "subjects"; "mode"; "area";
      "schedule"; "budget"; "demo_consent" ]%string.

(** The defaults that replace what a planner output lacks. *)
Definition default_plan : Plan :=
  {| updates := JObj []; assistant_text := js "Okay."; next_field := []; done := false |}.

(** The property [k] of a planner output: an own property of the parsed
    content when that is an object; an output without content, with a
    content that is not JSON or with one that is not an object has
    none. *)
Definition planner_property (c : completion) (k : string) : option json :=
  match c with
  | content (Some (JObj props)) => get_prop (js k) props
  | _ => None
  end.

(** The four properties of a plan and the type expected of each; a
    property is usable when it is there and has its type. *)
Definition plan_properties : list string :=
  [ "updates"; "assistant_text"; "next_field"; "done" ]%string.
Definition has_expected_type (k : string) (j : json) : bool :=
  if String.eqb k "updates" then match j with JObj _ | JArr _ => true | _ => false end
  else if String.eqb k "assistant_text" then match j with JStr _ => true | _ => false end
  else if String.eqb k "next_field" then match j with JStr _ => true | _ => false end
  else if String.eqb k "done" then match j with JBool _ => true | _ => false end
  else false.
Definition usable (c : completion) (k : string) : bool :=
  match planner_property c k with
  | Some j => has_expected_type k j
  | None => false
  end.

(** A planner output of the wrong shape: the call returned, the content
    is not [null], and one of the four properties is not usable.  (No
    content, a content that is not JSON, a boolean, a number, a string
    and an array have no usable property.) *)
Definition malformed (c : completion) : bool :=
  match c with
  | call_fails => false
  | content (Some JNull) => false
  | _ => negb (forallb (usable c) plan_properties)
  end.

(** "substitutes the defaults": the plan made of the usable properties
    of the output, with the default in the place of each other one. *)
Definition with_defaults (c : completion) : Plan :=
  {| updates :=
       match planner_property c "updates" with
       | Some (JObj o) => JObj o
       | Some (JArr a) => JArr a
       | _ => updates default_plan
       end;
     assistant_text :=
       match planner_property c "assistant_text" with
       | Some (JStr s) => s
       | _ => assistant_text default_plan
       end;
     next_field :=
       match planner_property c "next_field" with
       | Some (JStr s) => s
       | _ => next_field default_plan
       end;
     done :=
       match planner_property c "done" with
       | Some (JBool b) => b
       | _ => done default_plan
       end |}.

(** A request of the persistence block: a chat_log row, or the leads
    row with the columns of the given answers. *)
Definition turn_request (convId : jsstring) (answers : answers_map) (q : sheet_request) : Prop :=
  (exists t values, q = values_append t values) \/
  (exists ts, q = values_update_leads (lead_columns ts convId answers)).

(** ** Keywords, weekdays and times of day *)

(** ASCII letters. *)
Definition letter_ranges : list (N * N) := [(65, 90); (97, 122)].
Definition is_letter (x : N) : bool := in_ranges letter_ranges x.

(** The subject keywords that the pattern of the area guard spells out,
    and the shortest ones, which occur in all the others. *)
Definition subject_keywords : list jsstring :=
  map js [ "iit-jee"; "iit jee"; "iitjee"; "jee"; "neet"; "sat"; "iit-foundation";
           "iit foundation"; "iitfoundation"; "foundation"; "ntse"; "olympiad"; "cbse";
           "icse"; "ib"; "school" ]%string.
Definition subject_cores : list jsstring :=
  map js [ "jee"; "neet"; "sat"; "foundation"; "ntse"; "olympiad"; "cbse"; "icse"; "ib";
           "school" ]%string.

(** The weekday abbreviations. *)
Definition weekdays : list jsstring :=
  map js [ "mon"; "tue"; "wed"; "thu"; "fri"; "sat"; "sun" ]%string.
Definition mentions_weekday (s : jsstring) : Prop :=
  exists d, d ∈ weekdays /\ occurs_ignoring_case d s.

(** A time of day: an hour of one or two digits, optionally a colon
    and two digits of minutes, optionally white space, optionally "am"
    or "pm". *)
Definition all_digits (w : jsstring) : Prop := Forall (fun x => is_digit x = true) w.
Definition is_hour (h : jsstring) : Prop :=
  (length h = 1%nat \/ length h = 2%nat) /\ all_digits h.
Definition is_minutes (m : jsstring) : Prop :=
  m = [] \/ exists d, m = 58 :: d /\ length d = 2%nat /\ all_digits d.
Definition is_marker (ap : jsstring) : Prop :=
  ap = [] \/ same_ignoring_case ap (js "am") \/ same_ignoring_case ap (js "pm").
Definition time_of_day (w : jsstring) : Prop :=
  exists h m sp ap,
    w = h ++ m ++ sp ++ ap /\ is_hour h /\ is_minutes m /\
    Forall (fun x => is_space x = true) sp /\ is_marker ap.

(** A time of day occurs in [s]. *)
Definition contains_time_of_day (s : jsstring) : Prop :=
  exists pre w post, s = pre ++ w ++ post /\ time_of_day w.

(** A time of day occurs in [s] between two word boundaries: of the
    code units just before and just after each end, exactly one is a
    letter, a digit or an underscore. *)
Definition word_boundary (left right : jsstring) : Prop :=
  at_word_boundary (last left, right) = true.
Definition has_time_of_day (s : jsstring) : Prop :=
  exists pre w post,
    s = pre ++ w ++ post /\ time_of_day w /\
    word_boundary pre (w ++ post) /\ word_boundary (pre ++ w) post.

(** A pattern without assertion reads the words of a language: its
    matches from a position are the splits of the rest of the input
    into a word of the language and what follows. *)
Definition reads (i : bool) (r : regex) (L : jsstring -> Prop) : Prop :=
  forall prev s q,
    Matches i r (prev, s) q <->
    exists w rest, s = w ++ rest /\ L w /\ q = (before prev w, rest).

(** The sentence on schedules as the specification states it: a value
    that is neither "online" nor "home" and contains a weekday
    abbreviation or a time of day is accepted. *)
Definition schedule_accepts_any_time_of_day : Prop :=
  forall raw lang : jsstring,
    let s := toLowerCase raw in
    s <> js "online" -> s <> js "home" ->
    mentions_weekday s \/ contains_time_of_day s ->
    validateUpdate (js "schedule") (JStr raw) lang = Accepted (trim raw).

(** ** Sample inputs *)

(** A configured spreadsheet that accepts every call. *)
Definition env_ok : environment :=
  {| hasSheets := true;
     toISOString := fun _ => js "2024-01-01T00:00:00.000Z";
     api_ok := fun _ => true |}.

(** A plan that proposes an area (a subject by mistake) and a phone
    number. *)
Definition plan_neet_phone : json :=
  JObj [ (js "updates",
          JObj [ (js "area", JStr (js "NEET")); (js "phone", JStr (js "+91 98765 43210")) ]);
         (js "assistant_text", JStr (js "Got it, what's the student's name?")) ].

(** A plan that proposes a phone number only. *)
Definition plan_phone : json :=
  JObj [ (js "updates", JObj [ (js "phone", JStr (js "+91 98765 43210")) ]);
         (js "assistant_text", JStr (js "Got it, what's the student's name?")) ].

(** The two plans as [llmPlan] normalises them. *)
Definition normal_neet_phone : Plan :=
  {| updates := JObj [ (js "area", JStr (js "NEET")); (js "phone", JStr (js "+91 98765 43210")) ];
     assistant_text := js "Got it, what's the student's name?";
     next_field := [];
     done := false |}.
Definition normal_phone : Plan :=
  {| updates := JObj [ (js "phone", JStr (js "+91 98765 43210")) ];
     assistant_text := js "Got it, what's the student's name?";
     next_field := [];
     done := false |}.

Definition empty_request : request :=
  {| req_convId := None; req_messages := []; req_lang := []; req_page := [];
     req_userAgent := [] |}.

(** ** Helpers of the spreadsheet sink *)

(** [s.endsWith(p)] and [s.slice(1, -1)] *)
Definition endsWith (p s : jsstring) : bool := startsWith (rev p) (rev s).
Definition slice_1_m1 (s : jsstring) : jsstring := take (length s - 2) (drop 1 s).

(** [trimQuotes]; [None] is a missing name ([s ?? '']).  The double
    quote is the code unit 34, the single quote 39. *)
Definition trimQuotes (s : option jsstring) : jsstring :=
  let t := trim (default [] s) in
  if (startsWith [34] t && endsWith [34] t)
     || (startsWith (js "'") t && endsWith (js "'") t)
  then slice_1_m1 t
  else t.

(** The patterns of [tabRefFromName]: [/'/g] and [/[\s!]/]. *)
Definition quoteRx : RegExp := {| pattern := Char 39; ignoreCase := false |}.
Definition spaceBangRx : RegExp :=
  {| pattern := Class false (space_ranges ++ [(33, 33)]); ignoreCase := false |}.

Definition tabRefFromName (name : option jsstring) : jsstring :=
  let raw := trimQuotes name in
  let safe := replaceAll quoteRx (js "''") raw in
  if test spaceBangRx safe then js "'" ++ safe ++ js "'" else safe.

(** The range of [appendRow]: the tab reference followed by [!A:Z]. *)
Definition append_range (tab_name : option jsstring) : jsstring :=
  tabRefFromName tab_name ++ js "!A:Z".

(** ** The route [/tool/log_message] *)

(** The body of the request; a missing property is [None]. *)
Record log_body : Type :=
  { log_conversationId : option jsstring;
    log_role : option jsstring;
    log_text : option jsstring;
    log_phone : option jsstring;
    log_latencyMs : option jsstring;
    log_page : option jsstring;
    log_userAgent : option jsstring;
    log_lang : option jsstring }.

Inductive log_response : Type :=
  | log_ok                (* res.json({ ok: true }) *)
  | log_failed.           (* status 500, { ok: false } *)

(** [app.post('/tool/log_message')].  The route gives the identifier,
    the phone, the page, the user agent and the language their default
    ([x || '']) and the latency its own ([latencyMs ?? '']);
    [appendChatLog] gives the role and the text theirs ([role || ''],
    [message || '']). *)
Definition post_log_message (env : environment) (b : log_body) (w : world)
    : log_response * world :=
  match appendChatLog env
          (or_else (log_conversationId b) [])
          (or_else (log_role b) [])
          (or_else (log_text b) [])
          (or_else (log_phone b) [])
          (default [] (log_latencyMs b))
          (or_else (log_page b) [])
          (or_else (log_userAgent b) [])
          (or_else (log_lang b) []) w with
  | (resolved _, w') => (log_ok, w')
  | (rejected, w') => (log_failed, w')
  end.

(** ** More words for the properties *)

(** The letters of the locality check: Latin, Devanagari, Telugu. *)
Definition locality_ranges : list (N * N) :=
  [(65, 90); (97, 122); (0x0900, 0x097F); (0x0C00, 0x0C7F)].
Definition is_locality_letter (x : N) : bool := in_ranges locality_ranges x.

(** Three consecutive letters occur in [s]. *)
Definition has_letter_run (s : jsstring) : Prop :=
  exists pre a b c post,
    s = pre ++ [a; b; c] ++ post /\
    is_locality_letter a = true /\ is_locality_letter b = true /\ is_locality_letter c = true.

(** A subject keyword occurs in [s], in any mix of cases. *)
Definition mentions_subject (s : jsstring) : Prop :=
  exists kw, kw ∈ subject_keywords /\ occurs_ignoring_case kw s.

(** The five localisation tables. *)
Definition prompt_tables : list localized := [t_phone; t_grade; t_mode; t_area; t_schedule].

(** The rows of a turn. *)
Definition presales_row (ts phone : jsstring) : sheet_request :=
  values_append presales [ts; phone; js "phone"; phone; js "chat"].
Definition chat_log_row (ts convId role_ message_ phone page userAgent lang : jsstring)
    : sheet_request :=
  values_append chat_log [ts; convId; role_; message_; phone; []; page; userAgent; lang].

(** [tabRefFromName] doubles the quotes of a name. *)
Definition double_quotes (raw : jsstring) : jsstring :=
  flat_map (fun x => if x =? 39 then [39; 39] else [x]) raw.

(** White space or an exclamation mark occurs in [s]. *)
Definition needs_quoting (s : jsstring) : bool :=
  existsb (fun x => is_space x || (x =? 33)) s.

(** * Properties *)

(** ** The examples of the specification *)
Example js_ascii : js "91" = [57; 49].
Proof. reflexivity. Qed.

Example js_en_dash : js "1–12" = [49; 0x2013; 49; 50].
Proof. reflexivity. Qed.

Example js_devanagari : js "अ" = [0x0905].
Proof. reflexivity. Qed.

Example exec_first_digits :
  exec {| pattern := Plus Digit; ignoreCase := false |} (js "ab 12 c 345") = Some (js "12").
Proof. reflexivity. Qed.

Example replace_non_digits :
  replaceAll {| pattern := Plus NonDigit; ignoreCase := false |} [] (js "+91 98765-43210")
  = js "919876543210".
Proof. reflexivity. Qed.

Example validate_phone_91 :
  validateUpdate (js "phone") (JStr (js "+91 98765 43210")) (js "en") = Accepted (js "9876543210").
Proof. vm_compute. reflexivity. Qed.

Example validate_grade_7th :
  validateUpdate (js "grade") (JStr (js "7th")) (js "en") = Accepted (js "7").
Proof. vm_compute. reflexivity. Qed.

Example validate_grade_thirteen :
  validateUpdate (js "grade") (JStr (js "thirteen")) (js "hi") = Rejected (hi t_grade).
Proof. vm_compute. reflexivity. Qed.

Example validate_mode_online :
  validateUpdate (js "mode") (JStr (js "I'd like online classes")) (js "en")
  = Accepted (js "online").
Proof. vm_compute. reflexivity. Qed.

Example validate_area_neet :
  validateUpdate (js "area") (JStr (js "NEET")) (js "te") = Rejected (te t_area).
Proof. vm_compute. reflexivity. Qed.

Example validate_area_madhapur :
  validateUpdate (js "area") (JStr (js " Madhapur ")) (js "en") = Accepted (js "Madhapur").
Proof. vm_compute. reflexivity. Qed.

Example validate_area_12 :
  validateUpdate (js "area") (JStr (js "12")) (js "en") = Rejected (en t_area).
Proof. vm_compute. reflexivity. Qed.

Example validate_schedule_online :
  validateUpdate (js "schedule") (JStr (js "online")) (js "en") = Rejected (en t_schedule).
Proof. vm_compute. reflexivity. Qed.

Example validate_schedule_monfri :
  validateUpdate (js "schedule") (JStr (js "Mon-Fri 6-7pm")) (js "en")
  = Accepted (js "Mon-Fri 6-7pm").
Proof. vm_compute. reflexivity. Qed.

Example validate_schedule_tuesday :
  validateUpdate (js "schedule") (JStr (js "Tuesday")) (js "en") = Accepted (js "Tuesday").
Proof. vm_compute. reflexivity. Qed.

Example validate_schedule_sometime :
  validateUpdate (js "schedule") (JStr (js "sometime")) (js "en") = Rejected (en t_schedule).
Proof. vm_compute. reflexivity. Qed.

(** End to end, from the empty store: a phone number that normalises is
    stored and the planner's text is the reply; an area that is a
    subject is not stored and the area prompt is the reply. *)
Example turn_accepts_phone :
  let out := handleTurn env_ok (content (Some plan_phone)) (js "c1") [] (js "en") [] []
               false boot in
  reply_of out.1 = Some (js "Got it, what's the student's name?") /\
  default ∅ (SESSIONS out.2 !! js "c1") !! js "phone" = Some (js "9876543210").
Proof. vm_compute. split; reflexivity. Qed.

Example turn_rejects_area :
  let planner :=
    content (Some (JObj [ (js "updates", JObj [ (js "area", JStr (js "NEET")) ]);
                          (js "assistant_text", JStr (js "Which days suit you?")) ])) in
  let out := handleTurn env_ok planner (js "c1") [] (js "en") [] [] false boot in
  reply_of out.1 = Some (en t_area) /\
  default ∅ (SESSIONS out.2 !! js "c1") !! js "area" = None.
Proof. vm_compute. split; reflexivity. Qed.

(** A planner content that is not JSON: the reply is "Okay.". *)
Example turn_unparsable_plan :
  reply_of (handleTurn env_ok (content None) (js "c1") [] (js "en") [] [] false boot).1
  = Some (js "Okay.").
Proof. vm_compute. reflexivity. Qed.

(** ** The matcher finds the matches of a pattern *)

Section matcher_correct.
Variable i : bool.

Lemma star_loop_is_Some (r : regex)
    (body : position -> (position -> option position) -> option position)
    (k : position -> option position) :
  (forall p k', is_Some (body p k') <-> exists q, Matches i r p q /\ is_Some (k' q)) ->
  forall fuel p, (length p.2 <= fuel)%nat ->
    is_Some (star_loop body k fuel p) <-> exists q, Matches i (Star r) p q /\ is_Some (k q).
Proof.
  intros Hbody fuel. induction fuel as [|fuel IH]; intros p Hlen; simpl.
  - split.
    + intros Hk. exists p. split; [constructor | done].
    + intros (q & Hm & Hk). inversion Hm; subst; [done | lia].
  - destruct (body p _) as [q0|] eqn:Hb.
    + split; [intros _ | intros _; by eexists].
      assert (Hs : is_Some (body p (fun p1 =>
                if (length p1.2 <? length p.2)%nat then star_loop body k fuel p1 else None)))
        by (rewrite Hb; by eexists).
      apply Hbody in Hs as (q1 & Hm1 & Hk1).
      destruct (Nat.ltb_spec (length q1.2) (length p.2)) as [Hlt|]; [|by destruct Hk1].
      apply IH in Hk1 as (q & Hm & Hk); [|lia].
      exists q. split; [|done]. by eapply M_StarCons.
    + split.
      * intros Hk. exists p. split; [constructor | done].
      * intros (q & Hm & Hk). inversion Hm; subst; [done|].
        assert (Hs : is_Some (body p (fun p1 =>
                if (length p1.2 <? length p.2)%nat then star_loop body k fuel p1 else None))).
        { apply Hbody. eexists. split; [eassumption|].
          destruct (Nat.ltb_spec (length q0.2) (length p.2)); [|lia].
          apply IH; [lia|]. by eexists. }
        rewrite Hb in Hs. by destruct Hs.
Qed.

Lemma matcher_is_Some (r : regex) :
  forall p k, is_Some (matcher i r p k) <-> exists q, Matches i r p q /\ is_Some (k q).
Proof.
  induction r as [|c|neg rs|r1 IH1 r2 IH2|r1 IH1 r2 IH2|r IH| | |]; intros [prev s] k; simpl.
  - split; [intros Hk; eexists; split; [constructor|done] | intros (q & Hm & Hk); by inversion Hm; subst].
  - destruct s as [|x rest].
    + split; [by intros [? ?] | intros (q & Hm & _); inversion Hm].
    + destruct (char_match i c x) eqn:Hc.
      * split; [intros Hk; eexists; split; [by constructor|done]
               | intros (q & Hm & Hk); by inversion Hm; subst].
      * split; [by intros [? ?] | intros (q & Hm & _); inversion Hm; congruence].
  - destruct s as [|x rest].
    + split; [by intros [? ?] | intros (q & Hm & _); inversion Hm].
    + destruct (class_match i neg rs x) eqn:Hc.
      * split; [intros Hk; eexists; split; [by constructor|done]
               | intros (q & Hm & Hk); by inversion Hm; subst].
      * split; [by intros [? ?] | intros (q & Hm & _); inversion Hm; congruence].
  - rewrite IH1. split.
    + intros (q1 & Hm1 & Hk1). apply IH2 in Hk1 as (q & Hm2 & Hk).
      exists q. split; [by econstructor | done].
    + intros (q & Hm & Hk). inversion Hm; subst.
      eexists. split; [eassumption|]. apply IH2. by eexists.
  - destruct (matcher i r1 (prev, s) k) as [q0|] eqn:H1.
    + split; [intros _ | intros _; by eexists].
      assert (Hs : is_Some (matcher i r1 (prev, s) k)) by (rewrite H1; by eexists).
      apply IH1 in Hs as (q & Hm & Hk). exists q. split; [by apply M_AltL | done].
    + rewrite IH2. split.
      * intros (q & Hm & Hk). exists q. split; [by apply M_AltR | done].
      * intros (q & Hm & Hk). inversion Hm; subst; [|by eexists].
        assert (Hs : is_Some (matcher i r1 (prev, s) k)) by (apply IH1; by eexists).
        rewrite H1 in Hs. by destruct Hs.
  - apply star_loop_is_Some; [apply IH | done].
  - case_bool_decide as Hp; simpl in Hp.
    + subst. split; [intros Hk; eexists; split; [constructor|done]
                    | intros (q & Hm & Hk); by inversion Hm; subst].
    + split; [by intros [? ?] | intros (q & Hm & _); inversion Hm; congruence].
  - case_bool_decide as Hp; simpl in Hp.
    + subst. split; [intros Hk; eexists; split; [constructor|done]
                    | intros (q & Hm & Hk); by inversion Hm; subst].
    + split; [by intros [? ?] | intros (q & Hm & _); inversion Hm; congruence].
  - destruct (at_word_boundary (prev, s)) eqn:Hb.
    + split; [intros Hk; eexists; split; [by constructor|done]
             | intros (q & Hm & Hk); by inversion Hm; subst].
    + split; [by intros [? ?] | intros (q & Hm & _); inversion Hm; congruence].
Qed.

Lemma before_app prev a b : before (before prev a) b = before prev (a ++ b).
Proof.
  unfold before. destruct b as [|y b] using rev_ind.
  - rewrite app_nil_r. by destruct (last a).
  - rewrite app_assoc, !last_snoc. done.
Qed.

Lemma before_cons prev x w : before (Some x) w = before prev (x :: w).
Proof. apply (before_app prev [x] w). Qed.

(** A match reads a piece of the input. *)
Lemma Matches_reads r p q :
  Matches i r p q -> exists w, p.2 = w ++ q.2 /\ q.1 = before p.1 w.
Proof.
  induction 1 as [p|c prev x rest _|neg rs prev x rest _|r1 r2 p q s _ IH1 _ IH2
                 |r1 r2 p q _ IH|r1 r2 p q _ IH|r p|r p q s _ IH1 _ _ IH2|rest|prev|p _];
    simpl in *; try (by exists []); try (by exists [x]); try done.
  - destruct IH1 as (w1 & -> & E1), IH2 as (w2 & -> & E2).
    exists (w1 ++ w2). rewrite E2, E1, before_app. by rewrite app_assoc.
  - destruct IH1 as (w1 & -> & E1), IH2 as (w2 & -> & E2).
    exists (w1 ++ w2). rewrite E2, E1, before_app. by rewrite app_assoc.
Qed.

Lemma search_is_Some r prev s :
  is_Some (search i r prev s) <->
  exists pre post q, s = pre ++ post /\ Matches i r (before prev pre, post) q.
Proof.
  revert prev. induction s as [|x s IH]; intros prev; simpl.
  - destruct (matcher i r (prev, []) Some) as [q0|] eqn:Hm.
    + split; [intros _ | intros _; by eexists].
      assert (Hs : is_Some (matcher i r (prev, []) Some)) by (rewrite Hm; by eexists).
      apply matcher_is_Some in Hs as (q & Hq & _). by exists [], [], q.
    + split; [by intros [? ?]|]. intros (pre & post & q & E & Hq).
      symmetry in E. apply app_eq_nil in E as [-> ->].
      assert (Hs : is_Some (matcher i r (prev, []) Some))
        by (apply matcher_is_Some; exists q; split; [done | by eexists]).
      rewrite Hm in Hs. by destruct Hs.
  - destruct (matcher i r (prev, x :: s) Some) as [q0|] eqn:Hm.
    + split; [intros _ | intros _; by eexists].
      assert (Hs : is_Some (matcher i r (prev, x :: s) Some)) by (rewrite Hm; by eexists).
      apply matcher_is_Some in Hs as (q & Hq & _). by exists [], (x :: s), q.
    + rewrite IH. split.
      * intros (pre & post & q & -> & Hq). exists (x :: pre), post, q.
        split; [done|]. by rewrite <- before_cons.
      * intros (pre & post & q & E & Hq). destruct pre as [|y pre]; simpl in E.
        -- subst post.
           assert (Hs : is_Some (matcher i r (prev, x :: s) Some))
             by (apply matcher_is_Some; exists q; split; [done | by eexists]).
           rewrite Hm in Hs. by destruct Hs.
        -- injection E as <- ->. exists pre, post, q. split; [done|].
           by rewrite (before_cons prev).
Qed.
End matcher_correct.

Lemma test_true_iff rx s :
  test rx s = true <->
  exists pre post q, s = pre ++ post /\
    Matches (ignoreCase rx) (pattern rx) (last pre, post) q.
Proof.
  unfold test, exec.
  assert (H := search_is_Some (ignoreCase rx) (pattern rx) None s).
  assert (Hb : forall pre, before None pre = last pre)
    by (intros pre; unfold before; by destruct (last pre)).
  setoid_rewrite Hb in H. rewrite <- H.
  destruct (search _ _ _ _); split; intros H'; try done; by destruct H'.
Qed.
(** ** Digit runs: [onlyDigits] and the first match of [\d+] *)

Lemma take_while_drop_while f s : takeWhile f s ++ dropWhile f s = s.
Proof. induction s as [|x s IH]; simpl; [done|]. destruct (f x); simpl; by rewrite ?IH. Qed.

Lemma length_dropWhile f s : (length (dropWhile f s) <= length s)%nat.
Proof. induction s as [|x s IH]; simpl; [lia|]. destruct (f x); simpl; lia. Qed.

Lemma take_takeWhile f s : take (length s - length (dropWhile f s)) s = takeWhile f s.
Proof.
  rewrite <- (take_while_drop_while f s) at 1 3.
  rewrite length_app, Nat.add_sub, take_app_length. done.
Qed.

(** A starred class with nothing after it reads the longest run. *)
Lemma star_class_greedy i neg rs fuel prev s :
  (length s <= fuel)%nat ->
  star_loop (matcher i (Class neg rs)) Some fuel (prev, s)
  = Some (before prev (takeWhile (class_match i neg rs) s),
          dropWhile (class_match i neg rs) s).
Proof.
  revert prev s. induction fuel as [|fuel IH]; intros prev s Hlen.
  - destruct s; [done | simpl in Hlen; lia].
  - destruct s as [|x s]; [done|]. simpl in *.
    destruct (class_match i neg rs x) eqn:Hx; [|done].
    destruct (Nat.ltb_spec (length s) (S (length s))); [|lia].
    rewrite IH by lia. by rewrite <- (before_cons prev).
Qed.

Lemma plus_class_greedy i neg rs prev s :
  matcher i (Plus (Class neg rs)) (prev, s) Some
  = match s with
    | x :: rest =>
      if class_match i neg rs x
      then Some (before prev (takeWhile (class_match i neg rs) s),
                 dropWhile (class_match i neg rs) s)
      else None
    | [] => None
    end.
Proof.
  destruct s as [|x s]; [done|]. unfold Plus. cbn [matcher fst snd takeWhile dropWhile].
  destruct (class_match i neg rs x) eqn:Hx; [|done].
  rewrite <- (before_cons prev).
  exact (star_class_greedy i neg rs (length s) (Some x) s (le_n _)).
Qed.

Lemma class_match_digit x : class_match false false digit_ranges x = is_digit x.
Proof. unfold class_match. simpl. by rewrite orb_false_r. Qed.

Lemma class_match_non_digit x : class_match false true digit_ranges x = negb (is_digit x).
Proof. unfold class_match. simpl. by rewrite orb_false_r. Qed.

Lemma takeWhile_ext f g s : (forall x, f x = g x) -> takeWhile f s = takeWhile g s.
Proof. intros E. induction s as [|x s IH]; simpl; [done|]. by rewrite E, IH. Qed.

Lemma dropWhile_ext f g s : (forall x, f x = g x) -> dropWhile f s = dropWhile g s.
Proof. intros E. induction s as [|x s IH]; simpl; [done|]. by rewrite E, IH. Qed.

Lemma filter_dropWhile_non_digit s :
  List.filter is_digit (dropWhile (fun x => negb (is_digit x)) s) = List.filter is_digit s.
Proof.
  induction s as [|x s IH]; [done|]. cbn [dropWhile List.filter].
  destruct (is_digit x) eqn:Hx; cbn [negb List.filter]; [by rewrite Hx | done].
Qed.

Lemma replace_go_non_digits fuel prev s :
  (length s < fuel)%nat ->
  replace_go fuel false (Plus NonDigit) [] prev s = List.filter is_digit s.
Proof.
  revert prev s. induction fuel as [|fuel IH]; intros prev s Hlen; [lia|].
  cbn [replace_go]. unfold NonDigit. rewrite plus_class_greedy.
  destruct s as [|x s]; [done|]. simpl in Hlen.
  rewrite class_match_non_digit.
  destruct (is_digit x) eqn:Hx; cbn [negb]; cbn [List.filter]; rewrite Hx.
  - rewrite IH by lia. done.
  - cbn [snd fst]. cbn [dropWhile]. rewrite class_match_non_digit, Hx. cbn [negb].
    pose proof (length_dropWhile (class_match false true digit_ranges) s).
    destruct (Nat.ltb_spec (length (dropWhile (class_match false true digit_ranges) s))
                (length (x :: s))); [|simpl in *; lia].
    rewrite IH by lia. cbn [app].
    rewrite (dropWhile_ext _ _ s class_match_non_digit).
    apply filter_dropWhile_non_digit.
Qed.

(** [onlyDigits] keeps exactly the digits, in order. *)
Lemma onlyDigits_filter s : onlyDigits s = digits_of s.
Proof. unfold onlyDigits, replaceAll. apply (replace_go_non_digits _ None s). lia. Qed.

Lemma search_digits prev s :
  search false (Plus Digit) prev s
  = match dropWhile (fun x => negb (is_digit x)) s with
    | [] => None
    | t => Some (takeWhile is_digit t)
    end.
Proof.
  revert prev. induction s as [|x s IH]; intros prev; [done|].
  cbn [search]. unfold Digit. rewrite plus_class_greedy, class_match_digit.
  rewrite (takeWhile_ext _ _ (x :: s) class_match_digit),
          (dropWhile_ext _ _ (x :: s) class_match_digit).
  destruct (is_digit x) eqn:Hx.
  - cbn [snd]. rewrite take_takeWhile.
    cbn [dropWhile]. rewrite Hx. done.
  - cbn [dropWhile]. rewrite Hx. cbn [negb]. apply IH.
Qed.

Lemma exec_digits s :
  or_else (exec digitsRx s) [] = first_digit_run s.
Proof.
  unfold exec, first_digit_run. change (search _ _ None s) with (search false (Plus Digit) None s).
  rewrite search_digits.
  destruct (dropWhile _ s) as [|x t] eqn:E; [done|].
  assert (Hx : is_digit x = true).
  { clear -E. induction s as [|y s IH]; simpl in E; [done|].
    destruct (is_digit y) eqn:Hy; simpl in E; [congruence | by apply IH]. }
  simpl. by rewrite Hx.
Qed.

(** ** Corrective prompts *)

Lemma js_en_hi : js "en" <> js "hi".
Proof. vm_compute. discriminate. Qed.
Lemma js_en_te : js "en" <> js "te".
Proof. vm_compute. discriminate. Qed.

Lemma plain_tag_en : plain_tag (js "en").
Proof. unfold plain_tag. vm_compute. by intros H%list_elem_of_In; repeat destruct H as [H|H]. Qed.
Lemma plain_tag_hi : plain_tag (js "hi").
Proof. unfold plain_tag. vm_compute. by intros H%list_elem_of_In; repeat destruct H as [H|H]. Qed.
Lemma plain_tag_te : plain_tag (js "te").
Proof. unfold plain_tag. vm_compute. by intros H%list_elem_of_In; repeat destruct H as [H|H]. Qed.

Section prompts.
Variable tbl : localized.

(** For a tag that names a member of [Object.prototype], the prompt is
    that member. *)
Lemma prompt_of_inherited lang :
  lang ∈ Object_prototype_names -> prompt_of tbl lang = prototype_member lang.
Proof.
  intros Hin. unfold prompt_of, lang_prop.
  destruct (bool_decide_reflect (lang = js "en")) as [->|_]; [by destruct plain_tag_en|].
  destruct (bool_decide_reflect (lang = js "hi")) as [->|_]; [by destruct plain_tag_hi|].
  destruct (bool_decide_reflect (lang = js "te")) as [->|_]; [by destruct plain_tag_te|].
  by rewrite bool_decide_eq_true_2.
Qed.

Lemma prompt_of_plain lang : plain_tag lang -> exists s, prompt_of tbl lang = table_string s.
Proof.
  intros Hlang. unfold prompt_of, lang_prop.
  destruct (bool_decide (lang = js "en")); [destruct (en tbl); by eexists|].
  destruct (bool_decide (lang = js "hi")); [destruct (hi tbl); by eexists|].
  destruct (bool_decide (lang = js "te")); [destruct (te tbl); by eexists|].
  rewrite bool_decide_eq_false_2 by exact Hlang. by eexists.
Qed.

Hypothesis nonempty : en tbl <> [] /\ hi tbl <> [] /\ te tbl <> [].

Lemma prompt_of_corrective lang :
  plain_tag lang -> prompt_of tbl lang = table_string (corrective_prompt tbl lang).
Proof.
  intros Hlang. destruct nonempty as (He & Hh & Ht).
  unfold prompt_of, corrective_prompt, lang_prop.
  destruct (bool_decide_reflect (lang = js "en")) as [->|Hen].
  { rewrite (bool_decide_eq_false_2 _ js_en_hi), (bool_decide_eq_false_2 _ js_en_te).
    destruct (en tbl); [by destruct He | reflexivity]. }
  destruct (bool_decide_reflect (lang = js "hi")) as [->|Hhi].
  { destruct (hi tbl); [by destruct Hh | reflexivity]. }
  destruct (bool_decide_reflect (lang = js "te")) as [->|Hte].
  { destruct (te tbl); [by destruct Ht | reflexivity]. }
  by rewrite bool_decide_eq_false_2 by exact Hlang.
Qed.

Lemma corrective_prompt_nonempty lang : corrective_prompt tbl lang <> [].
Proof.
  destruct nonempty as (He & Hh & Ht). unfold corrective_prompt.
  destruct (bool_decide _); [exact Hh|]. destruct (bool_decide _); [exact Ht | exact He].
Qed.

(** The prompt of a rejection: the string of the table for a tag that
    names no member of [Object.prototype], the member otherwise. *)
Lemma reject_plain lang :
  plain_tag lang -> reject tbl lang = Rejected (corrective_prompt tbl lang).
Proof. intros Hlang. unfold reject. by rewrite (prompt_of_corrective _ Hlang). Qed.

Lemma reject_inherited lang :
  lang ∈ Object_prototype_names -> reject tbl lang = Rejected_inherited lang.
Proof. intros Hin. unfold reject. by rewrite (prompt_of_inherited _ Hin). Qed.

Lemma reject_string lang prompt :
  reject tbl lang = Rejected prompt -> prompt = corrective_prompt tbl lang.
Proof.
  destruct (decide (lang ∈ Object_prototype_names)) as [Hin|Hlang].
  - by rewrite (reject_inherited _ Hin).
  - rewrite (reject_plain _ Hlang). by intros [= <-].
Qed.
End prompts.

Lemma reject_not_accepted tbl lang v : reject tbl lang <> Accepted v.
Proof. unfold reject. by destruct (prompt_of tbl lang). Qed.

Lemma reject_not_throws tbl lang : reject tbl lang <> Throws.
Proof. unfold reject. by destruct (prompt_of tbl lang). Qed.

Lemma reject_cases tbl lang :
  (exists p, reject tbl lang = Rejected p) \/ (exists m, reject tbl lang = Rejected_inherited m).
Proof. unfold reject. destruct (prompt_of tbl lang); [left | right]; by eexists. Qed.

Lemma reject_plain_string tbl lang member :
  plain_tag lang -> reject tbl lang <> Rejected_inherited member.
Proof.
  intros Hlang. unfold reject. by destruct (prompt_of_plain tbl lang Hlang) as [s ->].
Qed.

Lemma t_phone_nonempty : en t_phone <> [] /\ hi t_phone <> [] /\ te t_phone <> [].
Proof. vm_compute. split; [discriminate | split; discriminate]. Qed.
Lemma t_grade_nonempty : en t_grade <> [] /\ hi t_grade <> [] /\ te t_grade <> [].
Proof. vm_compute. split; [discriminate | split; discriminate]. Qed.
Lemma t_mode_nonempty : en t_mode <> [] /\ hi t_mode <> [] /\ te t_mode <> [].
Proof. vm_compute. split; [discriminate | split; discriminate]. Qed.
Lemma t_area_nonempty : en t_area <> [] /\ hi t_area <> [] /\ te t_area <> [].
Proof. vm_compute. split; [discriminate | split; discriminate]. Qed.
Lemma t_schedule_nonempty : en t_schedule <> [] /\ hi t_schedule <> [] /\ te t_schedule <> [].
Proof. vm_compute. split; [discriminate | split; discriminate]. Qed.

(** ** The branches of [validateUpdate] *)

Lemma validateUpdate_throws key value lang :
  validateUpdate key value lang = Throws <-> ToString value = None.
Proof.
  unfold validateUpdate. destruct (ToString value) as [str|]; [|done].
  split; [|done]. repeat case_match; try discriminate;
    intros Hr; by destruct (reject_not_throws _ _ Hr).
Qed.

Lemma validateUpdate_phone value str lang :
  ToString value = Some str ->
  validateUpdate (js "phone") value lang =
    let d := onlyDigits str in
    if bool_decide (length d = 10%nat) then Accepted d
    else if bool_decide (length d = 12%nat) && startsWith (js "91") d then Accepted (slice 2 d)
    else reject t_phone lang.
Proof. intros H. unfold validateUpdate. by rewrite H. Qed.

Lemma validateUpdate_grade value str lang :
  ToString value = Some str ->
  validateUpdate (js "grade") value lang =
    match parseInt10 (or_else (exec digitsRx str) []) with
    | Some n =>
      if (1 <=? n)%Z && (n <=? 12)%Z then Accepted (decimal (Z.to_N n))
      else reject t_grade lang
    | None => reject t_grade lang
    end.
Proof. intros H. unfold validateUpdate. by rewrite H. Qed.

Lemma validateUpdate_area value str lang :
  ToString value = Some str ->
  validateUpdate (js "area") value lang =
    let s := trim str in
    if test subjectRx s then reject t_area lang
    else if test localityRx s then Accepted s
    else reject t_area lang.
Proof. intros H. unfold validateUpdate. by rewrite H. Qed.

Lemma validateUpdate_schedule value str lang :
  ToString value = Some str ->
  validateUpdate (js "schedule") value lang =
    let s := toLowerCase str in
    if test onlyModeRx s then reject t_schedule lang
    else if test dayRx s || test timeRx s then Accepted (trim str)
    else reject t_schedule lang.
Proof. intros H. unfold validateUpdate. by rewrite H. Qed.

Lemma validateUpdate_mode value str lang :
  ToString value = Some str ->
  validateUpdate (js "mode") value lang =
    let v := toLowerCase str in
    if test homeRx v then Accepted (js "home")
    else if test onlineZoomRx v then Accepted (js "online")
    else reject t_mode lang.
Proof. intros H. unfold validateUpdate. by rewrite H. Qed.

Lemma langHint_of_cases lang :
  langHint_of lang = js "en" \/ langHint_of lang = js "hi" \/ langHint_of lang = js "te".
Proof.
  unfold langHint_of. destruct (bool_decide_reflect (lang = js "hi")) as [->|]; [by right; left|].
  destruct (bool_decide_reflect (lang = js "te")) as [->|]; [by right; right | by left].
Qed.

Lemma plain_tag_langHint lang : plain_tag (langHint_of lang).
Proof.
  destruct (langHint_of_cases lang) as [-> | [-> | ->]];
    [exact plain_tag_en | exact plain_tag_hi | exact plain_tag_te].
Qed.

(** Whatever the key, a rejection with a string carries a non-empty
    prompt, and the validator gives no other rejection to a tag that
    names no member of [Object.prototype]. *)
Lemma rejected_prompt_nonempty key value lang prompt :
  validateUpdate key value lang = Rejected prompt -> prompt <> [].
Proof.
  unfold validateUpdate. destruct (ToString value) as [str|]; [|done].
  destruct (bool_decide (key = js "phone")).
  { repeat case_match; try discriminate; intros Hrej;
      rewrite (reject_string _ t_phone_nonempty _ _ Hrej);
      exact (corrective_prompt_nonempty _ t_phone_nonempty lang). }
  destruct (bool_decide (key = js "grade")).
  { repeat case_match; try discriminate; intros Hrej;
      rewrite (reject_string _ t_grade_nonempty _ _ Hrej);
      exact (corrective_prompt_nonempty _ t_grade_nonempty lang). }
  destruct (bool_decide (key = js "mode")).
  { repeat case_match; try discriminate; intros Hrej;
      rewrite (reject_string _ t_mode_nonempty _ _ Hrej);
      exact (corrective_prompt_nonempty _ t_mode_nonempty lang). }
  destruct (bool_decide (key = js "area")).
  { repeat case_match; try discriminate; intros Hrej;
      rewrite (reject_string _ t_area_nonempty _ _ Hrej);
      exact (corrective_prompt_nonempty _ t_area_nonempty lang). }
  destruct (bool_decide (key = js "schedule")).
  { repeat case_match; try discriminate; intros Hrej;
      rewrite (reject_string _ t_schedule_nonempty _ _ Hrej);
      exact (corrective_prompt_nonempty _ t_schedule_nonempty lang). }
  discriminate.
Qed.

Lemma plain_tag_string_prompt key value lang member :
  plain_tag lang -> validateUpdate key value lang <> Rejected_inherited member.
Proof.
  intros Hlang.
  unfold validateUpdate. repeat case_match; try discriminate; by apply reject_plain_string.
Qed.

(** In a turn the prompt of a rejection is a string. *)
Lemma turn_prompt_is_string key value lang member :
  validateUpdate key value (langHint_of lang) <> Rejected_inherited member.
Proof. apply plain_tag_string_prompt, plain_tag_langHint. Qed.

(** With a tag that names a member of [Object.prototype] the prompt is
    that member; a value on which [String] throws, also inside an
    array, makes the validator throw. *)
Example inherited_tag_prompt :
  validateUpdate (js "phone") (JStr (js "12")) (js "constructor")
  = Rejected_inherited (js "constructor") /\
  validateUpdate (js "budget") (JObj [(js "toString", JStr (js "x"))]) (js "en") = Throws /\
  validateUpdate (js "budget") (JArr [JNum (js "1"); JObj [(js "toString", JNull)]]) (js "en")
  = Throws /\
  validateUpdate (js "budget") (JArr [JNum (js "1"); JNull; JObj []]) (js "en")
  = Accepted (js "1,,[object Object]").
Proof. vm_compute. repeat split; reflexivity. Qed.

(** ** Phone numbers *)

Lemma startsWith_true p s : startsWith p s = true -> exists r, s = p ++ r.
Proof.
  revert s. induction p as [|a p IH]; intros s H; [by exists s|].
  destruct s as [|b s]; [done|]. simpl in H.
  apply andb_true_iff in H as [Hab Hp]. apply N.eqb_eq in Hab as ->.
  destruct (IH _ Hp) as (r & ->). by exists r.
Qed.

Lemma startsWith_app p r : startsWith p (p ++ r) = true.
Proof. induction p as [|a p IH]; [done|]. simpl. by rewrite N.eqb_refl, IH. Qed.

(** C4. The phone validator keeps the digits of the raw value: ten
    digits are accepted as they are, twelve digits that begin with "91"
    are accepted as the ten digits after the prefix, and every other
    value is rejected with the phone prompt in the language of the tag,
    in English for any other tag.  The prompt is stated for the tags
    that name no member of [Object.prototype], those of a turn among
    them. *)
Theorem phone_validation (raw lang : jsstring) :
  let d := digits_of raw in
  (length d = 10%nat -> validateUpdate (js "phone") (JStr raw) lang = Accepted d) /\
  (forall d', d = js "91" ++ d' -> length d' = 10%nat ->
     validateUpdate (js "phone") (JStr raw) lang = Accepted d') /\
  (plain_tag lang ->
   length d <> 10%nat -> ~ (exists d', d = js "91" ++ d' /\ length d' = 10%nat) ->
     validateUpdate (js "phone") (JStr raw) lang = Rejected (corrective_prompt t_phone lang)).
Proof.
  intros d. rewrite (validateUpdate_phone (JStr raw) raw lang eq_refl). cbv zeta.
  rewrite onlyDigits_filter. fold d. repeat split.
  - intros H. by rewrite bool_decide_eq_true_2.
  - intros d' E H. rewrite E.
    rewrite bool_decide_eq_false_2 by (rewrite length_app, H; vm_compute; lia).
    rewrite bool_decide_eq_true_2 by (rewrite length_app, H; vm_compute; lia).
    rewrite startsWith_app. reflexivity.
  - intros Hlang H10 Hno. rewrite bool_decide_eq_false_2 by done.
    destruct (bool_decide_reflect (length d = 12%nat)) as [H12|]; cbn [andb];
      [| by apply reject_plain; [exact t_phone_nonempty|]].
    destruct (startsWith (js "91") d) eqn:Hs;
      [| by apply reject_plain; [exact t_phone_nonempty|]].
    destruct Hno. apply startsWith_true in Hs as (d' & E). exists d'. split; [done|].
    rewrite E, length_app in H12. change (length (js "91")) with 2%nat in H12. lia.
Qed.

Lemma phone_validation_witness :
  (length (digits_of (js "98765 43210")) = 10%nat /\
   validateUpdate (js "phone") (JStr (js "98765 43210")) (js "en")
   = Accepted (digits_of (js "98765 43210"))) /\
  (digits_of (js "+91 98765-43210") = js "91" ++ js "9876543210" /\
   validateUpdate (js "phone") (JStr (js "+91 98765-43210")) (js "hi")
   = Accepted (js "9876543210")) /\
  (length (digits_of (js "12345")) <> 10%nat /\
   validateUpdate (js "phone") (JStr (js "12345")) (js "te")
   = Rejected (corrective_prompt t_phone (js "te"))).
Proof.
  split; [|split].
  - split; [reflexivity|].
    exact (proj1 (phone_validation (js "98765 43210") (js "en")) eq_refl).
  - split; [reflexivity|].
    exact (proj1 (proj2 (phone_validation (js "+91 98765-43210") (js "hi")))
             (js "9876543210") eq_refl eq_refl).
  - split; [vm_compute; lia|].
    apply (proj2 (proj2 (phone_validation (js "12345") (js "te")))).
    + exact plain_tag_te.
    + vm_compute. lia.
    + intros (d' & E & _). vm_compute in E. discriminate.
Defined.
(** ** Grades *)

Lemma is_digit_bounds x : is_digit x = true <-> 48 <= x <= 57.
Proof.
  unfold is_digit, in_ranges, in_range, digit_ranges. simpl.
  rewrite orb_false_r, andb_true_iff, !N.leb_le. done.
Qed.

Lemma is_space_bounds x : is_space x = true -> x <= 32 \/ 160 <= x.
Proof.
  unfold is_space, in_ranges, in_range, space_ranges. simpl.
  rewrite !orb_true_iff, !andb_true_iff, !N.leb_le. lia.
Qed.

Arguments is_digit : simpl never.
Arguments is_space : simpl never.
Arguments is_word : simpl never.
Arguments js : simpl never.

Lemma digit_not_space x : is_digit x = true -> is_space x = false.
Proof.
  intros Hd%is_digit_bounds. destruct (is_space x) eqn:Hs; [|done].
  apply is_space_bounds in Hs. lia.
Qed.

Lemma takeWhile_Forall f s : Forall (fun x => f x = true) (takeWhile f s).
Proof.
  induction s as [|x s IH]; simpl; [constructor|].
  destruct (f x) eqn:Hx; by constructor.
Qed.

Lemma takeWhile_all f s : Forall (fun x => f x = true) s -> takeWhile f s = s.
Proof. induction 1 as [|x s Hx _ IH]; simpl; [done|]. by rewrite Hx, IH. Qed.

Lemma takeWhile_app_all f s t :
  Forall (fun x => f x = true) s -> takeWhile f (s ++ t) = s ++ takeWhile f t.
Proof. induction 1 as [|x s Hx _ IH]; simpl; [done|]. by rewrite Hx, IH. Qed.

Lemma dropWhile_app_all f s t :
  Forall (fun x => f x = true) s -> dropWhile f (s ++ t) = dropWhile f t.
Proof. induction 1 as [|x s Hx _ IH]; simpl; [done|]. by rewrite Hx, IH. Qed.

(** [parseInt] on a run of digits reads all of it. *)
Lemma parseInt10_digits ds :
  Forall (fun x => is_digit x = true) ds ->
  parseInt10 ds = match ds with
                  | [] => None
                  | _ :: _ => Some (Z.of_N (parseDigits ds))
                  end.
Proof.
  intros Hds. destruct ds as [|x ds]; [done|].
  pose proof (Forall_inv Hds) as Hx.
  unfold parseInt10, trimStart. cbn [dropWhile]. rewrite (digit_not_space _ Hx).
  apply is_digit_bounds in Hx as Hb.
  destruct (N.eqb_spec x 45); [lia|]. destruct (N.eqb_spec x 43); [lia|].
  rewrite (takeWhile_all _ _ Hds). reflexivity.
Qed.

Lemma first_digit_run_digits raw : Forall (fun x => is_digit x = true) (first_digit_run raw).
Proof. apply takeWhile_Forall. Qed.

Lemma decimal_small n :
  1 <= n <= 12 ->
  Forall (fun x => is_digit x = true) (decimal n) /\ decimal n <> [] /\
  parseDigits (decimal n) = n.
Proof.
  intros Hn.
  assert (n = 1 \/ n = 2 \/ n = 3 \/ n = 4 \/ n = 5 \/ n = 6 \/ n = 7 \/ n = 8 \/ n = 9 \/
          n = 10 \/ n = 11 \/ n = 12) as H by lia.
  repeat (destruct H as [->|H]); try subst n;
    (split; [vm_compute; repeat constructor | split; [vm_compute; discriminate | reflexivity]]).
Qed.

Lemma first_digit_run_embedded pre ds post :
  Forall (fun x => is_digit x = false) pre ->
  Forall (fun x => is_digit x = true) ds -> ds <> [] ->
  (forall x, head post = Some x -> is_digit x = false) ->
  first_digit_run (pre ++ ds ++ post) = ds.
Proof.
  intros Hpre Hds Hne Hpost. unfold first_digit_run.
  rewrite dropWhile_app_all
    by (eapply Forall_impl; [exact Hpre | by intros x ->]).
  assert (Hd : dropWhile (fun x => negb (is_digit x)) (ds ++ post) = ds ++ post).
  { destruct Hds as [|x ds Hx _]; [done|]. simpl. by rewrite Hx. }
  rewrite Hd, takeWhile_app_all by done.
  destruct post as [|y post]; simpl; [by rewrite app_nil_r|].
  rewrite (Hpost y eq_refl). by rewrite app_nil_r.
Qed.

(** C5 (amended).  The grade validator reads the first maximal run of
    digits of the raw value as a decimal number: the value is accepted,
    normalised to the decimal form of that number, when the number lies
    in [1,12], and rejected with the grade prompt otherwise, also when
    there is no digit.  In particular an integer of [1,12] is accepted
    and is the normalised value when its decimal form is that first
    run: no digit before it and no digit right after it.  The prompt is
    stated for the tags that name no member of [Object.prototype],
    those of a turn among them. *)
Theorem grade_validation (raw lang : jsstring) :
  let run := first_digit_run raw in
  let g := parseDigits run in
  (run <> [] -> 1 <= g <= 12 ->
     validateUpdate (js "grade") (JStr raw) lang = Accepted (decimal g)) /\
  (plain_tag lang -> run = [] \/ g < 1 \/ 12 < g ->
     validateUpdate (js "grade") (JStr raw) lang = Rejected (corrective_prompt t_grade lang)) /\
  (forall pre post n,
     raw = pre ++ decimal n ++ post -> 1 <= n <= 12 ->
     Forall (fun x => is_digit x = false) pre ->
     (forall x, head post = Some x -> is_digit x = false) ->
     validateUpdate (js "grade") (JStr raw) lang = Accepted (decimal n)).
Proof.
  intros run g.
  assert (Hv : validateUpdate (js "grade") (JStr raw) lang =
               match run with
               | [] => reject t_grade lang
               | _ :: _ =>
                 if (1 <=? g) && (g <=? 12) then Accepted (decimal g)
                 else reject t_grade lang
               end).
  { rewrite (validateUpdate_grade (JStr raw) raw lang eq_refl). rewrite exec_digits.
    rewrite (parseInt10_digits _ (first_digit_run_digits raw)).
    fold run. fold g.
    destruct run as [|x r]; [done|].
    rewrite N2Z.id.
    replace (1 <=? Z.of_N g)%Z with (1 <=? g) by (apply eq_true_iff_eq; rewrite N.leb_le, Z.leb_le; lia).
    replace (Z.of_N g <=? 12)%Z with (g <=? 12) by (apply eq_true_iff_eq; rewrite N.leb_le, Z.leb_le; lia).
    done. }
  assert (H1 : run <> [] -> 1 <= g <= 12 ->
               validateUpdate (js "grade") (JStr raw) lang = Accepted (decimal g)).
  { intros Hne [Hlo Hhi]. rewrite Hv. destruct run; [done|].
    apply N.leb_le in Hlo, Hhi. by rewrite Hlo, Hhi. }
  split; [exact H1 | split].
  - intros Hlang H. rewrite Hv, (reject_plain _ t_grade_nonempty _ Hlang).
    destruct run; [done|].
    destruct H as [H|[H|H]]; [done| |].
    + destruct (N.leb_spec 1 g); [lia | done].
    + destruct (N.leb_spec g 12); [lia | by rewrite andb_false_r].
  - intros pre post n E Hn Hpre Hpost.
    destruct (decimal_small n Hn) as (Hds & Hne & Hval).
    assert (Hrun : run = decimal n)
      by (unfold run; rewrite E; by apply first_digit_run_embedded).
    rewrite <- Hval, <- Hrun. apply H1; [by rewrite Hrun|].
    unfold g. rewrite Hrun, Hval. done.
Qed.

Lemma grade_validation_witness :
  (first_digit_run (js "class 07") <> [] /\
   1 <= parseDigits (first_digit_run (js "class 07")) <= 12 /\
   validateUpdate (js "grade") (JStr (js "class 07")) (js "en")
   = Accepted (decimal (parseDigits (first_digit_run (js "class 07"))))) /\
  (12 < parseDigits (first_digit_run (js "13 or 7")) /\
   validateUpdate (js "grade") (JStr (js "13 or 7")) (js "hi")
   = Rejected (corrective_prompt t_grade (js "hi"))) /\
  validateUpdate (js "grade") (JStr (js "grade " ++ decimal 7 ++ js "th")) (js "en")
  = Accepted (decimal 7).
Proof.
  split; [|split].
  - assert (Hne : first_digit_run (js "class 07") <> []) by (vm_compute; discriminate).
    assert (Hg : 1 <= parseDigits (first_digit_run (js "class 07")) <= 12)
      by (vm_compute; split; discriminate).
    split; [exact Hne | split; [exact Hg|]].
    exact (proj1 (grade_validation (js "class 07") (js "en")) Hne Hg).
  - assert (Hg : 12 < parseDigits (first_digit_run (js "13 or 7"))) by reflexivity.
    split; [exact Hg|].
    exact (proj1 (proj2 (grade_validation (js "13 or 7") (js "hi"))) plain_tag_hi
             (or_intror (or_intror Hg))).
  - apply (proj2 (proj2 (grade_validation (js "grade " ++ decimal 7 ++ js "th") (js "en")))
             (js "grade ") (js "th") 7 eq_refl).
    + lia.
    + vm_compute. repeat constructor.
    + intros x [= <-]. reflexivity.
Defined.

(** C5, as the specification states it, fails: "13 or 7" contains the
    integer 7 of [1,12], and the validator, which reads the first run of
    digits "13", rejects it. *)
Lemma grade_embedded_anywhere_fails :
  1 <= 7 <= 12 /\
  validateUpdate (js "grade") (JStr (js "13 or " ++ decimal 7 ++ [])) (js "en")
  = Rejected (en t_grade) /\
  ~ grade_embedded_anywhere.
Proof.
  split; [lia|]. split; [vm_compute; reflexivity|].
  intros H. specialize (H (js "13 or ") [] 7 (js "en")).
  assert (Hr : validateUpdate (js "grade") (JStr (js "13 or " ++ decimal 7 ++ [])) (js "en")
               = Rejected (en t_grade)) by (vm_compute; reflexivity).
  rewrite Hr in H. specialize (H ltac:(lia)). discriminate H.
Qed.

(** ** The effects of a turn *)

Lemma keeps_ret {A} (a : A) : keeps_sessions (ret a).
Proof. done. Qed.

Lemma keeps_bind {A B} (m : M A) (f : A -> M B) :
  keeps_sessions m -> (forall a, keeps_sessions (f a)) -> keeps_sessions (bind m f).
Proof.
  intros Hm Hf w. unfold bind. specialize (Hm w).
  destruct (m w) as [[a|] w1]; simpl in *; [|done]. by rewrite Hf.
Qed.

Lemma keeps_try_catch (m : M unit) : keeps_sessions m -> keeps_sessions (try_catch m).
Proof.
  intros Hm w. unfold try_catch. specialize (Hm w). by destruct (m w) as [[a|] w1].
Qed.

Lemma total_try_catch (m : M unit) : total (try_catch m).
Proof. intros w. unfold try_catch. destruct (m w) as [[a|] w1]; by eexists. Qed.

Lemma keeps_new_Date env : keeps_sessions (new_Date env).
Proof. done. Qed.

Lemma keeps_sheets_call env r : keeps_sessions (sheets_call env r).
Proof. intros w. unfold sheets_call. by destruct (api_ok env _). Qed.

Lemma keeps_appendRow env t values : keeps_sessions (appendRow env t values).
Proof.
  unfold appendRow. destruct (negb _); [apply keeps_ret | apply keeps_sheets_call].
Qed.

Lemma keeps_appendPresales env a b c d : keeps_sessions (appendPresales env a b c d).
Proof.
  apply keeps_bind; [apply keeps_new_Date | intros; apply keeps_appendRow].
Qed.

Lemma keeps_appendChatLog env a b c d e f g h :
  keeps_sessions (appendChatLog env a b c d e f g h).
Proof.
  apply keeps_bind; [apply keeps_new_Date | intros; apply keeps_appendRow].
Qed.

Lemma keeps_updateLeadFixedRow env convId answers :
  keeps_sessions (updateLeadFixedRow env convId answers).
Proof.
  unfold updateLeadFixedRow. destruct (negb _); [apply keeps_ret|].
  apply keeps_bind; [|intros; apply keeps_sheets_call].
  apply keeps_bind; [apply keeps_new_Date | intros; apply keeps_ret].
Qed.

(** What [ensureSession] returns: the answers of the session, empty
    for a new conversation, which is then recorded. *)
Lemma ensureSession_run convId w :
  exists w1, ensureSession convId w = (resolved (default ∅ (SESSIONS w !! convId)), w1) /\
    SESSIONS w1 = <[convId := default ∅ (SESSIONS w !! convId)]> (SESSIONS w) /\
    sheet w1 = sheet w /\ clock_reads w1 = clock_reads w /\ api_calls w1 = api_calls w.
Proof.
  unfold ensureSession, bind, get_world. simpl.
  destruct (SESSIONS w !! convId) as [a|] eqn:E; simpl.
  - exists w. split; [done|]. by rewrite insert_id.
  - eexists. split; [reflexivity|]. done.
Qed.

(** ** The validation loop and the merge *)

Section validation_loop.
Variable lang : jsstring.

Lemma stage_step_accepted acc kv (v : jsstring) :
  validateUpdate kv.1 kv.2 lang = Accepted v ->
  stage_step lang acc kv = (acc.1, set_prop kv.1 v acc.2).
Proof. intros H. unfold stage_step. by rewrite H. Qed.

Lemma stage_step_rejected acc kv (p : jsstring) :
  validateUpdate kv.1 kv.2 lang = Rejected p -> stage_step lang acc kv = (p, acc.2).
Proof. intros H. unfold stage_step. by rewrite H. Qed.

(** Accepted updates leave [badPrompt] as it is. *)
Lemma badPrompt_kept l acc :
  Forall (accepts lang) l -> (foldl (stage_step lang) acc l).1 = acc.1.
Proof.
  intros H. revert acc. induction H as [|kv l [v Hv] _ IH]; intros acc; [done|].
  simpl. rewrite IH. by rewrite (stage_step_accepted _ _ _ Hv).
Qed.

(** The last rejection wins. *)
Lemma badPrompt_last l1 kv l2 (p : jsstring) acc :
  validateUpdate kv.1 kv.2 lang = Rejected p -> Forall (accepts lang) l2 ->
  (foldl (stage_step lang) acc (l1 ++ kv :: l2)).1 = p.
Proof.
  intros Hp H2. rewrite foldl_app. simpl. rewrite (badPrompt_kept _ _ H2).
  by rewrite (stage_step_rejected _ _ _ Hp).
Qed.

Lemma lookup_set_prop (k v : jsstring) (o : gmap jsstring jsstring) (k' : jsstring) :
  set_prop k v o !! k' =
    if bool_decide (k = k' /\ k <> js "__proto__") then Some v else o !! k'.
Proof.
  unfold set_prop. case_bool_decide as Hp.
  - rewrite bool_decide_eq_false_2; [done | tauto].
  - case_bool_decide as Hk.
    + destruct Hk as [-> _]. apply lookup_insert_eq.
    + apply lookup_insert_ne. tauto.
Qed.

(** A staged value was accepted for its key. *)
Lemma staged_accepted l acc (k v : jsstring) :
  (foldl (stage_step lang) acc l).2 !! k = Some v ->
  acc.2 !! k = Some v \/ exists raw, (k, raw) ∈ l /\ validateUpdate k raw lang = Accepted v.
Proof.
  revert acc. induction l as [|[k' raw] l IH]; intros acc H; [by left|].
  simpl in H. apply IH in H as [H|(raw' & Hin & Hv)].
  - unfold stage_step in H. simpl in H.
    destruct (validateUpdate k' raw lang) as [v'|p|m|] eqn:Hv; simpl in H; [|by left..].
    rewrite lookup_set_prop in H. case_bool_decide as Hk; [|by left].
    destruct Hk as [-> _]. injection H as ->. right. exists raw. split; [left | done].
  - right. exists raw'. split; [by right | done].
Qed.

(** A key all of whose proposals are rejected is not staged. *)
Lemma staged_unchanged l acc (k : jsstring) :
  (forall raw, (k, raw) ∈ l -> exists p, validateUpdate k raw lang = Rejected p) ->
  (foldl (stage_step lang) acc l).2 !! k = acc.2 !! k.
Proof.
  revert acc. induction l as [|[k' raw] l IH]; intros acc H; [done|].
  simpl. rewrite IH by (intros raw' Hin; apply H; by right).
  unfold stage_step. simpl.
  destruct (validateUpdate k' raw lang) as [v'|p|m|] eqn:Hv; simpl; [|done..].
  rewrite lookup_set_prop. case_bool_decide as Hk; [|done].
  destruct Hk as [-> _]. destruct (H raw) as [p Hp]; [left|]. congruence.
Qed.

(** The loop runs to its end when the validator returns for every
    proposal, and then computes the fold; it fails otherwise. *)
Lemma validate_loop_returns l acc :
  Forall (returns lang) l -> validate_loop lang l acc = resolved (foldl (stage_step lang) acc l).
Proof.
  intros H. revert acc. induction H as [|kv l Hkv _ IH]; intros acc; [done|].
  cbn [validate_loop foldl]. unfold validate_step, stage_step. unfold returns in Hkv.
  destruct (validateUpdate kv.1 kv.2 lang); [apply IH.. | done].
Qed.

Lemma validate_loop_throws l acc :
  ~ Forall (returns lang) l -> validate_loop lang l acc = rejected.
Proof.
  revert acc. induction l as [|kv l IH]; intros acc H; [by destruct H|].
  cbn [validate_loop]. unfold validate_step.
  destruct (validateUpdate kv.1 kv.2 lang) eqn:E; [apply IH; intros Hl; apply H..| done];
    (constructor; [unfold returns; by rewrite E | done]).
Qed.

Lemma returns_dec l : Forall (returns lang) l \/ ~ Forall (returns lang) l.
Proof.
  induction l as [|kv l [IH|IH]].
  - by left.
  - destruct (validateUpdate kv.1 kv.2 lang) eqn:E;
      [left; constructor; [unfold returns; by rewrite E | done]..|].
    right. intros H. by inversion H.
  - right. intros H. by inversion H.
Qed.

Lemma accepts_returns l : Forall (accepts lang) l -> Forall (returns lang) l.
Proof.
  intros H. eapply Forall_impl; [exact H|]. intros kv [v Hv]. unfold returns. by rewrite Hv.
Qed.
End validation_loop.

Lemma validate_all_returns lang entries :
  Forall (returns lang) entries -> validate_all lang entries = resolved (stage_all lang entries).
Proof. apply validate_loop_returns. Qed.

Lemma validate_all_throws lang entries :
  ~ Forall (returns lang) entries -> validate_all lang entries = rejected.
Proof. apply validate_loop_throws. Qed.

(** A turn either has a plan on all of whose proposals the validator
    returns, or fails. *)
Lemma turn_cases lang planner :
  (exists plan, llmPlan planner = resolved plan /\
     Forall (returns (langHint_of lang)) (Object_entries (updates plan))) \/
  turn_fails lang planner.
Proof.
  unfold turn_fails, proposals. destruct (llmPlan planner) as [plan|]; [|by right; left].
  destruct (returns_dec (langHint_of lang) (Object_entries (updates plan))) as [H|H].
  - left. by exists plan.
  - right. by right.
Qed.


Lemma turn_fails_plan lang planner plan :
  turn_fails lang planner -> llmPlan planner = resolved plan ->
  ~ Forall (returns (langHint_of lang)) (Object_entries (updates plan)).
Proof. intros [H|H] Hplan; [congruence|]. unfold proposals in H. by rewrite Hplan in H. Qed.

(** A turn that fails does so after [ensureSession] and does nothing
    else. *)
Lemma handleTurn_throws env planner convId messages lang page userAgent resStream w :
  turn_fails lang planner ->
  handleTurn env planner convId messages lang page userAgent resStream w
  = (rejected, (ensureSession convId w).2).
Proof.
  intros Hfail. unfold handleTurn.
  destruct (ensureSession_run convId w) as (w1 & E1 & _).
  unfold bind at 1. rewrite E1. cbn [snd].
  destruct Hfail as [Hplan|Hthrow]; [by rewrite Hplan|].
  unfold proposals in Hthrow. destruct (llmPlan planner) as [plan|]; [|done].
  by rewrite (validate_all_throws _ _ Hthrow).
Qed.

(** [Object.assign] overwrites the keys of the source and leaves the
    others. *)
Lemma lookup_Object_assign (target source : gmap jsstring jsstring) (k : jsstring) :
  Object_assign target source !! k =
    if bool_decide (k = js "__proto__") then target !! k
    else match source !! k with
         | Some v => Some v
         | None => target !! k
         end.
Proof.
  unfold Object_assign.
  apply (map_fold_weak_ind
           (fun r (m : gmap jsstring jsstring) =>
              r !! k = if bool_decide (k = js "__proto__") then target !! k
                       else match m !! k with Some v => Some v | None => target !! k end)).
  - rewrite lookup_empty. by destruct (bool_decide _).
  - intros i x m r Hi IH. rewrite lookup_set_prop, IH.
    destruct (bool_decide_reflect (i = k /\ i <> js "__proto__")) as [[-> Hp]|Hik].
    + rewrite bool_decide_eq_false_2 by done. by rewrite lookup_insert_eq.
    + destruct (bool_decide_reflect (k = js "__proto__")) as [Hp|Hp]; [done|].
      rewrite lookup_insert_ne; [done|]. intros ->. tauto.
Qed.

(** The staging set never holds the key ["__proto__"]. *)
Lemma staged_no_proto lang l :
  (stage_all lang l).2 !! js "__proto__" = None.
Proof.
  unfold stage_all.
  assert (forall acc : jsstring * gmap jsstring jsstring,
            acc.2 !! js "__proto__" = None ->
            (foldl (stage_step lang) acc l).2 !! js "__proto__" = None) as H.
  { induction l as [|kv l IH]; intros acc Hacc; [done|]. simpl. apply IH.
    unfold stage_step. destruct (validateUpdate _ _ _); simpl; [|done..].
    rewrite lookup_set_prop. case_bool_decide as Hk; [tauto | done]. }
  apply H. apply lookup_empty.
Qed.

(** C9. Merging the same accepted updates into the answers of a session
    twice gives the same answers as merging them once. *)
Theorem merge_idempotent (answers validated : gmap jsstring jsstring) :
  Object_assign (Object_assign answers validated) validated = Object_assign answers validated.
Proof.
  apply map_eq. intros k. rewrite !lookup_Object_assign.
  case_bool_decide; [done|]. by destruct (validated !! k).
Qed.
(** ** The turn, block by block *)

Lemma seq2_total {A} (m1 m2 : M unit) (k : M A) w :
  total m1 -> total m2 ->
  bind m1 (fun _ => bind m2 (fun _ => k)) w = k (m2 (m1 w).2).2.
Proof.
  intros T1 T2. unfold bind.
  destruct (T1 w) as [a1 E1]. destruct (m1 w) as [o1 w1]. simpl in *. subst o1.
  destruct (T2 w1) as [a2 E2]. destruct (m2 w1) as [o2 w2]. simpl in *. by subst o2.
Qed.

Lemma handleTurn_blocks env planner plan convId messages lang page userAgent resStream w :
  llmPlan planner = resolved plan ->
  Forall (returns (langHint_of lang)) (Object_entries (updates plan)) ->
  let langHint := langHint_of lang in
  let sess := default ∅ (SESSIONS w !! convId) in
  let va := stage_all langHint (Object_entries (updates plan)) in
  let answers := Object_assign sess va.2 in
  let reply := compose_reply va.1 (assistant_text plan) in
  let w0 := {| SESSIONS := <[convId := answers]> (SESSIONS w); sheet := sheet w;
               clock_reads := clock_reads w; api_calls := api_calls w |} in
  let w1 := (mirror_phone env (phoneClean_of answers) w0).2 in
  let w2 := (persist_turn env convId (lastUser_content messages) reply
               (phoneClean_of answers) page userAgent langHint answers w1).2 in
  handleTurn env planner convId messages lang page userAgent resStream w
  = (resolved (if resStream then streamed [data_chunk reply convId; end_of_stream]
               else returned reply convId answers), w2).
Proof.
  intros Hplan Hret langHint sess va answers reply w0 w1 w2.
  unfold handleTurn. rewrite Hplan.
  destruct (ensureSession_run convId w) as (wa & Ea & Sa & Sh & Cl & Ap).
  unfold bind at 1. rewrite Ea. rewrite (validate_all_returns _ _ Hret).
  fold sess. fold langHint.
  assert (Eva : stage_all langHint (Object_entries (updates plan)) = (va.1, va.2))
    by (unfold va; by destruct (stage_all _ _)).
  rewrite Eva.
  unfold bind at 1. unfold get_world at 1. cbv beta iota.
  unfold bind at 1. unfold put_sessions at 1. cbv beta iota.
  fold answers. fold reply.
  change (if bool_decide (length (onlyDigits (answer answers "phone")) = 10%nat)
          then onlyDigits (answer answers "phone") else [])
    with (phoneClean_of answers).
  change (match phoneClean_of answers with
          | [] => ret tt
          | _ :: _ => try_catch (appendPresales env (phoneClean_of answers) (js "phone")
                                   (phoneClean_of answers) (js "chat"))
          end) with (mirror_phone env (phoneClean_of answers)).
  change (try_catch _) with
    (persist_turn env convId (lastUser_content messages) reply (phoneClean_of answers)
       page userAgent langHint answers).
  assert (Ew : {| SESSIONS := <[convId := answers]> (SESSIONS wa); sheet := sheet wa;
                  clock_reads := clock_reads wa; api_calls := api_calls wa |} = w0).
  { unfold w0. rewrite Sa, Sh, Cl, Ap. by rewrite insert_insert_eq. }
  rewrite Ew.
  rewrite seq2_total.
  - fold w1. fold w2. by destruct resStream.
  - unfold mirror_phone. destruct (phoneClean_of answers); [|apply total_try_catch].
    intros ?. by eexists.
  - apply total_try_catch.
Qed.
Lemma keeps_mirror_phone env phoneClean : keeps_sessions (mirror_phone env phoneClean).
Proof.
  unfold mirror_phone. destruct phoneClean; [apply keeps_ret|].
  apply keeps_try_catch, keeps_appendPresales.
Qed.

Lemma keeps_persist_turn env convId lastUser reply phoneClean page userAgent langHint answers :
  keeps_sessions
    (persist_turn env convId lastUser reply phoneClean page userAgent langHint answers).
Proof.
  apply keeps_try_catch. apply keeps_bind; [apply keeps_appendChatLog|]. intros _.
  apply keeps_bind; [apply keeps_appendChatLog|]. intros _. apply keeps_updateLeadFixedRow.
Qed.

(** The store after a turn whose plan was obtained and validated. *)
Lemma handleTurn_sessions env planner plan convId messages lang page userAgent resStream w :
  llmPlan planner = resolved plan ->
  Forall (returns (langHint_of lang)) (Object_entries (updates plan)) ->
  SESSIONS (handleTurn env planner convId messages lang page userAgent resStream w).2
  = <[convId := Object_assign (default ∅ (SESSIONS w !! convId))
                  (stage_all (langHint_of lang) (Object_entries (updates plan))).2]>
      (SESSIONS w).
Proof.
  intros Hplan Hret.
  rewrite (handleTurn_blocks env planner plan convId messages lang page userAgent resStream w
             Hplan Hret).
  cbv zeta. cbn [snd]. rewrite keeps_persist_turn, keeps_mirror_phone. reflexivity.
Qed.

Lemma handleTurn_reply env planner plan convId messages lang page userAgent resStream w :
  llmPlan planner = resolved plan ->
  Forall (returns (langHint_of lang)) (Object_entries (updates plan)) ->
  reply_of (handleTurn env planner convId messages lang page userAgent resStream w).1
  = Some (compose_reply
            (stage_all (langHint_of lang) (Object_entries (updates plan))).1
            (assistant_text plan)).
Proof.
  intros Hplan Hret.
  rewrite (handleTurn_blocks env planner plan convId messages lang page userAgent resStream w
             Hplan Hret).
  cbv zeta. cbn [fst]. by destruct resStream.
Qed.

(** ** C1: the reply *)

Lemma compose_reply_rejected badPrompt assistant_text :
  badPrompt <> [] -> compose_reply badPrompt assistant_text = badPrompt.
Proof. intros H. unfold compose_reply. simpl. by destruct badPrompt. Qed.

Lemma compose_reply_accepted assistant_text :
  compose_reply [] assistant_text
  = if bool_decide (assistant_text = []) then js "Okay." else assistant_text.
Proof. unfold compose_reply. simpl. by destruct assistant_text. Qed.

(** C1. When the plan of a turn was obtained and the validation loop
    runs to its end (the validator returns for every update: a value
    on which [String] throws ends the turn without a reply): if an
    update is rejected and every update after it in the iteration is
    accepted (it is the last rejection), the reply is its corrective
    prompt; if every update is accepted, the reply is the planner's
    [assistant_text], or "Okay." when that text is empty. *)
Theorem reply_composition env planner plan convId messages lang page userAgent resStream w :
  llmPlan planner = resolved plan ->
  let entries := Object_entries (updates plan) in
  let langHint := langHint_of lang in
  let reply := reply_of (handleTurn env planner convId messages lang page userAgent resStream w).1 in
  (forall earlier k raw later prompt,
     entries = earlier ++ (k, raw) :: later ->
     Forall (returns langHint) earlier ->
     validateUpdate k raw langHint = Rejected prompt ->
     Forall (accepts langHint) later ->
     reply = Some prompt) /\
  (Forall (accepts langHint) entries ->
     reply = Some (if bool_decide (assistant_text plan = []) then js "Okay."
                   else assistant_text plan)).
Proof.
  intros Hplan entries langHint reply. unfold reply. split.
  - intros earlier k raw later prompt E Hearlier Hrej Hlater.
    assert (Hret : Forall (returns langHint) entries).
    { rewrite E. apply Forall_app. split; [done|]. constructor.
      - unfold returns. cbn [fst snd]. by rewrite Hrej.
      - by apply accepts_returns. }
    rewrite (handleTurn_reply _ _ _ _ _ _ _ _ _ _ Hplan Hret). fold entries. fold langHint.
    f_equal. unfold stage_all. rewrite E.
    rewrite (badPrompt_last langHint earlier (k, raw) later prompt _ Hrej Hlater).
    apply compose_reply_rejected. by eapply rejected_prompt_nonempty.
  - intros Hall.
    rewrite (handleTurn_reply _ _ _ _ _ _ _ _ _ _ Hplan (accepts_returns _ _ Hall)).
    fold entries. fold langHint.
    f_equal. unfold stage_all. rewrite (badPrompt_kept _ _ _ Hall).
    apply compose_reply_accepted.
Qed.
Lemma llmPlan_neet_phone : llmPlan (content (Some plan_neet_phone)) = resolved normal_neet_phone.
Proof. vm_compute. reflexivity. Qed.

Lemma llmPlan_phone : llmPlan (content (Some plan_phone)) = resolved normal_phone.
Proof. vm_compute. reflexivity. Qed.

Lemma reply_composition_witness :
  reply_of (handleTurn env_ok (content (Some plan_neet_phone)) (js "c1") [] (js "en") [] []
              false boot).1 = Some (en t_area) /\
  reply_of (handleTurn env_ok (content (Some plan_phone)) (js "c1") [] (js "en") [] []
              true boot).1
  = Some (if bool_decide (assistant_text normal_phone = [])
          then js "Okay." else assistant_text normal_phone).
Proof.
  split.
  - apply (proj1 (reply_composition env_ok _ _ (js "c1") [] (js "en") [] [] false boot
                    llmPlan_neet_phone)
             [] (js "area") (JStr (js "NEET")) [(js "phone", JStr (js "+91 98765 43210"))]).
    + reflexivity.
    + constructor.
    + vm_compute. reflexivity.
    + constructor; [|constructor]. exists (js "9876543210"). vm_compute. reflexivity.
  - refine (proj2 (reply_composition env_ok _ _ (js "c1") [] (js "en") [] [] true boot
                     llmPlan_phone) _).
    constructor; [|constructor]. exists (js "9876543210"). vm_compute. reflexivity.
Defined.

(** ** C2: only validated values enter the store *)

Lemma validated_store_empty : validated_store ∅.
Proof. intros c a k v H. by rewrite lookup_empty in H. Qed.

(** The answers of the conversation after a turn, with where each
    value comes from. *)
Lemma handleTurn_store env planner convId messages lang page userAgent resStream w :
  let w' := (handleTurn env planner convId messages lang page userAgent resStream w).2 in
  let entries :=
    match llmPlan planner with
    | resolved plan => Object_entries (updates plan)
    | rejected => []
    end in
  let langHint := langHint_of lang in
  exists answers,
    SESSIONS w' = <[convId := answers]> (SESSIONS w) /\
    (forall k v, answers !! k = Some v ->
       default ∅ (SESSIONS w !! convId) !! k = Some v \/
       exists raw, (k, raw) ∈ entries /\ validateUpdate k raw langHint = Accepted v) /\
    (forall k,
       (forall raw, (k, raw) ∈ entries -> exists p, validateUpdate k raw langHint = Rejected p) ->
       answers !! k = default ∅ (SESSIONS w !! convId) !! k).
Proof.
  intros w' entries langHint.
  unfold w', entries. destruct (turn_cases lang planner) as [(plan & Hplan & Hret)|Hfail].
  - rewrite Hplan. eexists. split; [by apply handleTurn_sessions|]. split.
    + intros k v. rewrite lookup_Object_assign.
      destruct (bool_decide (k = js "__proto__")); [by left|].
      destruct (_ !! k) as [v'|] eqn:Hs; [|by left]. intros [= ->].
      apply staged_accepted in Hs as [Hs|Hs];
        [simpl in Hs; by rewrite lookup_empty in Hs | by right].
    + intros k Hk. rewrite lookup_Object_assign.
      destruct (bool_decide (k = js "__proto__")); [done|].
      unfold stage_all. rewrite (staged_unchanged _ _ _ _ Hk). simpl.
      by rewrite lookup_empty.
  - rewrite (handleTurn_throws _ _ _ _ _ _ _ _ _ Hfail).
    destruct (ensureSession_run convId w) as (w1 & E & S & _).
    rewrite E. cbn [snd]. eexists. split; [exact S|]. split; [by left | done].
Qed.

Lemma handleTurn_provenance env planner convId messages lang page userAgent resStream w :
  let w' := (handleTurn env planner convId messages lang page userAgent resStream w).2 in
  let entries :=
    match llmPlan planner with
    | resolved plan => Object_entries (updates plan)
    | rejected => []
    end in
  let langHint := langHint_of lang in
  forall c a' k v,
    SESSIONS w' !! c = Some a' -> a' !! k = Some v ->
    (exists a, SESSIONS w !! c = Some a /\ a !! k = Some v) \/
    (c = convId /\ exists raw, (k, raw) ∈ entries /\ validateUpdate k raw langHint = Accepted v).
Proof.
  intros w' entries langHint c a' k v Hc Hk.
  destruct (handleTurn_store env planner convId messages lang page userAgent resStream w)
    as (answers & HS & Hprov & _).
  fold w' in HS. rewrite HS in Hc.
  destruct (decide (convId = c)) as [<-|Hne].
  - rewrite lookup_insert_eq in Hc. injection Hc as <-.
    destruct (Hprov k v Hk) as [Hold|Hnew]; [|by right].
    left. destruct (SESSIONS w !! convId) as [a|]; simpl in Hold; [by exists a|].
    by rewrite lookup_empty in Hold.
  - rewrite lookup_insert_ne in Hc by done. left. by exists a'.
Qed.

Lemma handleTurn_keeps_validated env planner convId messages lang page userAgent resStream w :
  validated_store (SESSIONS w) ->
  validated_store
    (SESSIONS (handleTurn env planner convId messages lang page userAgent resStream w).2).
Proof.
  intros Hinv c a' k v Hc Hk.
  destruct (handleTurn_provenance env planner convId messages lang page userAgent resStream w
              c a' k v Hc Hk) as [(a & Ha & Hv)|(_ & raw & _ & Hv)]; [by eapply Hinv|].
  by exists raw, (langHint_of lang).
Qed.

(** C2. After a turn, a value stored for a key was already stored for
    it before the turn or was returned as accepted by [validateUpdate]
    for a proposal of this turn for that key; a key all of whose
    proposals in the turn are rejected (in particular a key without
    proposal) keeps its previous value or absence; the other
    conversations are untouched; and a store that only holds validated
    values still does after the turn. *)
Theorem session_only_validated env planner convId messages lang page userAgent resStream w :
  let w' := (handleTurn env planner convId messages lang page userAgent resStream w).2 in
  let entries :=
    match llmPlan planner with
    | resolved plan => Object_entries (updates plan)
    | rejected => []
    end in
  let langHint := langHint_of lang in
  (forall c a' k v,
     SESSIONS w' !! c = Some a' -> a' !! k = Some v ->
     (exists a, SESSIONS w !! c = Some a /\ a !! k = Some v) \/
     (c = convId /\ exists raw, (k, raw) ∈ entries /\ validateUpdate k raw langHint = Accepted v)) /\
  (forall k,
     (forall raw, (k, raw) ∈ entries -> exists p, validateUpdate k raw langHint = Rejected p) ->
     exists a', SESSIONS w' !! convId = Some a' /\
       a' !! k = default ∅ (SESSIONS w !! convId) !! k) /\
  (forall c, c <> convId -> SESSIONS w' !! c = SESSIONS w !! c) /\
  (validated_store (SESSIONS w) -> validated_store (SESSIONS w')).
Proof.
  intros w' entries langHint.
  destruct (handleTurn_store env planner convId messages lang page userAgent resStream w)
    as (answers & HS & _ & Hframe).
  fold w' in HS. split; [apply handleTurn_provenance|]. split; [|split].
  - intros k Hk. exists answers. rewrite HS, lookup_insert_eq. split; [done | by apply Hframe].
  - intros c Hne. rewrite HS. by apply lookup_insert_ne.
  - apply handleTurn_keeps_validated.
Qed.

Lemma session_only_validated_witness :
  (exists a', SESSIONS (handleTurn env_ok (content (Some plan_neet_phone)) (js "c1") []
                          (js "en") [] [] false boot).2 !! js "c1" = Some a' /\
     a' !! js "area" = default ∅ (SESSIONS boot !! js "c1") !! js "area") /\
  validated_store (SESSIONS (handleTurn env_ok (content (Some plan_neet_phone)) (js "c1") []
                               (js "en") [] [] false boot).2).
Proof.
  pose proof (session_only_validated env_ok (content (Some plan_neet_phone)) (js "c1") []
                (js "en") [] [] false boot) as (_ & Hframe & _ & Hinv).
  split.
  - apply (Hframe (js "area")). intros raw Hin.
    exists (en t_area). vm_compute in Hin.
    apply elem_of_cons in Hin as [Hin|Hin].
    + injection Hin as ->. vm_compute. reflexivity.
    + apply elem_of_cons in Hin as [Hin|Hin]; [discriminate Hin|]. by apply elem_of_nil in Hin.
  - apply Hinv. exact validated_store_empty.
Defined.

(** Over a whole conversation, from the empty store of a fresh process,
    every stored answer was accepted by the validator. *)
Lemma serve_all_validated env ts : validated_store (SESSIONS (serve_all env ts boot)).
Proof.
  unfold serve_all.
  assert (forall w, validated_store (SESSIONS w) ->
            validated_store (SESSIONS (foldl (fun w t => serve env t w) w ts))) as H.
  { induction ts as [|t ts IH]; intros w Hw; [done|]. simpl. apply IH.
    unfold serve. by apply handleTurn_keeps_validated. }
  apply H. exact validated_store_empty.
Qed.
(** ** C7: one turn handler for both delivery paths *)

(** C7. From the same state and for the same planner response, the
    streaming turn leaves the same state as the synchronous turn, and
    the single data chunk it writes before the end of the stream carries
    the reply (and the conversation identifier) that the synchronous
    turn returns; a turn that fails does so on both paths.  The same
    holds for the routes [/chat] and [/chat_stream]. *)
Theorem streaming_same_reply env planner convId messages lang page userAgent w randomUUID req :
  (let sync := handleTurn env planner convId messages lang page userAgent false w in
   let stream := handleTurn env planner convId messages lang page userAgent true w in
   sync.2 = stream.2 /\
   reply_of sync.1 = reply_of stream.1 /\
   match sync.1, stream.1 with
   | resolved (returned reply c answers), resolved (streamed chunks) =>
     chunks = [data_chunk reply c; end_of_stream]
   | rejected, rejected => True
   | _, _ => False
   end) /\
  (let sync := post_chat env planner randomUUID req w in
   let stream := post_chat_stream env planner randomUUID req w in
   sync.2 = stream.2 /\
   x_conv_id sync.1 = x_conv_id stream.1 /\
   match body sync.1, body stream.1 with
   | json_out reply c answers, event_stream chunks =>
     chunks = [data_chunk reply c; end_of_stream]
   | json_chat_failed, event_stream chunks => chunks = [comment_error; end_of_stream]
   | _, _ => False
   end).
Proof.
  split.
  - destruct (turn_cases lang planner) as [(plan & Hplan & Hret)|Hfail].
    + rewrite !(handleTurn_blocks env planner plan convId messages lang page userAgent _ w
                  Hplan Hret).
      done.
    + rewrite !(handleTurn_throws env planner convId messages lang page userAgent _ w Hfail).
      done.
  - unfold post_chat, post_chat_stream.
    destruct (setHeader_ok (convId_of req randomUUID)); cbn [negb]; [|done].
    destruct (turn_cases (req_lang req) planner) as [(plan & Hplan & Hret)|Hfail].
    + rewrite !(handleTurn_blocks env planner plan _ _ _ _ _ _ w Hplan Hret). done.
    + rewrite !(handleTurn_throws env planner _ _ _ _ _ _ w Hfail). done.
Qed.

(** ** C3: planner failures *)









(** A content that parses to [null] also makes the turn fail. *)
Example null_content_fails :
  body (post_chat env_ok (content (Some JNull)) (js "generated-id") empty_request boot).1
  = json_chat_failed.
Proof. vm_compute. reflexivity. Qed.

(** An object with the updates only is of the wrong shape, and is
    answered with "Okay." when the updates are empty; a property of the
    right type is kept. *)
Example updates_only_plan :
  malformed (content (Some (JObj [(js "updates", JObj [])]))) = true /\
  (handleTurn env_ok (content (Some (JObj [(js "updates", JObj [])])))
     (js "c1") [] (js "en") [] [] false boot).1
  = resolved (returned (js "Okay.") (js "c1") ∅) /\
  assistant_text (with_defaults (content (Some (JObj [(js "assistant_text", JStr (js "Hi"))]))))
  = js "Hi".
Proof. vm_compute. repeat split; reflexivity. Qed.

(** An output of the wrong shape whose updates are usable is validated
    like any other: the reply is not "Okay." when an update is
    rejected. *)
Example partial_plan_reply :
  malformed (content (Some (JObj [(js "updates", JObj [(js "area", JStr (js "NEET"))])])))
  = true /\
  reply_of (handleTurn env_ok
              (content (Some (JObj [(js "updates", JObj [(js "area", JStr (js "NEET"))])])))
              (js "c1") [] (js "en") [] [] false boot).1
  = Some (en t_area).
Proof. vm_compute. split; reflexivity. Qed.

(** ** C8: the leads row *)

Lemma or_else_default (o : option jsstring) : or_else o [] = default [] o.
Proof. by destruct o as [[|x r]|]. Qed.

Lemma composeLeadRow_columns env convId answers w :
  (composeLeadRow env convId answers w).1
  = resolved (lead_columns (toISOString env (clock_reads w)) convId answers).
Proof.
  unfold composeLeadRow, bind, new_Date, ret, lead_columns, answer. cbn [fst map].
  by rewrite !or_else_default.
Qed.

Lemma lead_columns_length ts convId answers :
  length (lead_columns ts convId answers) = LEADS_HEADER_COUNT.
Proof. reflexivity. Qed.

Lemma mirror_phone_sheet env phoneClean w convId answers :
  exists written, sheet (mirror_phone env phoneClean w).2 = sheet w ++ written /\
    Forall (turn_request convId answers) written.
Proof.
  unfold mirror_phone. destruct phoneClean as [|x p]; [exists []; by rewrite app_nil_r|].
  unfold try_catch, appendPresales, bind, new_Date, appendRow.
  destruct (negb (hasSheets env)); cbn; [exists []; by rewrite app_nil_r|].
  unfold sheets_call. cbn. destruct (api_ok env _); cbn.
  - eexists [_]. split; [done|]. constructor; [|constructor]. left. by eexists _, _.
  - exists []. by rewrite app_nil_r.
Qed.

Lemma persist_turn_sheet env convId lastUser reply phoneClean page userAgent langHint answers w :
  exists written,
    sheet (persist_turn env convId lastUser reply phoneClean page userAgent langHint answers w).2
    = sheet w ++ written /\
    Forall (turn_request convId answers) written /\
    (hasSheets env = true -> (forall n, api_ok env n = true) ->
     exists ts, last written = Some (values_update_leads (lead_columns ts convId answers))).
Proof.
  unfold persist_turn, try_catch, appendChatLog, updateLeadFixedRow, composeLeadRow, bind,
    new_Date, appendRow, ret.
  destruct (hasSheets env) eqn:Hs; cbn.
  2:{ exists []. rewrite app_nil_r. split; [done|]. split; [constructor | done]. }
  unfold sheets_call. cbn.
  destruct (api_ok env (api_calls w)) eqn:H1; cbn.
  2:{ exists []. rewrite app_nil_r. split; [done|]. split; [constructor|].
      intros _ Hok. rewrite Hok in H1. done. }
  destruct (api_ok env (S (api_calls w))) eqn:H2; cbn.
  2:{ eexists [_]. split; [done|]. split.
      - constructor; [|constructor]. left. by eexists _, _.
      - intros _ Hok. rewrite Hok in H2. done. }
  destruct (api_ok env (S (S (api_calls w)))) eqn:H3; cbn.
  2:{ eexists [_; _]. rewrite <- !app_assoc. split; [done|]. split.
      - constructor; [|constructor; [|constructor]]; left; by eexists _, _.
      - intros _ Hok. rewrite Hok in H3. done. }
  eexists [_; _; _]. rewrite <- !app_assoc. split; [done|]. split.
  - constructor; [|constructor; [|constructor; [|constructor]]];
      [left; by eexists _, _ | left; by eexists _, _ |].
    right. eexists. unfold lead_columns, answer. cbn [map take LEADS_HEADER_COUNT].
    by rewrite !or_else_default.
  - intros _ _. eexists. cbn [last]. unfold lead_columns, answer.
    cbn [map take LEADS_HEADER_COUNT]. by rewrite !or_else_default.
Qed.

(** C8. The requests that a turn sends to the spreadsheet come after
    those already sent; every overwrite of the leads row among them has
    the twelve columns (timestamp, conversation identifier, the ten
    fields, empty when absent) of the answers of the session as they
    stand after the turn; and when the plan was obtained, the
    validation loop ran to its end, and the spreadsheet is configured
    and accepts the calls, the turn ends with that overwrite. *)
Theorem lead_row_reflects_answers env planner convId messages lang page userAgent resStream w :
  let w' := (handleTurn env planner convId messages lang page userAgent resStream w).2 in
  let answers := default ∅ (SESSIONS w' !! convId) in
  (exists written, sheet w' = sheet w ++ written /\
     forall row, values_update_leads row ∈ written ->
       length row = 12%nat /\ exists ts, row = lead_columns ts convId answers) /\
  (forall plan, llmPlan planner = resolved plan ->
     Forall (returns (langHint_of lang)) (Object_entries (updates plan)) ->
     hasSheets env = true -> (forall n, api_ok env n = true) ->
     exists ts, last (sheet w') = Some (values_update_leads (lead_columns ts convId answers))).
Proof.
  intros w' answers.
  destruct (turn_cases lang planner) as [(plan & Hplan & Hret)|Hfail].
  - assert (Ha : answers = Object_assign (default ∅ (SESSIONS w !! convId))
                   (stage_all (langHint_of lang) (Object_entries (updates plan))).2).
    { unfold answers, w'. rewrite (handleTurn_sessions _ _ _ _ _ _ _ _ _ _ Hplan Hret).
      by rewrite lookup_insert_eq. }
    assert (Hw : exists r1 r2,
               sheet w' = sheet w ++ r1 ++ r2 /\
               Forall (turn_request convId answers) (r1 ++ r2) /\
               (hasSheets env = true -> (forall n, api_ok env n = true) ->
                exists ts, last r2 = Some (values_update_leads (lead_columns ts convId answers)))).
    { unfold w'.
      rewrite (handleTurn_blocks env planner plan convId messages lang page userAgent resStream w
                 Hplan Hret).
      cbv zeta. cbn [snd]. rewrite <- Ha.
      match goal with
      | |- context [persist_turn ?e ?c ?l ?r ?p ?pg ?ua ?lh ?a ?w1] =>
        destruct (persist_turn_sheet e c l r p pg ua lh a w1) as (r2 & E2 & F2 & L2)
      end.
      match goal with
      | _ : context [mirror_phone ?e ?p ?w0] |- _ =>
        destruct (mirror_phone_sheet e p w0 convId answers) as (r1 & E1 & F1)
      end.
      exists r1, r2. rewrite E2, E1. cbn [sheet]. rewrite <- app_assoc.
      split; [done|]. split; [by apply Forall_app | done]. }
    destruct Hw as (r1 & r2 & E & F & L). split.
    + exists (r1 ++ r2). split; [done|]. intros row Hin.
      rewrite Forall_forall in F. destruct (F _ Hin) as [(t & values & Hq)|(ts & Hq)]; [done|].
      injection Hq as ->. split; [reflexivity | by exists ts].
    + intros plan' _ _ Hs Hok. destruct (L Hs Hok) as (ts & Hl). exists ts.
      rewrite E, !last_app, Hl. done.
  - split; [|intros plan' Hplan' Hret'; by destruct (turn_fails_plan _ _ _ Hfail Hplan')].
    exists []. rewrite app_nil_r. split; [|by intros row ?%elem_of_nil].
    unfold w'. rewrite (handleTurn_throws _ _ _ _ _ _ _ _ _ Hfail).
    destruct (ensureSession_run convId w) as (w1 & E & _ & Sh & _).
    rewrite E. simpl. by rewrite Sh.
Qed.

Lemma lead_row_reflects_answers_witness :
  exists ts,
    last (sheet (handleTurn env_ok (content (Some plan_neet_phone)) (js "c1") [] (js "en") [] []
                   false boot).2)
    = Some (values_update_leads
              (lead_columns ts (js "c1")
                 (default ∅ (SESSIONS (handleTurn env_ok (content (Some plan_neet_phone))
                                         (js "c1") [] (js "en") [] [] false boot).2
                             !! js "c1")))).
Proof.
  refine (proj2 (lead_row_reflects_answers env_ok (content (Some plan_neet_phone)) (js "c1") []
                   (js "en") [] [] false boot)
            normal_neet_phone llmPlan_neet_phone _ eq_refl (fun _ => eq_refl)).
  repeat constructor; unfold returns; vm_compute; discriminate.
Defined.

(** The row written at the end of that turn: the phone number is the
    only field, the rejected area is absent. *)
Example lead_row_sample :
  last (sheet (handleTurn env_ok (content (Some plan_neet_phone)) (js "c1") [] (js "en") [] []
                 false boot).2)
  = Some (values_update_leads
            [ js "2024-01-01T00:00:00.000Z"; js "c1"; []; js "9876543210"; []; []; []; []; [];
              []; []; [] ]).
Proof. vm_compute. reflexivity. Qed.
(** ** The words that a pattern reads *)

Lemma reads_ext i r (L L' : jsstring -> Prop) :
  (forall w, L w <-> L' w) -> reads i r L -> reads i r L'.
Proof.
  intros E H prev s q. rewrite (H prev s q).
  split; intros (w & rest & ? & ? & ?); exists w, rest; (split; [done|]); (split; [|done]);
    by apply E.
Qed.

Lemma reads_Empty i : reads i Empty (fun w => w = []).
Proof.
  intros prev s q. split.
  - intros H. inversion H; subst. by exists [], s.
  - intros (w & rest & -> & -> & ->). constructor.
Qed.

Lemma reads_Char i c : reads i (Char c) (fun w => exists x, w = [x] /\ char_match i c x = true).
Proof.
  intros prev s q. split.
  - intros H. inversion H; subst. exists [x], rest. split; [done|]. split; [by exists x | done].
  - intros (w & rest & -> & (x & -> & Hx) & ->). by constructor.
Qed.

Lemma reads_Class i neg rs :
  reads i (Class neg rs) (fun w => exists x, w = [x] /\ class_match i neg rs x = true).
Proof.
  intros prev s q. split.
  - intros H. inversion H; subst. exists [x], rest. split; [done|]. split; [by exists x | done].
  - intros (w & rest & -> & (x & -> & Hx) & ->). by constructor.
Qed.

Lemma reads_Seq i r1 r2 (L1 L2 : jsstring -> Prop) :
  reads i r1 L1 -> reads i r2 L2 ->
  reads i (Seq r1 r2) (fun w => exists w1 w2, w = w1 ++ w2 /\ L1 w1 /\ L2 w2).
Proof.
  intros H1 H2 prev s q. split.
  - intros H. inversion H as [| | |? ? ? [p1 s1] ? Ha Hb| | | | | | |]; subst.
    apply H1 in Ha as (w1 & rest1 & -> & Hw1 & [= -> ->]).
    apply H2 in Hb as (w2 & rest2 & -> & Hw2 & ->).
    exists (w1 ++ w2), rest2. rewrite <- app_assoc. split; [done|].
    split; [by exists w1, w2|]. by rewrite before_app.
  - intros (w & rest & -> & (w1 & w2 & -> & Hw1 & Hw2) & ->).
    apply M_Seq with (before prev w1, w2 ++ rest).
    + apply H1. exists w1, (w2 ++ rest). by rewrite <- app_assoc.
    + apply H2. exists w2, rest. by rewrite before_app.
Qed.

Lemma reads_Alt i r1 r2 (L1 L2 : jsstring -> Prop) :
  reads i r1 L1 -> reads i r2 L2 -> reads i (Alt r1 r2) (fun w => L1 w \/ L2 w).
Proof.
  intros H1 H2 prev s q. split.
  - intros H. inversion H as [| | | |? ? ? ? Ha|? ? ? ? Ha| | | | |]; subst.
    + apply H1 in Ha as (w & rest & -> & Hw & ->). exists w, rest. by auto.
    + apply H2 in Ha as (w & rest & -> & Hw & ->). exists w, rest. by auto.
  - intros (w & rest & -> & [Hw|Hw] & ->).
    + apply M_AltL, H1. by exists w, rest.
    + apply M_AltR, H2. by exists w, rest.
Qed.

Lemma reads_Opt i r (L : jsstring -> Prop) :
  reads i r L -> reads i (Opt r) (fun w => L w \/ w = []).
Proof. intros H. apply reads_Alt; [done | apply reads_Empty]. Qed.

Lemma reads_Lit i kw :
  reads i (Lit kw) (fun w => Forall2 (fun c x => char_match i c x = true) kw w).
Proof.
  induction kw as [|c kw IH]; simpl.
  - eapply reads_ext; [|apply reads_Empty]. intros w. split; [intros ->; constructor|].
    by inversion 1.
  - eapply reads_ext; [|apply reads_Seq; [apply reads_Char | apply IH]].
    intros w. split.
    + intros (w1 & w2 & -> & (x & -> & Hx) & Hw2). by constructor.
    + inversion 1 as [|? x ? w2 Hx Hw2]; subst. exists [x], w2. split; [done|].
      split; [by exists x | done].
Qed.

Lemma reads_Star_Class i neg rs :
  reads i (Star (Class neg rs)) (Forall (fun x => class_match i neg rs x = true)).
Proof.
  intros prev s q. split.
  - intros H. remember (Star (Class neg rs)) as r eqn:Er. remember (prev, s) as p eqn:Ep.
    revert prev s Ep.
    induction H as [| | | | | |r p|r p q1 q2 H1 _ Hlt H2 IH| | |]; try discriminate;
      injection Er as ->; intros prev s ->.
    + exists [], s. split; [done|]. split; [constructor | done].
    + inversion H1; subst.
      destruct (IH eq_refl (Some x) rest eq_refl) as (w & rest' & -> & Hw & ->).
      exists (x :: w), rest'. split; [done|]. split; [by constructor|].
      by rewrite <- (before_cons prev).
  - intros (w & rest & -> & Hw & ->). revert prev.
    induction Hw as [|x w Hx _ IH]; intros prev; [constructor|].
    apply M_StarCons with (Some x, w ++ rest).
    + by constructor.
    + simpl. lia.
    + rewrite <- (before_cons prev). apply IH.
Qed.

(** A pattern that reads a language finds its words anywhere. *)
Lemma test_reads rx (L : jsstring -> Prop) s :
  reads (ignoreCase rx) (pattern rx) L ->
  test rx s = true <-> exists pre w post, s = pre ++ w ++ post /\ L w.
Proof.
  intros H. rewrite test_true_iff. split.
  - intros (pre & post & q & -> & Hm). apply H in Hm as (w & rest & -> & Hw & _).
    by exists pre, w, rest.
  - intros (pre & w & post & -> & Hw). exists pre, (w ++ post), (before (last pre) w, post).
    split; [done|]. apply H. by exists w, post.
Qed.

(** Case-insensitive literals. *)
Lemma char_match_ci c x : char_match true c x = true <-> to_upper x = to_upper c.
Proof. unfold char_match. rewrite N.eqb_eq. split; congruence. Qed.

Lemma Forall2_ci kw w :
  Forall2 (fun c x => char_match true c x = true) kw w <-> same_ignoring_case w kw.
Proof.
  unfold same_ignoring_case. split.
  - induction 1 as [|c x kw w Hc _ IH]; [done|]. simpl. apply char_match_ci in Hc. congruence.
  - revert w. induction kw as [|c kw IH]; intros [|x w] E; try discriminate; [constructor|].
    simpl in E. injection E as Ex Ew. constructor; [by apply char_match_ci | by apply IH].
Qed.

Lemma Forall2_exact kw w :
  Forall2 (fun c x => char_match false c x = true) kw w <-> w = kw.
Proof.
  split.
  - induction 1 as [|c x kw w Hc _ IH]; [done|]. apply N.eqb_eq in Hc. congruence.
  - intros ->. induction kw; constructor; [apply N.eqb_refl | done].
Qed.

(** Alternatives. *)
Lemma Matches_Alts i r0 rs p q :
  Matches i (Alts r0 rs) p q <-> exists r, In r (r0 :: rs) /\ Matches i r p q.
Proof.
  revert r0. induction rs as [|r1 rs IH]; intros r0; simpl.
  - split; [intros H; exists r0; by auto | intros (r & [<-|[]] & H); done].
  - split.
    + intros H. inversion H; subst; [exists r0; by auto|].
      match goal with Hm : Matches _ (Alts _ _) _ _ |- _ => apply IH in Hm as (r & Hin & Hm) end.
      exists r. split; [by right | done].
    + intros (r & [<-|Hin] & H); [by apply M_AltL|]. apply M_AltR, IH. by exists r.
Qed.
(** ** C10: subject keywords in an area *)

Ltac prove_In := vm_compute; repeat (first [left; reflexivity | right]).

Lemma is_letter_bounds x : is_letter x = true <-> 65 <= x <= 90 \/ 97 <= x <= 122.
Proof.
  unfold is_letter, in_ranges, in_range, letter_ranges. simpl.
  rewrite orb_false_r, orb_true_iff, !andb_true_iff, !N.leb_le. done.
Qed.

Lemma to_upper_letter x c : to_upper x = to_upper c -> is_letter c = true -> is_letter x = true.
Proof.
  rewrite !is_letter_bounds. unfold to_upper.
  destruct (N.leb_spec 97 x), (N.leb_spec x 122), (N.leb_spec 97 c), (N.leb_spec c 122);
    simpl; lia.
Qed.

Lemma letter_not_space x : is_letter x = true -> is_space x = false.
Proof.
  intros Hl%is_letter_bounds. destruct (is_space x) eqn:Hs; [|done].
  apply is_space_bounds in Hs. lia.
Qed.

Lemma same_ignoring_case_letters w kw :
  same_ignoring_case w kw -> forallb is_letter kw = true ->
  Forall (fun x => is_space x = false) w.
Proof.
  unfold same_ignoring_case. revert w.
  induction kw as [|c kw IH]; intros [|x w] E Hl; try discriminate; [constructor|].
  simpl in E, Hl. injection E as Ex Ew. apply andb_true_iff in Hl as [Hc Hl].
  constructor; [|by apply IH]. apply letter_not_space. by eapply to_upper_letter.
Qed.

Lemma same_ignoring_case_length w kw : same_ignoring_case w kw -> length w = length kw.
Proof. intros E. apply (f_equal length) in E. by rewrite !length_map in E. Qed.

(** Trimming keeps an occurrence of a word that neither starts nor ends
    with white space. *)
Lemma dropWhile_occurs w s :
  occurs_in w s -> (forall x, head w = Some x -> is_space x = false) -> w <> [] ->
  occurs_in w (dropWhile is_space s).
Proof.
  intros (pre & post & ->) Hx Hne. induction pre as [|y pre IH].
  - destruct w as [|x w]; [done|]. simpl. rewrite (Hx x eq_refl). by exists [], post.
  - simpl. destruct (is_space y); [done|]. by exists (y :: pre), post.
Qed.

Lemma occurs_in_rev w s : occurs_in w s -> occurs_in (rev w) (rev s).
Proof.
  intros (pre & post & ->). exists (rev post), (rev pre).
  by rewrite !rev_app_distr, <- app_assoc.
Qed.

Lemma trim_occurs w s :
  occurs_in w s -> Forall (fun x => is_space x = false) w -> w <> [] -> occurs_in w (trim s).
Proof.
  intros Hocc Hw Hne. unfold trim, trimStart, trimEnd.
  rewrite <- (rev_involutive w). apply occurs_in_rev. apply dropWhile_occurs.
  - apply occurs_in_rev. apply dropWhile_occurs; [done| |done].
    intros x Hx. destruct w as [|x' w]; [done|]. injection Hx as ->. by inversion Hw.
  - intros x Hx. rewrite Forall_forall in Hw. apply Hw.
    destruct (rev w) as [|x' r] eqn:Er; [done|]. injection Hx as ->.
    apply list_elem_of_In, in_rev. rewrite Er. by left.
  - intros Er. apply Hne. by rewrite <- (rev_involutive w), Er.
Qed.

(** A keyword that ends with a shorter one brings an occurrence of the
    shorter one. *)
Lemma occurs_ignoring_case_suffix a core s :
  occurs_ignoring_case (a ++ core) s -> occurs_ignoring_case core s.
Proof.
  intros (w & E & pre & post & ->). unfold same_ignoring_case in E.
  rewrite map_app in E. apply map_eq_app in E as (w1 & w2 & -> & _ & E2).
  exists w2. split; [done|]. exists (pre ++ w1), post. by rewrite <- !app_assoc.
Qed.

Lemma keyword_core kw :
  kw ∈ subject_keywords -> exists a core, core ∈ subject_cores /\ kw = a ++ core.
Proof.
  intros H. apply list_elem_of_In in H.
  assert (Hin : forall c, In c subject_cores -> c ∈ subject_cores)
    by (intros c; apply list_elem_of_In).
  unfold subject_keywords in H. cbn [map In] in H.
  repeat (destruct H as [<-|H]); [..|done].
  - exists (js "iit-"), (js "jee"). split; [apply Hin; prove_In | reflexivity].
  - exists (js "iit "), (js "jee"). split; [apply Hin; prove_In | reflexivity].
  - exists (js "iit"), (js "jee"). split; [apply Hin; prove_In | reflexivity].
  - exists [], (js "jee"). split; [apply Hin; prove_In | reflexivity].
  - exists [], (js "neet"). split; [apply Hin; prove_In | reflexivity].
  - exists [], (js "sat"). split; [apply Hin; prove_In | reflexivity].
  - exists (js "iit-"), (js "foundation"). split; [apply Hin; prove_In | reflexivity].
  - exists (js "iit "), (js "foundation"). split; [apply Hin; prove_In | reflexivity].
  - exists (js "iit"), (js "foundation"). split; [apply Hin; prove_In | reflexivity].
  - exists [], (js "foundation"). split; [apply Hin; prove_In | reflexivity].
  - exists [], (js "ntse"). split; [apply Hin; prove_In | reflexivity].
  - exists [], (js "olympiad"). split; [apply Hin; prove_In | reflexivity].
  - exists [], (js "cbse"). split; [apply Hin; prove_In | reflexivity].
  - exists [], (js "icse"). split; [apply Hin; prove_In | reflexivity].
  - exists [], (js "ib"). split; [apply Hin; prove_In | reflexivity].
  - exists [], (js "school"). split; [apply Hin; prove_In | reflexivity].
Qed.

Lemma subject_cores_letters core :
  core ∈ subject_cores -> forallb is_letter core = true /\ core <> [].
Proof.
  intros H. apply list_elem_of_In in H. unfold subject_cores in H. cbn [map In] in H.
  repeat (destruct H as [<-|H]); [..|done]; (split; [vm_compute; reflexivity | vm_compute; discriminate]).
Qed.

(** The shortest keywords are alternatives of [subjectRx]. *)
Lemma subject_core_alternative core p q :
  core ∈ subject_cores -> Matches true (Lit core) p q -> Matches true (pattern subjectRx) p q.
Proof.
  intros H Hm. unfold subjectRx. cbn [pattern]. apply Matches_Alts.
  exists (Lit core). split; [|done]. clear Hm.
  apply list_elem_of_In in H. unfold subject_cores in H. cbn [map In] in H.
  repeat (destruct H as [<-|H]); [..|done]; prove_In.
Qed.

Lemma subjectRx_finds core s :
  core ∈ subject_cores -> occurs_ignoring_case core s -> test subjectRx s = true.
Proof.
  intros Hcore (w & E & pre & post & ->). apply test_true_iff.
  exists pre, (w ++ post), (before (last pre) w, post). split; [done|].
  apply (subject_core_alternative core); [done|]. apply reads_Lit.
  exists w, post. split; [done|]. split; [by apply Forall2_ci | done].
Qed.

(** C10. The subject guard of the area validator is an unanchored,
    case-insensitive substring match: a raw value in which a subject
    keyword occurs anywhere, in any mix of cases, also inside a longer
    word, is rejected, whatever the tag (with a string as prompt, or
    with the member of [Object.prototype] that the tag names), and the
    prompt is the area prompt for a tag that names no such member,
    those of a turn among them. *)
Theorem area_rejects_subject_keywords (kw raw lang : jsstring) :
  kw ∈ subject_keywords -> occurs_ignoring_case kw raw ->
  ((exists p, validateUpdate (js "area") (JStr raw) lang = Rejected p) \/
   (exists m, validateUpdate (js "area") (JStr raw) lang = Rejected_inherited m)) /\
  (plain_tag lang ->
   validateUpdate (js "area") (JStr raw) lang = Rejected (corrective_prompt t_area lang)).
Proof.
  intros Hkw Hocc. destruct (keyword_core kw Hkw) as (a & core & Hcore & ->).
  apply occurs_ignoring_case_suffix in Hocc.
  destruct (subject_cores_letters core Hcore) as [Hl Hne].
  assert (Ht : test subjectRx (trim raw) = true).
  { destruct Hocc as (w & E & Hw). apply (subjectRx_finds core); [done|].
    exists w. split; [done|]. apply trim_occurs; [done| |].
    - by eapply same_ignoring_case_letters.
    - apply same_ignoring_case_length in E. destruct w; [|done].
      destruct core; [done | discriminate]. }
  rewrite (validateUpdate_area (JStr raw) raw lang eq_refl). cbv zeta. rewrite Ht. split.
  - apply reject_cases.
  - intros Hlang. apply reject_plain; [exact t_area_nonempty | exact Hlang].
Qed.

Lemma area_rejects_subject_keywords_witness :
  validateUpdate (js "area") (JStr (js "Gachibowli")) (js "en")
  = Rejected (corrective_prompt t_area (js "en")) /\
  validateUpdate (js "area") (JStr (js "Satellite Township")) (js "te")
  = Rejected (corrective_prompt t_area (js "te")) /\
  validateUpdate (js "area") (JStr (js "near the high school")) (js "hi")
  = Rejected (corrective_prompt t_area (js "hi")).
Proof.
  split; [|split].
  - refine (proj2 (area_rejects_subject_keywords (js "ib") (js "Gachibowli") (js "en") _ _)
              plain_tag_en).
    + apply list_elem_of_In. prove_In.
    + exists (js "ib"). split; [reflexivity|]. exists (js "Gach"), (js "owli"). reflexivity.
  - refine (proj2 (area_rejects_subject_keywords (js "sat") (js "Satellite Township") (js "te")
                     _ _) plain_tag_te).
    + apply list_elem_of_In. prove_In.
    + exists (js "Sat"). split; [reflexivity|]. exists [], (js "ellite Township"). reflexivity.
  - refine (proj2 (area_rejects_subject_keywords (js "school") (js "near the high school")
                     (js "hi") _ _) plain_tag_hi).
    + apply list_elem_of_In. prove_In.
    + exists (js "school"). split; [reflexivity|]. exists (js "near the high "), []. reflexivity.
Defined.
(** ** C6: schedules *)

(** Under the [i] flag a class without letters matches as without it. *)
Lemma class_match_no_letters neg rs x :
  (forall y, in_ranges rs y = true -> is_letter y = false) ->
  class_match true neg rs x = class_match false neg rs x.
Proof.
  intros Hrs. unfold class_match. f_equal. rewrite andb_true_l, andb_false_l, orb_false_r.
  destruct (in_ranges rs x) eqn:Hx; [done|]. simpl.
  assert (Hup : in_ranges rs (to_upper x) = false).
  { destruct (in_ranges rs (to_upper x)) eqn:Hu; [|done].
    apply Hrs in Hu as Hl. unfold to_upper in *.
    destruct (N.leb_spec 97 x), (N.leb_spec x 122); simpl in *; try congruence.
    assert (is_letter (x - 32) = true) by (apply is_letter_bounds; lia). congruence. }
  assert (Hlo : in_ranges rs (to_lower x) = false).
  { destruct (in_ranges rs (to_lower x)) eqn:Hu; [|done].
    apply Hrs in Hu as Hl. unfold to_lower in *.
    destruct (N.leb_spec 65 x), (N.leb_spec x 90); simpl in *; try congruence.
    assert (is_letter (x + 32) = true) by (apply is_letter_bounds; lia). congruence. }
  by rewrite Hup, Hlo.
Qed.

Lemma class_match_digit_ci x : class_match true false digit_ranges x = is_digit x.
Proof.
  rewrite class_match_no_letters; [apply class_match_digit|].
  intros y Hy%is_digit_bounds. destruct (is_letter y) eqn:Hl; [|done].
  apply is_letter_bounds in Hl. lia.
Qed.

Lemma class_match_space_ci x : class_match true false space_ranges x = is_space x.
Proof.
  rewrite class_match_no_letters.
  - unfold class_match. simpl. by rewrite orb_false_r.
  - intros y Hy. destruct (is_letter y) eqn:Hl; [|done].
    apply is_letter_bounds in Hl. apply (is_space_bounds y) in Hy. lia.
Qed.

Lemma reads_Digit : reads true Digit (fun w => exists x, w = [x] /\ is_digit x = true).
Proof.
  eapply reads_ext; [|apply reads_Class]. intros w.
  split; intros (x & -> & Hx); exists x; (split; [done|]); by rewrite class_match_digit_ci in *.
Qed.

Lemma reads_hour : reads true (Between 1 2 Digit) is_hour.
Proof.
  eapply reads_ext;
    [|apply reads_Seq;
       [apply reads_Seq; [apply reads_Digit | apply reads_Empty]
       |apply reads_Opt, reads_Seq; [apply reads_Digit | apply reads_Empty]]].
  intros w. unfold is_hour, all_digits. split.
  - intros (w1 & w2 & -> & (a & b & -> & (x & -> & Hx) & ->) & Hw2).
    destruct Hw2 as [(c & d & -> & (y & -> & Hy) & ->)| ->]; simpl.
    + split; [by right | by repeat constructor].
    + split; [by left | by repeat constructor].
  - intros [Hlen Hd]. destruct w as [|x [|y [|z w]]]; simpl in Hlen; try lia.
    + exists [x], []. split; [done|]. split; [|by right].
      exists [x], []. split; [done|]. split; [|done]. exists x. split; [done|]. by inversion Hd.
    + exists [x], [y]. split; [done|]. inversion Hd as [|? ? Hx Hd']; subst.
      inversion Hd' as [|? ? Hy _]; subst. split.
      * exists [x], []. split; [done|]. split; [by exists x | done].
      * left. exists [y], []. split; [done|]. split; [by exists y | done].
Qed.

Lemma reads_minutes :
  reads true (Opt (Seq (Char 58) (Repeat 2 Digit))) is_minutes.
Proof.
  eapply reads_ext;
    [|apply reads_Opt, reads_Seq;
       [apply reads_Char
       |apply reads_Seq; [apply reads_Digit
                         |apply reads_Seq; [apply reads_Digit | apply reads_Empty]]]].
  intros w. unfold is_minutes, all_digits. split.
  - intros [(w1 & w2 & -> & (c & -> & Hc) & (a & b & -> & (x & -> & Hx)
                                              & (e & f & -> & (y & -> & Hy) & ->)))| ->];
      [|by left].
    right. apply char_match_ci in Hc. exists [x; y]. simpl. split.
    + f_equal. unfold to_upper in Hc.
      destruct (N.leb_spec 97 c), (N.leb_spec c 122); simpl in Hc; lia.
    + split; [done | by repeat constructor].
  - intros [->|(d & -> & Hlen & Hd)]; [by right|]. left.
    destruct d as [|x [|y [|z d]]]; simpl in Hlen; try lia.
    inversion Hd as [|? ? Hx Hd']; subst. inversion Hd' as [|? ? Hy _]; subst.
    exists [58], [x; y]. split; [done|]. split; [exists 58; by split|].
    exists [x], [y]. split; [done|]. split; [by exists x|].
    exists [y], []. split; [done|]. split; [by exists y | done].
Qed.

Lemma reads_spaces : reads true (Star Space) (Forall (fun x => is_space x = true)).
Proof.
  eapply reads_ext; [|apply reads_Star_Class]. intros w.
  split; intros H; (eapply Forall_impl; [exact H|]); intros x Hx; cbv beta in *.
  - by rewrite class_match_space_ci in Hx.
  - by rewrite class_match_space_ci.
Qed.

Lemma reads_marker :
  reads true (Opt (Alt (Lit (js "am")) (Lit (js "pm")))) is_marker.
Proof.
  eapply reads_ext; [|apply reads_Opt, reads_Alt; apply reads_Lit].
  intros w. unfold is_marker. rewrite !Forall2_ci. tauto.
Qed.

Lemma reads_time_of_day :
  reads true
    (Seq (Between 1 2 Digit)
       (Seq (Opt (Seq (Char 58) (Repeat 2 Digit)))
          (Seq (Star Space) (Opt (Alt (Lit (js "am")) (Lit (js "pm")))))))
    time_of_day.
Proof.
  eapply reads_ext;
    [|apply reads_Seq; [apply reads_hour
       |apply reads_Seq; [apply reads_minutes
          |apply reads_Seq; [apply reads_spaces | apply reads_marker]]]].
  intros w. unfold time_of_day. split.
  - intros (h & w1 & -> & Hh & m & w2 & -> & Hm & sp & ap & -> & Hsp & Hap).
    by exists h, m, sp, ap.
  - intros (h & m & sp & ap & -> & Hh & Hm & Hsp & Hap).
    exists h, (m ++ sp ++ ap). split; [done|]. split; [done|].
    exists m, (sp ++ ap). split; [done|]. split; [done|]. by exists sp, ap.
Qed.

Lemma Matches_Seq_assoc i r1 r2 r3 p q :
  Matches i (Seq r1 (Seq r2 r3)) p q <-> Matches i (Seq (Seq r1 r2) r3) p q.
Proof.
  split; intros H.
  - inversion H as [| | |? ? ? p1 ? H1 H23| | | | | | |]; subst.
    inversion H23 as [| | |? ? ? p2 ? H2 H3| | | | | | |]; subst.
    eapply M_Seq; [eapply M_Seq|]; eassumption.
  - inversion H as [| | |? ? ? p2 ? H12 H3| | | | | | |]; subst.
    inversion H12 as [| | |? ? ? p1 ? H1 H2| | | | | | |]; subst.
    eapply M_Seq; [|eapply M_Seq]; eassumption.
Qed.

Lemma Matches_Seq_cong i r1 r2 r2' p q :
  (forall p' q', Matches i r2 p' q' <-> Matches i r2' p' q') ->
  Matches i (Seq r1 r2) p q <-> Matches i (Seq r1 r2') p q.
Proof.
  intros E. split; intros H;
    inversion H as [| | |? ? ? p1 ? H1 H2| | | | | | |]; subst;
    (eapply M_Seq; [eassumption | by apply E]).
Qed.

Lemma last_app_before (pre w : jsstring) : last (pre ++ w) = before (last pre) w.
Proof. unfold before. by rewrite last_app. Qed.

(** [timeRx] finds a time of day between two word boundaries. *)
Lemma timeRx_finds s : test timeRx s = true <-> has_time_of_day s.
Proof.
  rewrite test_true_iff. unfold timeRx, has_time_of_day, word_boundary. cbn [pattern ignoreCase].
  set (H := Between 1 2 Digit). set (Mi := Opt (Seq (Char 58) (Repeat 2 Digit))).
  set (Sp := Star Space). set (Ap := Opt (Alt (Lit (js "am")) (Lit (js "pm")))).
  assert (Eshape : forall p q,
    Matches true (Seq WordBoundary (Seq H (Seq Mi (Seq Sp (Seq Ap WordBoundary))))) p q <->
    Matches true (Seq WordBoundary (Seq (Seq H (Seq Mi (Seq Sp Ap))) WordBoundary)) p q).
  { intros p q. apply Matches_Seq_cong. intros p' q'.
    rewrite <- Matches_Seq_assoc. apply Matches_Seq_cong. intros p2 q2.
    rewrite <- Matches_Seq_assoc. apply Matches_Seq_cong. intros p3 q3.
    by rewrite <- Matches_Seq_assoc. }
  split.
  - intros (pre & post & q & -> & Hm). apply Eshape in Hm.
    inversion Hm as [| | |? ? ? p1 ? Hb1 Hrest| | | | | | |]; subst.
    inversion Hb1 as [| | | | | | | | | |? Hwb1]; subst.
    inversion Hrest as [| | |? ? ? p2 ? Ht Hb2| | | | | | |]; subst.
    apply reads_time_of_day in Ht as (w & rest & -> & Hw & ->).
    inversion Hb2 as [| | | | | | | | | |? Hwb2]; subst.
    exists pre, w, rest. split; [done|]. split; [done|]. split; [done|].
    by rewrite last_app_before.
  - intros (pre & w & post & -> & Hw & Hwb1 & Hwb2).
    exists pre, (w ++ post), (before (last pre) w, post). split; [done|].
    apply Eshape. eapply M_Seq; [by apply M_WordBoundary|].
    eapply M_Seq; [apply reads_time_of_day; by exists w, post|].
    apply M_WordBoundary. by rewrite <- last_app_before.
Qed.
(** [dayRx] finds a weekday abbreviation in any mix of cases. *)
Lemma dayRx_finds s : test dayRx s = true <-> mentions_weekday s.
Proof.
  rewrite test_true_iff. unfold dayRx, mentions_weekday. cbn [pattern ignoreCase]. split.
  - intros (pre & post & q & -> & Hm). apply Matches_Alts in Hm as (r & Hin & Hm).
    assert (Hd : exists d, d ∈ weekdays /\ r = Lit d).
    { cbn [In] in Hin. repeat (destruct Hin as [<-|Hin]); [..|done];
        (eexists; split; [|reflexivity]; apply list_elem_of_In; prove_In). }
    destruct Hd as (d & Hd & ->). exists d. split; [done|].
    apply reads_Lit in Hm as (w & rest & -> & Hw%Forall2_ci & _).
    exists w. split; [done|]. by exists pre, rest.
  - intros (d & Hd & w & Hw & pre & post & ->).
    exists pre, (w ++ post), (before (last pre) w, post). split; [done|].
    apply Matches_Alts. exists (Lit d). split.
    + apply list_elem_of_In in Hd. unfold weekdays in Hd. cbn [map In] in Hd.
      repeat (destruct Hd as [<-|Hd]); [..|done]; prove_In.
    + apply reads_Lit. exists w, post. split; [done|]. split; [by apply Forall2_ci | done].
Qed.

(** The mode guard matches the whole value. *)
Lemma onlyModeRx_finds s : test onlyModeRx s = true <-> s = js "online" \/ s = js "home".
Proof.
  rewrite test_true_iff. unfold onlyModeRx. cbn [pattern ignoreCase].
  pose proof (reads_Alt false _ _ _ _ (reads_Lit false (js "online")) (reads_Lit false (js "home")))
    as Hr.
  split.
  - intros (pre & post & q & -> & Hm).
    inversion Hm as [| | |? ? ? p1 ? Hb Hrest| | | | | | |]; subst.
    inversion Hb as [| | | | | | | |rest Hp|  |]; subst.
    inversion Hrest as [| | |? ? ? p2 ? Ha He| | | | | | |]; subst.
    apply Hr in Ha as (w & rest' & -> & Hw & ->).
    inversion He; subst. rewrite app_nil_r.
    assert (pre = []) as -> by (destruct pre using rev_ind; [done | by rewrite last_snoc in *]).
    simpl. rewrite !Forall2_exact in Hw. done.
  - intros Hs. exists [], s, (before None s, []). split; [done|].
    eapply M_Seq; [apply M_Bol|]. eapply M_Seq; [|apply M_Eol].
    apply Hr. exists s, []. rewrite app_nil_r. split; [done|]. split; [|done].
    rewrite !Forall2_exact. done.
Qed.

(** C6 (amended).  The schedule validator rejects a raw value whose
    lowercase form is exactly "online" or "home"; otherwise it accepts
    the value, normalised to the trimmed original, when its lowercase
    form contains a weekday abbreviation or a time of day (an hour of
    one or two digits, optional ":" and two digits, optional white
    space, optional am or pm) that begins and ends at a word boundary;
    otherwise it rejects it with the schedule prompt.  The prompt is
    stated for the tags that name no member of [Object.prototype],
    those of a turn among them. *)
Theorem schedule_validation (raw lang : jsstring) :
  let s := toLowerCase raw in
  (plain_tag lang -> s = js "online" \/ s = js "home" ->
     validateUpdate (js "schedule") (JStr raw) lang
     = Rejected (corrective_prompt t_schedule lang)) /\
  (s <> js "online" -> s <> js "home" -> mentions_weekday s \/ has_time_of_day s ->
     validateUpdate (js "schedule") (JStr raw) lang = Accepted (trim raw)) /\
  (plain_tag lang -> ~ mentions_weekday s -> ~ has_time_of_day s ->
     validateUpdate (js "schedule") (JStr raw) lang
     = Rejected (corrective_prompt t_schedule lang)).
Proof.
  intros s. rewrite (validateUpdate_schedule (JStr raw) raw lang eq_refl). cbv zeta. fold s.
  pose proof (reject_plain t_schedule t_schedule_nonempty lang) as Hr.
  pose proof (onlyModeRx_finds s) as Hmode. pose proof (dayRx_finds s) as Hday.
  pose proof (timeRx_finds s) as Htime.
  destruct (test onlyModeRx s), (test dayRx s), (test timeRx s); simpl;
    (split; [|split]); try done; intros; try (by apply Hr); exfalso;
    repeat match goal with
           | H : _ <-> _ |- _ => destruct H
           end; intuition (auto; discriminate).
Qed.
Lemma schedule_validation_witness :
  validateUpdate (js "schedule") (JStr (js "Online")) (js "en")
  = Rejected (corrective_prompt t_schedule (js "en")) /\
  validateUpdate (js "schedule") (JStr (js " Mon-Fri 6-7pm ")) (js "en")
  = Accepted (trim (js " Mon-Fri 6-7pm ")) /\
  validateUpdate (js "schedule") (JStr (js "after 5:30 PM")) (js "hi")
  = Accepted (trim (js "after 5:30 PM")) /\
  validateUpdate (js "schedule") (JStr (js "sometime")) (js "te")
  = Rejected (corrective_prompt t_schedule (js "te")).
Proof.
  split; [|split; [|split]].
  - apply (proj1 (schedule_validation (js "Online") (js "en"))); [exact plain_tag_en|].
    left. reflexivity.
  - apply (proj1 (proj2 (schedule_validation (js " Mon-Fri 6-7pm ") (js "en")))).
    + vm_compute. discriminate.
    + vm_compute. discriminate.
    + left. exists (js "mon"). split; [apply list_elem_of_In; prove_In|].
      exists (js "mon"). split; [reflexivity|]. exists (js " "), (js "-fri 6-7pm "). reflexivity.
  - apply (proj1 (proj2 (schedule_validation (js "after 5:30 PM") (js "hi")))).
    + vm_compute. discriminate.
    + vm_compute. discriminate.
    + right. exists (js "after "), (js "5:30 pm"), []. split; [reflexivity|]. split.
      * exists (js "5"), (js ":30"), (js " "), (js "pm"). split; [reflexivity|].
        split; [split; [by left | by repeat constructor]|].
        split; [right; exists (js "30"); split; [reflexivity|];
                split; [reflexivity | by repeat constructor]|].
        split; [by repeat constructor|]. right. right. reflexivity.
      * split; reflexivity.
  - apply (proj2 (proj2 (schedule_validation (js "sometime") (js "te")))).
    + exact plain_tag_te.
    + intros H. apply dayRx_finds in H. vm_compute in H. discriminate.
    + intros H. apply timeRx_finds in H. vm_compute in H. discriminate.
Defined.

(** C6, as the specification states it, fails: "room 101" is neither
    "online" nor "home" and contains the time of day "10", yet it is
    rejected, since no run of one or two digits stands between word
    boundaries. *)
Lemma schedule_time_needs_boundaries :
  toLowerCase (js "room 101") <> js "online" /\
  toLowerCase (js "room 101") <> js "home" /\
  contains_time_of_day (toLowerCase (js "room 101")) /\
  validateUpdate (js "schedule") (JStr (js "room 101")) (js "en") = Rejected (en t_schedule) /\
  ~ schedule_accepts_any_time_of_day.
Proof.
  assert (H1 : toLowerCase (js "room 101") <> js "online") by (vm_compute; discriminate).
  assert (H2 : toLowerCase (js "room 101") <> js "home") by (vm_compute; discriminate).
  assert (H3 : contains_time_of_day (toLowerCase (js "room 101"))).
  { exists (js "room "), (js "10"), (js "1"). split; [reflexivity|].
    exists (js "10"), [], [], []. split; [reflexivity|].
    split; [split; [by right | by repeat constructor]|].
    split; [by left|]. split; [constructor | by left]. }
  assert (H4 : validateUpdate (js "schedule") (JStr (js "room 101")) (js "en")
               = Rejected (en t_schedule)) by (vm_compute; reflexivity).
  repeat (split; [assumption|]).
  intros H. specialize (H (js "room 101") (js "en") H1 H2 (or_intror H3)).
  rewrite H4 in H. discriminate H.
Qed.
(** * Further properties *)

(** ** The mode validator *)

Lemma test_Lit_exact kw s :
  test {| pattern := Lit kw; ignoreCase := false |} s = true <-> occurs_in kw s.
Proof.
  rewrite (test_reads {| pattern := Lit kw; ignoreCase := false |} _ s (reads_Lit false kw)). unfold occurs_in. split.
  - intros (pre & w & post & -> & Hw%Forall2_exact). subst. by exists pre, post.
  - intros (pre & post & ->). exists pre, kw, post. split; [done|]. by apply Forall2_exact.
Qed.

Lemma homeRx_finds s : test homeRx s = true <-> occurs_in (js "home") s.
Proof. apply test_Lit_exact. Qed.

Lemma onlineZoomRx_finds s :
  test onlineZoomRx s = true <-> occurs_in (js "online") s \/ occurs_in (js "zoom") s.
Proof.
  rewrite (test_reads onlineZoomRx _ s
             (reads_Alt false _ _ _ _ (reads_Lit false (js "online")) (reads_Lit false (js "zoom")))).
  unfold occurs_in. split.
  - intros (pre & w & post & -> & [Hw%Forall2_exact|Hw%Forall2_exact]); subst;
      [left | right]; by exists pre, post.
  - intros [(pre & post & ->)|(pre & post & ->)]; eexists pre, _, post;
      (split; [reflexivity|]); [left | right]; by apply Forall2_exact.
Qed.

(** X1. The mode validator throws when [String] throws on the value.
    Otherwise it looks at the lowercase form of the rendered value:
    when "home" occurs in it the value is accepted as "home", also when
    "online" or "zoom" occurs too; otherwise when "online" or "zoom"
    occurs it is accepted as "online"; otherwise it is rejected, with
    the mode prompt for a tag that names no member of
    [Object.prototype]. *)
Theorem mode_validation (value : json) (lang : jsstring) :
  (ToString value = None -> validateUpdate (js "mode") value lang = Throws) /\
  (forall str, ToString value = Some str ->
     let v := toLowerCase str in
     (occurs_in (js "home") v -> validateUpdate (js "mode") value lang = Accepted (js "home")) /\
     (~ occurs_in (js "home") v -> occurs_in (js "online") v \/ occurs_in (js "zoom") v ->
        validateUpdate (js "mode") value lang = Accepted (js "online")) /\
     (plain_tag lang ->
      ~ occurs_in (js "home") v -> ~ occurs_in (js "online") v -> ~ occurs_in (js "zoom") v ->
        validateUpdate (js "mode") value lang = Rejected (corrective_prompt t_mode lang))).
Proof.
  split; [by intros H%(validateUpdate_throws (js "mode") value lang)|].
  intros str Hstr v. rewrite (validateUpdate_mode value str lang Hstr). cbv zeta. fold v.
  pose proof (reject_plain t_mode t_mode_nonempty lang) as Hr.
  pose proof (homeRx_finds v) as Hh. pose proof (onlineZoomRx_finds v) as Ho.
  destruct (test homeRx v), (test onlineZoomRx v); (split; [|split]); try done;
    intros; try (by apply Hr); exfalso; destruct Hh, Ho; intuition (auto; discriminate).
Qed.

Lemma mode_validation_witness :
  validateUpdate (js "mode") (JStr (js "Online, or at HOME")) (js "en") = Accepted (js "home") /\
  validateUpdate (js "mode") (JStr (js "Zoom is fine")) (js "en") = Accepted (js "online") /\
  validateUpdate (js "mode") JNull (js "hi") = Rejected (corrective_prompt t_mode (js "hi")) /\
  validateUpdate (js "mode") (JObj [(js "toString", JStr (js "home"))]) (js "en") = Throws.
Proof.
  split; [|split; [|split]].
  - apply (proj1 (proj2 (mode_validation (JStr (js "Online, or at HOME")) (js "en")) _ eq_refl)).
    exists (js "online, or at "), []. reflexivity.
  - apply (proj1 (proj2 (proj2 (mode_validation (JStr (js "Zoom is fine")) (js "en")) _ eq_refl))).
    + intros H. apply homeRx_finds in H. vm_compute in H. discriminate.
    + right. exists [], (js " is fine"). reflexivity.
  - apply (proj2 (proj2 (proj2 (mode_validation JNull (js "hi")) (js "null") eq_refl))).
    + exact plain_tag_hi.
    + intros H. apply homeRx_finds in H. vm_compute in H. discriminate.
    + intros H. assert (H' : test onlineZoomRx (toLowerCase (js "null")) = true)
        by (apply onlineZoomRx_finds; by left).
      vm_compute in H'. discriminate.
    + intros H. assert (H' : test onlineZoomRx (toLowerCase (js "null")) = true)
        by (apply onlineZoomRx_finds; by right).
      vm_compute in H'. discriminate.
  - exact (proj1 (mode_validation (JObj [(js "toString", JStr (js "home"))]) (js "en")) eq_refl).
Defined.
(** ** The area validator *)

Lemma class_match_dash_space x :
  class_match true false [(45, 45); (32, 32)] x = true -> x = 45 \/ x = 32.
Proof.
  rewrite class_match_no_letters.
  - unfold class_match, in_ranges, in_range. simpl.
    rewrite !orb_true_iff, !andb_true_iff, !N.leb_le. lia.
  - intros y Hy. unfold in_ranges, in_range in Hy. simpl in Hy.
    rewrite !orb_true_iff, !andb_true_iff, !N.leb_le in Hy.
    destruct (is_letter y) eqn:Hl; [|done]. apply is_letter_bounds in Hl. lia.
Qed.

(** The words of the two alternatives with an optional separator. *)
Lemma reads_iit_keyword tail_ :
  reads true
    (Seq (Lit (js "iit")) (Seq (Opt (Class false [(45, 45); (32, 32)])) (Lit tail_)))
    (fun w => same_ignoring_case w (js "iit-" ++ tail_) \/
              same_ignoring_case w (js "iit " ++ tail_) \/
              same_ignoring_case w (js "iit" ++ tail_)).
Proof.
  eapply reads_ext;
    [|apply reads_Seq; [apply reads_Lit
       |apply reads_Seq; [apply reads_Opt, reads_Class | apply reads_Lit]]].
  intros w. unfold same_ignoring_case. split.
  - intros (w1 & w23 & -> & H1%Forall2_ci & w2 & w3 & -> & H2 & H3%Forall2_ci).
    unfold same_ignoring_case in H1, H3. rewrite !map_app, H1, H3.
    destruct H2 as [(x & -> & Hx)| ->].
    + apply class_match_dash_space in Hx as [-> | ->]; [left | right; left]; reflexivity.
    + right. right. reflexivity.
  - intros H.
    assert (Hsplit : forall sep,
              map to_upper w = map to_upper (js "iit" ++ sep ++ tail_) ->
              exists w1 w2 w3, w = w1 ++ w2 ++ w3 /\
                map to_upper w1 = map to_upper (js "iit") /\
                map to_upper w2 = map to_upper sep /\
                map to_upper w3 = map to_upper tail_).
    { intros sep E. rewrite !map_app in E.
      apply map_eq_app in E as (w1 & w23 & -> & E1 & E23).
      apply map_eq_app in E23 as (w2 & w3 & -> & E2 & E3). by exists w1, w2, w3. }
    assert (Hcase : exists w1 w2 w3, w = w1 ++ w2 ++ w3 /\
                map to_upper w1 = map to_upper (js "iit") /\
                (w2 = [45] \/ w2 = [32] \/ w2 = []) /\
                map to_upper w3 = map to_upper tail_).
    { destruct H as [H|[H|H]].
      - destruct (Hsplit [45] H) as (w1 & w2 & w3 & -> & E1 & E2 & E3).
        exists w1, w2, w3. repeat (split; [done|]). split; [|done]. left.
        destruct w2 as [|x [|y w2]]; try discriminate. injection E2 as E2. f_equal.
        unfold to_upper in E2. destruct (N.leb_spec 97 x), (N.leb_spec x 122); simpl in E2; lia.
      - destruct (Hsplit [32] H) as (w1 & w2 & w3 & -> & E1 & E2 & E3).
        exists w1, w2, w3. repeat (split; [done|]). split; [|done]. right. left.
        destruct w2 as [|x [|y w2]]; try discriminate. injection E2 as E2. f_equal.
        unfold to_upper in E2. destruct (N.leb_spec 97 x), (N.leb_spec x 122); simpl in E2; lia.
      - destruct (Hsplit [] H) as (w1 & w2 & w3 & -> & E1 & E2 & E3).
        exists w1, w2, w3. repeat (split; [done|]). split; [|done]. right. right.
        by destruct w2. }
    destruct Hcase as (w1 & w2 & w3 & -> & E1 & E2 & E3).
    exists w1, (w2 ++ w3). split; [done|]. split; [by apply Forall2_ci|].
    exists w2, w3. split; [done|]. split; [|by apply Forall2_ci].
    destruct E2 as [-> | [-> | ->]]; [left; exists 45 | left; exists 32 | by right];
      (split; [done|]); reflexivity.
Qed.

(** [subjectRx] finds exactly the occurrences of the subject keywords. *)
Lemma subjectRx_mentions s : test subjectRx s = true <-> mentions_subject s.
Proof.
  split.
  - intros H. apply test_true_iff in H as (pre & post & q & -> & Hm).
    unfold subjectRx in Hm. cbn [pattern ignoreCase] in Hm.
    apply Matches_Alts in Hm as (r & Hin & Hm).
    assert (Hkw : forall kw, In kw subject_keywords -> kw ∈ subject_keywords)
      by (intros kw; apply list_elem_of_In).
    assert (Hlit : forall kw, In kw subject_keywords -> Matches true (Lit kw) (last pre, post) q ->
              mentions_subject (pre ++ post)).
    { intros kw Hk Hl. apply reads_Lit in Hl as (w & rest & -> & Hw%Forall2_ci & _).
      exists kw. split; [by apply Hkw|]. exists w. split; [done|]. by exists pre, rest. }
    assert (Hiit : forall tail_,
              In (js "iit-" ++ tail_) subject_keywords ->
              In (js "iit " ++ tail_) subject_keywords ->
              In (js "iit" ++ tail_) subject_keywords ->
              Matches true (Seq (Lit (js "iit"))
                              (Seq (Opt (Class false [(45, 45); (32, 32)])) (Lit tail_)))
                (last pre, post) q ->
              mentions_subject (pre ++ post)).
    { intros tail_ K1 K2 K3 Hl.
      apply reads_iit_keyword in Hl as (w & rest & -> & Hw & _).
      destruct Hw as [Hw|[Hw|Hw]];
        [exists (js "iit-" ++ tail_) | exists (js "iit " ++ tail_) | exists (js "iit" ++ tail_)];
        (split; [by apply Hkw|]); exists w; (split; [done|]); by exists pre, rest. }
    cbn [In] in Hin.
    destruct Hin as [<-|[<-|[<-|[<-|[<-|[<-|[<-|[<-|[<-|[<-|[<-|[<-|[]]]]]]]]]]]]].
    + apply (Hiit (js "jee")); [prove_In | prove_In | prove_In | done].
    + apply (Hlit (js "jee")); [prove_In | done].
    + apply (Hlit (js "neet")); [prove_In | done].
    + apply (Hlit (js "sat")); [prove_In | done].
    + apply (Hiit (js "foundation")); [prove_In | prove_In | prove_In | done].
    + apply (Hlit (js "foundation")); [prove_In | done].
    + apply (Hlit (js "ntse")); [prove_In | done].
    + apply (Hlit (js "olympiad")); [prove_In | done].
    + apply (Hlit (js "cbse")); [prove_In | done].
    + apply (Hlit (js "icse")); [prove_In | done].
    + apply (Hlit (js "ib")); [prove_In | done].
    + apply (Hlit (js "school")); [prove_In | done].
  - intros (kw & Hkw & Hocc). destruct (keyword_core kw Hkw) as (a & core & Hcore & ->).
    apply occurs_ignoring_case_suffix in Hocc. by apply (subjectRx_finds core).
Qed.

(** [localityRx] finds three consecutive letters. *)
Lemma localityRx_finds s : test localityRx s = true <-> has_letter_run s.
Proof.
  set (C := Class false locality_ranges).
  assert (Hc : reads false C (fun w => exists x, w = [x] /\ is_locality_letter x = true)).
  { eapply reads_ext; [|apply reads_Class]. intros w.
    split; intros (x & -> & Hx); exists x; (split; [done|]);
      unfold class_match, is_locality_letter in *; simpl in *;
      by rewrite ?orb_false_r in *. }
  assert (Hr : reads false (pattern localityRx)
                 (fun w => exists a b c rest, w = [a; b; c] ++ rest /\
                    is_locality_letter a = true /\ is_locality_letter b = true /\
                    is_locality_letter c = true /\
                    Forall (fun x => class_match false false locality_ranges x = true) rest)).
  { unfold localityRx. cbn [pattern]. unfold AtLeast. cbn [Repeat]. fold C.
    eapply reads_ext;
      [|apply reads_Seq;
         [apply reads_Seq; [exact Hc
            |apply reads_Seq; [exact Hc
               |apply reads_Seq; [exact Hc | apply reads_Empty]]]
         |apply reads_Star_Class]].
    intros w. split.
    - intros (w1 & rest & -> & (wa & w2 & -> & (a & -> & Ha) & wb & w3 & -> & (b & -> & Hb)
                                  & wc & w4 & -> & (c & -> & Hc') & ->) & Hrest).
      exists a, b, c, rest. by repeat split.
    - intros (a & b & c & rest & -> & Ha & Hb & Hc' & Hrest).
      exists [a; b; c], rest. split; [done|]. split; [|done].
      exists [a], [b; c]. split; [done|]. split; [by exists a|].
      exists [b], [c]. split; [done|]. split; [by exists b|].
      exists [c], []. split; [done|]. split; [by exists c | done]. }
  rewrite (test_reads localityRx _ s Hr). unfold has_letter_run. split.
  - intros (pre & w & post & -> & a & b & c & rest & -> & Ha & Hb & Hc' & _).
    exists pre, a, b, c, (rest ++ post). split; [|done]. by rewrite <- !app_assoc.
  - intros (pre & a & b & c & post & -> & Ha & Hb & Hc').
    exists pre, [a; b; c], post. split; [done|]. exists a, b, c, [].
    by repeat split.
Qed.

(** X2. The area validator throws when [String] throws on the value.
    Otherwise it looks at the trimmed form of the rendered value: it
    rejects it when a subject keyword occurs in it; otherwise it
    accepts it, normalised to the trimmed value, when three consecutive
    letters (Latin, Devanagari or Telugu) occur in it; otherwise it
    rejects it.  Both rejections carry the area prompt for a tag that
    names no member of [Object.prototype], and that member
    otherwise. *)
Theorem area_validation (value : json) (lang : jsstring) :
  (ToString value = None -> validateUpdate (js "area") value lang = Throws) /\
  (forall str, ToString value = Some str ->
     let s := trim str in
     (mentions_subject s \/ ~ has_letter_run s ->
        ((exists p, validateUpdate (js "area") value lang = Rejected p) \/
         (exists m, validateUpdate (js "area") value lang = Rejected_inherited m)) /\
        (plain_tag lang ->
           validateUpdate (js "area") value lang = Rejected (corrective_prompt t_area lang))) /\
     (~ mentions_subject s -> has_letter_run s ->
        validateUpdate (js "area") value lang = Accepted s)).
Proof.
  split; [by intros H%(validateUpdate_throws (js "area") value lang)|].
  intros str Hstr s. rewrite (validateUpdate_area value str lang Hstr). cbv zeta. fold s.
  pose proof (reject_plain t_area t_area_nonempty lang) as Hr.
  pose proof (reject_cases t_area lang) as Hn.
  pose proof (subjectRx_mentions s) as Hs. pose proof (localityRx_finds s) as Hl.
  destruct (test subjectRx s), (test localityRx s); split; try done;
    intros; exfalso; destruct Hs, Hl; intuition (auto; discriminate).
Qed.

Lemma area_validation_witness :
  validateUpdate (js "area") (JStr (js "  Madhapur, Hyderabad ")) (js "en")
  = Accepted (trim (js "  Madhapur, Hyderabad ")) /\
  validateUpdate (js "area") (JStr (js "మాధాపూర్")) (js "te")
  = Accepted (trim (js "మాధాపూర్")) /\
  validateUpdate (js "area") (JStr (js "K2")) (js "en")
  = Rejected (corrective_prompt t_area (js "en")).
Proof.
  split; [|split].
  - apply (proj2 (proj2 (area_validation (JStr (js "  Madhapur, Hyderabad ")) (js "en"))
                    _ eq_refl)).
    + intros H. apply subjectRx_mentions in H. vm_compute in H. discriminate.
    + apply localityRx_finds. vm_compute. reflexivity.
  - apply (proj2 (proj2 (area_validation (JStr (js "మాధాపూర్")) (js "te")) _ eq_refl)).
    + intros H. apply subjectRx_mentions in H. vm_compute in H. discriminate.
    + apply localityRx_finds. vm_compute. reflexivity.
  - refine (proj2 (proj1 (proj2 (area_validation (JStr (js "K2")) (js "en")) _ eq_refl) _)
              plain_tag_en).
    right. intros H. apply localityRx_finds in H. vm_compute in H. discriminate.
Defined.
(** ** Normal forms of accepted values *)

Lemma dropWhile_id f s : (forall x, head s = Some x -> f x = false) -> dropWhile f s = s.
Proof. destruct s as [|x s]; [done|]. intros H. simpl. by rewrite (H x eq_refl). Qed.

Lemma dropWhile_head f s x : head (dropWhile f s) = Some x -> f x = false.
Proof.
  induction s as [|y s IH]; [done|]. simpl. destruct (f y) eqn:Hy; [done|].
  simpl. by intros [= <-].
Qed.

Lemma dropWhile_app_head f (pre t : jsstring) :
  (forall x, head t = Some x -> f x = false) -> t <> [] ->
  dropWhile f (pre ++ t) = dropWhile f pre ++ t.
Proof.
  intros Ht Hne. induction pre as [|y pre IH]; simpl.
  - by apply dropWhile_id.
  - by destruct (f y).
Qed.

Lemma last_rev_head (s : jsstring) : last (rev s) = head s.
Proof. destruct s as [|x s]; [done|]. simpl. by rewrite last_snoc. Qed.

Lemma trimStart_head s x : head (trimStart s) = Some x -> is_space x = false.
Proof. apply dropWhile_head. Qed.

Lemma trimEnd_last s x : last (trimEnd s) = Some x -> is_space x = false.
Proof.
  unfold trimEnd. rewrite last_rev_head. apply dropWhile_head.
Qed.

Lemma trimEnd_snoc s x :
  trimEnd (s ++ [x]) = if is_space x then trimEnd s else s ++ [x].
Proof.
  unfold trimEnd. rewrite rev_app_distr. simpl. destruct (is_space x); [done|].
  simpl. by rewrite rev_involutive.
Qed.

Lemma trimEnd_app_last s u :
  u <> [] -> (forall x, last u = Some x -> is_space x = false) -> trimEnd (s ++ u) = s ++ u.
Proof.
  intros Hne Hu. destruct u as [|y u] using rev_ind; [done|].
  rewrite app_assoc, trimEnd_snoc. by rewrite (Hu y (last_snoc _ _)).
Qed.

Lemma trimEnd_prefix s : exists sp, s = trimEnd s ++ sp /\ Forall (fun x => is_space x = true) sp.
Proof.
  induction s as [|x s IH] using rev_ind; [by exists []|].
  rewrite trimEnd_snoc. destruct (is_space x) eqn:Hx; [|exists []; by rewrite app_nil_r].
  destruct IH as (sp & E & Hsp). exists (sp ++ [x]). split.
  - by rewrite app_assoc, <- E.
  - apply Forall_app. split; [done | by repeat constructor].
Qed.

(** A trimmed string neither starts nor ends with white space, and
    trimming it again changes nothing. *)
Lemma trim_ends s :
  (forall x, head (trim s) = Some x -> is_space x = false) /\
  (forall x, last (trim s) = Some x -> is_space x = false).
Proof.
  split; [|apply trimEnd_last]. intros x Hx. unfold trim in Hx.
  destruct (trimEnd_prefix (trimStart s)) as (sp & E & _).
  apply (trimStart_head s). rewrite E. destruct (trimEnd (trimStart s)); [done|]. done.
Qed.

Lemma trim_fixpoint s :
  (forall x, head s = Some x -> is_space x = false) ->
  (forall x, last s = Some x -> is_space x = false) -> trim s = s.
Proof.
  intros Hh Hl. unfold trim, trimStart. rewrite dropWhile_id by done.
  destruct s as [|y s]; [done|]. apply (trimEnd_app_last [] (y :: s)); done.
Qed.

Lemma trim_idempotent s : trim (trim s) = trim s.
Proof. apply trim_fixpoint; apply trim_ends. Qed.

Lemma filter_all_digits s : all_digits s -> List.filter is_digit s = s.
Proof. induction 1 as [|x s Hx _ IH]; simpl; [done|]. by rewrite Hx, IH. Qed.

Lemma digits_of_all_digits s : all_digits (digits_of s).
Proof.
  unfold all_digits, digits_of. apply Forall_forall. intros x Hx%list_elem_of_In.
  by apply filter_In in Hx as [_ Hx].
Qed.

Lemma accepted_rendered key value lang v :
  validateUpdate key value lang = Accepted v -> exists str, ToString value = Some str.
Proof.
  intros H. destruct (ToString value) as [str|] eqn:E; [by exists str|].
  apply (validateUpdate_throws key value lang) in E. congruence.
Qed.

Lemma accepted_other_key key value lang v :
  key <> js "phone" -> key <> js "grade" -> key <> js "mode" ->
  validateUpdate key value lang = Accepted v ->
  exists str, ToString value = Some str /\ v = trim str.
Proof.
  intros Hp Hg Hm H. destruct (accepted_rendered _ _ _ _ H) as [str Hstr].
  exists str. split; [done|]. unfold validateUpdate in H. rewrite Hstr in H.
  rewrite !bool_decide_eq_false_2 in H by done.
  destruct (bool_decide (key = js "area")).
  { destruct (test subjectRx _); [by destruct (reject_not_accepted _ _ _ H)|].
    destruct (test localityRx _); [|by destruct (reject_not_accepted _ _ _ H)].
    by injection H as <-. }
  destruct (bool_decide (key = js "schedule")).
  { destruct (test onlyModeRx _); [by destruct (reject_not_accepted _ _ _ H)|].
    destruct (test dayRx _ || test timeRx _); [|by destruct (reject_not_accepted _ _ _ H)].
    by injection H as <-. }
  by injection H as <-.
Qed.

Lemma accepted_phone value lang v :
  validateUpdate (js "phone") value lang = Accepted v -> length v = 10%nat /\ all_digits v.
Proof.
  intros H. destruct (accepted_rendered _ _ _ _ H) as [str Hstr].
  rewrite (validateUpdate_phone value str lang Hstr), onlyDigits_filter in H. cbv zeta in H.
  pose proof (digits_of_all_digits str) as Hd.
  case_bool_decide as H10; [by injection H as <-|].
  destruct (bool_decide_reflect (length (digits_of str) = 12%nat)) as [H12|];
    [|by destruct (reject_not_accepted _ _ _ H)].
  cbn [andb] in H. destruct (startsWith _ _); [|by destruct (reject_not_accepted _ _ _ H)].
  assert (Hv : v = drop 2 (digits_of str)) by (unfold slice in H; congruence).
  rewrite Hv. split; [rewrite length_drop; lia|]. apply Forall_drop. exact Hd.
Qed.

Lemma accepted_grade value lang v :
  validateUpdate (js "grade") value lang = Accepted v -> exists g, 1 <= g <= 12 /\ v = decimal g.
Proof.
  intros H. destruct (accepted_rendered _ _ _ _ H) as [str Hstr].
  rewrite (validateUpdate_grade value str lang Hstr) in H.
  destruct (parseInt10 _) as [n|]; [|by destruct (reject_not_accepted _ _ _ H)].
  destruct (Z.leb_spec 1 n), (Z.leb_spec n 12);
    try (by destruct (reject_not_accepted _ _ _ H)). injection H as <-.
  exists (Z.to_N n). split; [lia | done].
Qed.

Lemma accepted_mode value lang v :
  validateUpdate (js "mode") value lang = Accepted v -> v = js "home" \/ v = js "online".
Proof.
  intros H. destruct (accepted_rendered _ _ _ _ H) as [str Hstr].
  rewrite (validateUpdate_mode value str lang Hstr) in H. cbv zeta in H.
  destruct (test homeRx _); [injection H as <-; by left|].
  destruct (test onlineZoomRx _);
    [injection H as <-; by right | by destruct (reject_not_accepted _ _ _ H)].
Qed.

(** X3. What an accepted value looks like: a phone number is ten
    digits; a grade is the decimal form of an integer of [1,12]; a mode
    is "home" or "online"; for any other key the value is the trimmed
    rendering of the proposal, which neither starts nor ends with white
    space. *)
Theorem accepted_value_shape (key : jsstring) (value : json) (lang v : jsstring) :
  validateUpdate key value lang = Accepted v ->
  (key = js "phone" -> length v = 10%nat /\ all_digits v) /\
  (key = js "grade" -> exists g, 1 <= g <= 12 /\ v = decimal g) /\
  (key = js "mode" -> v = js "home" \/ v = js "online") /\
  (key <> js "phone" -> key <> js "grade" -> key <> js "mode" ->
     (exists str, ToString value = Some str /\ v = trim str) /\
     (forall x, head v = Some x -> is_space x = false) /\
     (forall x, last v = Some x -> is_space x = false)).
Proof.
  intros H. split; [|split; [|split]].
  - intros ->. by eapply accepted_phone.
  - intros ->. by eapply accepted_grade.
  - intros ->. by eapply accepted_mode.
  - intros Hp Hg Hm. destruct (accepted_other_key _ _ _ _ Hp Hg Hm H) as (str & Hstr & ->).
    split; [by exists str|]. apply trim_ends.
Qed.

Lemma accepted_value_shape_witness :
  length (js "9876543210") = 10%nat /\ all_digits (js "9876543210").
Proof.
  refine (proj1 (accepted_value_shape (js "phone") (JStr (js "+91 98765 43210")) (js "en")
                   (js "9876543210") _) eq_refl).
  vm_compute. reflexivity.
Defined.
(** ** Validating an accepted value again *)

Lemma is_word_bounds x :
  is_word x = true <-> 48 <= x <= 57 \/ 65 <= x <= 90 \/ x = 95 \/ 97 <= x <= 122.
Proof.
  unfold is_word, in_ranges, in_range, word_ranges. simpl.
  rewrite !orb_true_iff, !andb_true_iff, !N.leb_le. lia.
Qed.

Lemma space_not_word x : is_space x = true -> is_word x = false.
Proof.
  intros Hs%is_space_bounds. destruct (is_word x) eqn:Hw; [|done].
  apply is_word_bounds in Hw. lia.
Qed.

(** Lowering the case keeps white space where it is. *)
Lemma lower_unit_space x : is_space x = true -> lower_unit x = [x].
Proof.
  intros Hs. apply is_space_bounds in Hs as Hb. unfold lower_unit.
  destruct (N.leb_spec 65 x), (N.leb_spec x 90); simpl; try lia;
    destruct (N.eqb_spec x 0x130); try (subst; by vm_compute in Hs);
    destruct (N.eqb_spec x 0x212A); try (subst; by vm_compute in Hs); done.
Qed.

Lemma lower_unit_non_space x :
  is_space x = false ->
  lower_unit x <> [] /\ Forall (fun y => is_space y = false) (lower_unit x).
Proof.
  intros Hs. unfold lower_unit.
  destruct (N.leb_spec 65 x), (N.leb_spec x 90); simpl.
  - split; [done|]. repeat constructor. apply letter_not_space, is_letter_bounds. lia.
  - destruct (N.eqb_spec x 0x130); [split; [done | by repeat constructor]|].
    destruct (N.eqb_spec x 0x212A); split; try done; by repeat constructor.
  - destruct (N.eqb_spec x 0x130); [split; [done | by repeat constructor]|].
    destruct (N.eqb_spec x 0x212A); split; try done; by repeat constructor.
  - destruct (N.eqb_spec x 0x130); [split; [done | by repeat constructor]|].
    destruct (N.eqb_spec x 0x212A); split; try done; by repeat constructor.
Qed.

Lemma toLowerCase_app s t : toLowerCase (s ++ t) = toLowerCase s ++ toLowerCase t.
Proof. apply flat_map_app. Qed.

Lemma toLowerCase_trimStart s : toLowerCase (trimStart s) = trimStart (toLowerCase s).
Proof.
  unfold trimStart. induction s as [|x s IH]; [done|]. simpl.
  destruct (is_space x) eqn:Hx.
  - rewrite (lower_unit_space _ Hx). simpl. by rewrite Hx.
  - destruct (lower_unit_non_space _ Hx) as [Hne Hall].
    change (toLowerCase (x :: s)) with (lower_unit x ++ toLowerCase s).
    destruct (lower_unit x) as [|y u]; [done|]. simpl.
    by rewrite (Forall_inv Hall).
Qed.

Lemma toLowerCase_trimEnd s : toLowerCase (trimEnd s) = trimEnd (toLowerCase s).
Proof.
  induction s as [|x s IH] using rev_ind; [done|].
  rewrite trimEnd_snoc, toLowerCase_app.
  change (toLowerCase [x]) with (lower_unit x ++ []). rewrite app_nil_r.
  destruct (is_space x) eqn:Hx.
  - rewrite (lower_unit_space _ Hx), trimEnd_snoc, Hx. exact IH.
  - destruct (lower_unit_non_space _ Hx) as [Hne Hall].
    rewrite trimEnd_app_last; [|done|].
    + rewrite toLowerCase_app. change (toLowerCase [x]) with (lower_unit x ++ []).
      by rewrite app_nil_r.
    + intros y Hy. rewrite Forall_forall in Hall. apply Hall.
      apply last_Some in Hy as (l' & ->). apply list_elem_of_In, in_or_app. right. by left.
Qed.

Lemma toLowerCase_trim s : toLowerCase (trim s) = trim (toLowerCase s).
Proof. unfold trim. by rewrite toLowerCase_trimEnd, toLowerCase_trimStart. Qed.

(** Trimming around an occurrence that neither starts nor ends with
    white space. *)
Lemma trim_split pre w post :
  w <> [] ->
  (forall x, head w = Some x -> is_space x = false) ->
  (forall x, last w = Some x -> is_space x = false) ->
  trim (pre ++ w ++ post) = trimStart pre ++ w ++ trimEnd post.
Proof.
  intros Hne Hh Hl. unfold trim, trimStart.
  rewrite (dropWhile_app_head is_space pre (w ++ post)).
  - set (a := dropWhile is_space pre). unfold trimEnd.
    rewrite !rev_app_distr, <- app_assoc.
    rewrite (dropWhile_app_head is_space (rev post) (rev w ++ rev a)).
    + by rewrite !rev_app_distr, !rev_involutive, <- app_assoc.
    + intros x Hx. apply Hl. destruct w as [|y w _] using rev_ind; [done|].
      rewrite rev_app_distr in Hx. simpl in Hx. rewrite last_snoc. done.
    + intros E. apply app_eq_nil in E as [E _]. apply Hne.
      by rewrite <- (rev_involutive w), E.
  - intros x Hx. apply Hh. by destruct w.
  - by destruct w.
Qed.

Lemma is_word_last_trimStart pre :
  is_word_opt (last (trimStart pre)) = is_word_opt (last pre).
Proof.
  unfold trimStart. induction pre as [|x pre IH]; [done|]. simpl.
  destruct (is_space x) eqn:Hx; [|done]. rewrite IH.
  destruct pre as [|y pre]; [|done]. simpl. by rewrite (space_not_word _ Hx).
Qed.

Lemma is_word_head_trimEnd post :
  is_word_opt (head (trimEnd post)) = is_word_opt (head post).
Proof.
  unfold trimEnd. rewrite <- last_rev_head, rev_involutive.
  rewrite <- (last_rev_head post). apply (is_word_last_trimStart (rev post)).
Qed.

Lemma head_app_nonempty (w t : jsstring) : w <> [] -> head (w ++ t) = head w.
Proof. by destruct w. Qed.

Lemma last_app_nonempty (s w : jsstring) : w <> [] -> last (s ++ w) = last w.
Proof.
  intros Hne. destruct w as [|y w] using rev_ind; [done|].
  by rewrite app_assoc, !last_snoc.
Qed.

Lemma mentions_weekday_trim s : mentions_weekday s -> mentions_weekday (trim s).
Proof.
  intros (d & Hd & w & E & Hocc). exists d. split; [done|]. exists w. split; [done|].
  assert (Hl : forallb is_letter d = true /\ d <> []).
  { apply list_elem_of_In in Hd. unfold weekdays in Hd. cbn [map In] in Hd.
    repeat (destruct Hd as [<-|Hd]); [..|done];
      (split; [vm_compute; reflexivity | vm_compute; discriminate]). }
  destruct Hl as [Hl Hne]. apply trim_occurs; [done| |].
  - by eapply same_ignoring_case_letters.
  - apply same_ignoring_case_length in E. destruct w; [|done]. destruct d; [done | discriminate].
Qed.

Lemma same_ignoring_case_last_letter w kw x :
  same_ignoring_case w kw -> forallb is_letter kw = true -> last w = Some x ->
  is_letter x = true.
Proof.
  intros E Hl Hx. unfold same_ignoring_case in E.
  assert (Hall : Forall (fun y => is_letter y = true) w).
  { clear Hx. revert w E. induction kw as [|c kw IH]; intros [|y w] E; try discriminate;
      [constructor|]. simpl in E, Hl. injection E as Ey Ew.
    apply andb_true_iff in Hl as [Hc Hl]. constructor; [by eapply to_upper_letter | by apply IH]. }
  rewrite Forall_forall in Hall. apply Hall. apply last_Some in Hx as (l' & ->).
  apply list_elem_of_In, in_or_app. right. by left.
Qed.

Lemma digit_is_word x : is_digit x = true -> is_word x = true.
Proof. intros H%is_digit_bounds. apply is_word_bounds. lia. Qed.

Lemma all_digits_last w x : all_digits w -> last w = Some x -> is_digit x = true.
Proof.
  intros Hall Hx. unfold all_digits in Hall. rewrite Forall_forall in Hall. apply Hall.
  apply last_Some in Hx as (l' & ->). apply list_elem_of_In, in_or_app. right. by left.
Qed.

(** A time of day between word boundaries can be taken to end with a
    digit or with its am or pm marker. *)
Lemma has_time_of_day_tight s :
  has_time_of_day s ->
  exists pre w post,
    s = pre ++ w ++ post /\ time_of_day w /\
    word_boundary pre (w ++ post) /\ word_boundary (pre ++ w) post /\
    (exists x, head w = Some x /\ is_digit x = true) /\
    (exists y, last w = Some y /\ is_space y = false).
Proof.
  intros (pre & w & post & -> & (h & m & sp & ap & -> & Hh & Hm & Hsp & Hap) & Hb1 & Hb2).
  assert (Hhead : exists x, head h = Some x /\ is_digit x = true).
  { destruct Hh as [Hlen Hd]. destruct h as [|x h]; [simpl in Hlen; lia|].
    exists x. split; [done | by inversion Hd]. }
  assert (Hhne : h <> []) by (destruct Hhead as (x & Hx & _); by destruct h).
  assert (Hhm : exists y, last (h ++ m) = Some y /\ is_digit y = true).
  { destruct Hm as [->|(d & -> & Hlen & Hd)].
    - rewrite app_nil_r. destruct Hh as [_ Hd].
      destruct h as [|y h] using rev_ind; [done|]. exists y. rewrite last_snoc. split; [done|].
      eapply all_digits_last; [exact Hd | apply last_snoc].
    - destruct d as [|y d] using rev_ind; [simpl in Hlen; lia|].
      exists y. rewrite app_comm_cons, app_assoc, last_snoc. split; [done|].
      eapply all_digits_last; [exact Hd | apply last_snoc]. }
  destruct Hap as [->|Hap].
  - (* no marker: stop after the minutes *)
    exists pre, (h ++ m), (sp ++ post). rewrite app_nil_r in *.
    split; [by rewrite <- !app_assoc|]. split.
    { exists h, m, [], []. rewrite !app_nil_r. split; [done|]. split; [exact Hh|].
      split; [exact Hm|]. split; [constructor | by left]. }
    destruct Hhead as (x & Hx & Hdx). destruct Hhm as (y & Hy & Hdy).
    assert (Hne : h ++ m <> []) by (by destruct h).
    split; [|split; [|split]].
    + unfold word_boundary, at_word_boundary in *. cbn [fst snd] in *.
      rewrite <- !app_assoc in Hb1. rewrite <- app_assoc.
      rewrite !(head_app_nonempty h) in * by done. done.
    + unfold word_boundary, at_word_boundary in *. cbn [fst snd] in *.
      rewrite last_app_nonempty, Hy by done. cbn [is_word_opt]. rewrite (digit_is_word _ Hdy).
      destruct sp as [|z sp].
      * rewrite app_nil_r in Hb2. rewrite last_app_nonempty, Hy in Hb2 by done.
        cbn [is_word_opt] in Hb2. by rewrite (digit_is_word _ Hdy) in Hb2.
      * simpl. by rewrite (space_not_word _ (Forall_inv Hsp)).
    + exists x. by rewrite head_app_nonempty.
    + exists y. split; [done | by apply digit_not_space].
  - (* a marker: the match ends with a letter *)
    exists pre, (h ++ m ++ sp ++ ap), post. split; [done|]. split.
    { exists h, m, sp, ap. split; [done|]. split; [exact Hh|]. split; [exact Hm|].
      split; [exact Hsp | by right]. }
    split; [done|]. split; [done|]. split.
    + destruct Hhead as (x & Hx & Hdx). exists x. by rewrite head_app_nonempty.
    + assert (Hl : forallb is_letter (js "am") = true /\ forallb is_letter (js "pm") = true)
        by (split; vm_compute; reflexivity).
      assert (Hapne : ap <> []).
      { destruct Hap as [E|E]; apply same_ignoring_case_length in E; by destruct ap. }
      destruct ap as [|y ap] using rev_ind; [done|]. exists y.
      rewrite !app_assoc, last_snoc. split; [done|]. apply letter_not_space.
      destruct Hap as [E|E]; eapply same_ignoring_case_last_letter;
        try exact E; try apply last_snoc; apply Hl.
Qed.

Lemma has_time_of_day_trim s : has_time_of_day s -> has_time_of_day (trim s).
Proof.
  intros H. apply has_time_of_day_tight in H
    as (pre & w & post & -> & Hw & Hb1 & Hb2 & (x & Hx & Hdx) & (y & Hy & Hsy)).
  assert (Hne : w <> []) by (by destruct w).
  rewrite trim_split; [|done| |].
  - exists (trimStart pre), w, (trimEnd post). split; [done|]. split; [done|].
    unfold word_boundary, at_word_boundary in *. cbn [fst snd] in *.
    rewrite !head_app_nonempty in * by done.
    rewrite !last_app_nonempty in * by done.
    by rewrite is_word_last_trimStart, is_word_head_trimEnd.
  - intros x' Hx'. rewrite Hx in Hx'. injection Hx' as <-. by apply digit_not_space.
  - intros y' Hy'. rewrite Hy in Hy'. by injection Hy' as <-.
Qed.
Lemma revalidate_phone value lang v :
  validateUpdate (js "phone") value lang = Accepted v ->
  validateUpdate (js "phone") (JStr v) lang = Accepted v.
Proof.
  intros [Hlen Hd]%accepted_phone. rewrite (validateUpdate_phone (JStr v) v lang eq_refl).
  cbv zeta. rewrite onlyDigits_filter. unfold digits_of. rewrite (filter_all_digits _ Hd).
  by rewrite bool_decide_eq_true_2.
Qed.

Lemma revalidate_grade value lang v :
  validateUpdate (js "grade") value lang = Accepted v ->
  validateUpdate (js "grade") (JStr v) lang = Accepted v.
Proof.
  intros (g & Hg & ->)%accepted_grade.
  destruct (decimal_small g Hg) as (Hds & Hne & Hval).
  rewrite (validateUpdate_grade (JStr (decimal g)) (decimal g) lang eq_refl).
  rewrite exec_digits.
  pose proof (first_digit_run_embedded [] (decimal g) []) as Hrun.
  rewrite app_nil_r in Hrun. simpl in Hrun. rewrite Hrun; [|constructor|done|done|done].
  rewrite (parseInt10_digits _ Hds). destruct (decimal g) as [|x r] eqn:E; [done|].
  rewrite Hval, N2Z.id.
  destruct (Z.leb_spec 1 (Z.of_N g)), (Z.leb_spec (Z.of_N g) 12); try lia. simpl.
  by rewrite E.
Qed.

Lemma revalidate_mode value lang v :
  validateUpdate (js "mode") value lang = Accepted v ->
  validateUpdate (js "mode") (JStr v) lang = Accepted v.
Proof.
  intros [-> | ->]%accepted_mode;
    [rewrite (validateUpdate_mode (JStr (js "home")) (js "home") lang eq_refl)
    |rewrite (validateUpdate_mode (JStr (js "online")) (js "online") lang eq_refl)]; cbv zeta.
  - assert (E : test homeRx (toLowerCase (js "home")) = true) by (vm_compute; reflexivity).
    by rewrite E.
  - assert (E1 : test homeRx (toLowerCase (js "online")) = false) by (vm_compute; reflexivity).
    assert (E2 : test onlineZoomRx (toLowerCase (js "online")) = true)
      by (vm_compute; reflexivity).
    by rewrite E1, E2.
Qed.

Lemma revalidate_area value lang v :
  validateUpdate (js "area") value lang = Accepted v ->
  validateUpdate (js "area") (JStr v) lang = Accepted v.
Proof.
  intros H. destruct (accepted_rendered _ _ _ _ H) as [str Hstr].
  rewrite (validateUpdate_area value str lang Hstr) in H.
  rewrite (validateUpdate_area (JStr v) v lang eq_refl). cbv zeta in *.
  destruct (test subjectRx (trim str)) eqn:E1; [by destruct (reject_not_accepted _ _ _ H)|].
  destruct (test localityRx (trim str)) eqn:E2; [|by destruct (reject_not_accepted _ _ _ H)].
  injection H as <-. by rewrite trim_idempotent, E1, E2.
Qed.

Lemma revalidate_schedule value lang v :
  validateUpdate (js "schedule") value lang = Accepted v ->
  validateUpdate (js "schedule") (JStr v) lang = Accepted v.
Proof.
  intros H. destruct (accepted_rendered _ _ _ _ H) as [str Hstr].
  rewrite (validateUpdate_schedule value str lang Hstr) in H.
  rewrite (validateUpdate_schedule (JStr v) v lang eq_refl). cbv zeta in *.
  set (L := toLowerCase str) in *.
  destruct (test onlyModeRx L) eqn:E0; [by destruct (reject_not_accepted _ _ _ H)|].
  destruct (test dayRx L || test timeRx L) eqn:E1;
    [|by destruct (reject_not_accepted _ _ _ H)].
  injection H as <-. rewrite toLowerCase_trim, trim_idempotent. fold L.
  assert (Hfound : test dayRx (trim L) || test timeRx (trim L) = true).
  { apply orb_true_iff in E1 as [Hd|Ht]; apply orb_true_iff.
    - left. by apply dayRx_finds, mentions_weekday_trim, dayRx_finds.
    - right. by apply timeRx_finds, has_time_of_day_trim, timeRx_finds. }
  rewrite Hfound.
  destruct (test onlyModeRx (trim L)) eqn:E2; [|done].
  exfalso. apply onlyModeRx_finds in E2. rewrite <- trim_idempotent in Hfound.
  destruct E2 as [E2|E2]; rewrite E2 in Hfound; vm_compute in Hfound; discriminate.
Qed.

(** X4. Validation is idempotent on what it accepts: a value that the
    validator returned as accepted for a key is accepted again for that
    key, as itself.  (The planner can repeat a known answer without
    changing it.) *)
Theorem validation_idempotent (key : jsstring) (value : json) (lang v : jsstring) :
  validateUpdate key value lang = Accepted v ->
  validateUpdate key (JStr v) lang = Accepted v.
Proof.
  intros H.
  destruct (decide (key = js "phone")) as [->|Hp]; [by eapply revalidate_phone|].
  destruct (decide (key = js "grade")) as [->|Hg]; [by eapply revalidate_grade|].
  destruct (decide (key = js "mode")) as [->|Hm]; [by eapply revalidate_mode|].
  destruct (decide (key = js "area")) as [->|Ha]; [by eapply revalidate_area|].
  destruct (decide (key = js "schedule")) as [->|Hs]; [by eapply revalidate_schedule|].
  destruct (accepted_other_key _ _ _ _ Hp Hg Hm H) as (str & _ & ->).
  unfold validateUpdate. cbn [ToString]. rewrite !bool_decide_eq_false_2 by done.
  by rewrite trim_idempotent.
Qed.

Lemma validation_idempotent_witness :
  validateUpdate (js "schedule") (JStr (js "Mon-Fri 6-7pm")) (js "en")
  = Accepted (js "Mon-Fri 6-7pm").
Proof.
  apply (validation_idempotent (js "schedule") (JStr (js "  Mon-Fri 6-7pm ")) (js "en")).
  vm_compute. reflexivity.
Defined.
(** ** What a turn replies *)

Lemma rejected_prompt_table key value lang prompt :
  validateUpdate key value lang = Rejected prompt ->
  exists t, t ∈ prompt_tables /\ prompt = corrective_prompt t lang.
Proof.
  unfold validateUpdate, prompt_tables. destruct (ToString value) as [str|]; [|done].
  destruct (bool_decide (key = js "phone")).
  { repeat case_match; try discriminate; intros Hrej; exists t_phone;
      (split; [apply list_elem_of_here|]);
      exact (reject_string _ t_phone_nonempty _ _ Hrej). }
  destruct (bool_decide (key = js "grade")).
  { repeat case_match; try discriminate; intros Hrej; exists t_grade;
      (split; [apply list_elem_of_further, list_elem_of_here|]);
      exact (reject_string _ t_grade_nonempty _ _ Hrej). }
  destruct (bool_decide (key = js "mode")).
  { repeat case_match; try discriminate; intros Hrej; exists t_mode;
      (split; [do 2 apply list_elem_of_further; apply list_elem_of_here|]);
      exact (reject_string _ t_mode_nonempty _ _ Hrej). }
  destruct (bool_decide (key = js "area")).
  { repeat case_match; try discriminate; intros Hrej; exists t_area;
      (split; [do 3 apply list_elem_of_further; apply list_elem_of_here|]);
      exact (reject_string _ t_area_nonempty _ _ Hrej). }
  destruct (bool_decide (key = js "schedule")).
  { repeat case_match; try discriminate; intros Hrej; exists t_schedule;
      (split; [do 4 apply list_elem_of_further; apply list_elem_of_here|]);
      exact (reject_string _ t_schedule_nonempty _ _ Hrej). }
  discriminate.
Qed.

(** [badPrompt] is empty or the prompt of a rejected update. *)
Lemma badPrompt_origin lang l acc :
  (foldl (stage_step lang) acc l).1 = acc.1 \/
  exists kv, kv ∈ l /\ validateUpdate kv.1 kv.2 lang = Rejected (foldl (stage_step lang) acc l).1.
Proof.
  revert acc. induction l as [|kv l IH]; intros acc; [by left|]. simpl.
  destruct (IH (stage_step lang acc kv)) as [E|(kv' & Hin & Hr)].
  - rewrite E. unfold stage_step.
    destruct (validateUpdate kv.1 kv.2 lang) as [v|p|m|] eqn:Hv; simpl; [by left| |by left..].
    right. exists kv. split; [left | done].
  - right. exists kv'. split; [by right | done].
Qed.

Lemma js_Okay_nonempty : js "Okay." <> [].
Proof. vm_compute. discriminate. Qed.

(** X5. The reply of a turn whose plan was obtained and validated (the
    validator returned for every update) is never empty, and it is the
    planner's [assistant_text], "Okay.", or the prompt of one of the
    five localisation tables in English, Hindi or Telugu. *)
Theorem reply_never_empty env planner plan convId messages lang page userAgent resStream w :
  llmPlan planner = resolved plan ->
  Forall (returns (langHint_of lang)) (Object_entries (updates plan)) ->
  exists reply,
    reply_of (handleTurn env planner convId messages lang page userAgent resStream w).1
    = Some reply /\
    reply <> [] /\
    (reply = assistant_text plan \/ reply = js "Okay." \/
     exists t, t ∈ prompt_tables /\ (reply = en t \/ reply = hi t \/ reply = te t)).
Proof.
  intros Hplan Hret. rewrite (handleTurn_reply _ _ _ _ _ _ _ _ _ _ Hplan Hret).
  eexists. split; [reflexivity|]. unfold stage_all.
  set (l := Object_entries (updates plan)).
  destruct (badPrompt_origin (langHint_of lang) l ([], ∅)) as [E|(kv & Hin & Hr)].
  - rewrite E. cbn [fst]. rewrite compose_reply_accepted.
    case_bool_decide as Ha; [|by auto]. split; [apply js_Okay_nonempty | by auto].
  - pose proof (rejected_prompt_nonempty _ _ _ _ Hr) as Hne.
    rewrite (compose_reply_rejected _ _ Hne). split; [done|]. right. right.
    destruct (rejected_prompt_table _ _ _ _ Hr) as (t & Ht & ->). exists t. split; [done|].
    unfold corrective_prompt. repeat case_bool_decide; tauto.
Qed.

Lemma reply_never_empty_witness :
  exists reply,
    reply_of (handleTurn env_ok (content (Some plan_neet_phone)) (js "c1") [] (js "en") [] []
                false boot).1 = Some reply /\
    reply <> [] /\
    (reply = assistant_text normal_neet_phone \/ reply = js "Okay." \/
     exists t, t ∈ prompt_tables /\ (reply = en t \/ reply = hi t \/ reply = te t)).
Proof.
  refine (reply_never_empty env_ok (content (Some plan_neet_phone)) normal_neet_phone (js "c1") []
            (js "en") [] [] false boot llmPlan_neet_phone _).
  repeat constructor; unfold returns; vm_compute; discriminate.
Defined.

(** ** Persistence never changes the result of a turn *)

(** X6. The spreadsheet has no influence on a turn: whether it is
    configured, and whichever of its calls fail, the turn resolves or
    fails alike, delivers the same reply and answers, and leaves the
    same session store. *)
Theorem persistence_never_changes_result
    env1 env2 planner convId messages lang page userAgent resStream w1 w2 :
  SESSIONS w1 = SESSIONS w2 ->
  (handleTurn env1 planner convId messages lang page userAgent resStream w1).1
  = (handleTurn env2 planner convId messages lang page userAgent resStream w2).1 /\
  SESSIONS (handleTurn env1 planner convId messages lang page userAgent resStream w1).2
  = SESSIONS (handleTurn env2 planner convId messages lang page userAgent resStream w2).2.
Proof.
  intros HS. destruct (turn_cases lang planner) as [(plan & Hplan & Hret)|Hfail].
  - rewrite !(handleTurn_sessions _ _ _ _ _ _ _ _ _ _ Hplan Hret).
    rewrite !(handleTurn_blocks _ planner plan convId messages lang page userAgent resStream _
                Hplan Hret).
    cbv zeta. cbn [fst]. by rewrite HS.
  - rewrite !(handleTurn_throws _ _ _ _ _ _ _ _ _ Hfail). cbn [fst snd]. split; [done|].
    destruct (ensureSession_run convId w1) as (wa & Ea & Sa & _).
    destruct (ensureSession_run convId w2) as (wb & Eb & Sb & _).
    rewrite Ea, Eb. cbn [snd]. by rewrite Sa, Sb, HS.
Qed.

Lemma persistence_never_changes_result_witness :
  (handleTurn env_ok (content (Some plan_phone)) (js "c1") [] (js "en") [] [] false boot).1
  = (handleTurn {| hasSheets := true; toISOString := fun _ => []; api_ok := fun _ => false |}
       (content (Some plan_phone)) (js "c1") [] (js "en") [] [] false boot).1.
Proof.
  exact (proj1 (persistence_never_changes_result env_ok
                  {| hasSheets := true; toISOString := fun _ => []; api_ok := fun _ => false |}
                  (content (Some plan_phone)) (js "c1") [] (js "en") [] [] false boot boot
                  eq_refl)).
Defined.
(** ** The store across a turn *)

(** X7. The store only grows: after a turn, whether it succeeds or
    fails, every conversation that had a session still has one, every
    key that had an answer still has one, and the conversation of the
    turn has a session. *)
Theorem store_never_shrinks env planner convId messages lang page userAgent resStream w :
  let w' := (handleTurn env planner convId messages lang page userAgent resStream w).2 in
  (forall c a k v, SESSIONS w !! c = Some a -> a !! k = Some v ->
     exists a' v', SESSIONS w' !! c = Some a' /\ a' !! k = Some v') /\
  (forall c, is_Some (SESSIONS w !! c) -> is_Some (SESSIONS w' !! c)) /\
  is_Some (SESSIONS w' !! convId).
Proof.
  intros w'.
  assert (HS : exists answers,
             SESSIONS w' = <[convId := answers]> (SESSIONS w) /\
             forall k v, default ∅ (SESSIONS w !! convId) !! k = Some v ->
               exists v', answers !! k = Some v').
  { unfold w'. destruct (turn_cases lang planner) as [(plan & Hplan & Hret)|Hfail].
    - rewrite (handleTurn_sessions _ _ _ _ _ _ _ _ _ _ Hplan Hret). eexists. split; [done|].
      intros k v Hk. rewrite lookup_Object_assign.
      destruct (bool_decide (k = js "__proto__")); [by exists v|].
      destruct ((stage_all (langHint_of lang) (Object_entries (updates plan))).2 !! k)
        as [v0|]; [by exists v0 | by exists v].
    - rewrite (handleTurn_throws _ _ _ _ _ _ _ _ _ Hfail).
      destruct (ensureSession_run convId w) as (wa & Ea & Sa & _). rewrite Ea. cbn [snd].
      eexists. split; [exact Sa|]. intros k v Hk. by eexists. }
  destruct HS as (answers & HS & Hkeep). split; [|split].
  - intros c a k v Hc Hk. rewrite HS. destruct (decide (convId = c)) as [<-|Hne].
    + rewrite lookup_insert_eq. rewrite Hc in Hkeep. simpl in Hkeep.
      destruct (Hkeep k v Hk) as [v' Hv']. by exists answers, v'.
    + rewrite lookup_insert_ne by done. by exists a, v.
  - intros c Hc. rewrite HS. destruct (decide (convId = c)) as [<-|Hne].
    + rewrite lookup_insert_eq. by eexists.
    + by rewrite lookup_insert_ne.
  - rewrite HS, lookup_insert_eq. by eexists.
Qed.

Lemma store_never_shrinks_witness :
  is_Some (SESSIONS (handleTurn env_ok call_fails (js "c1") [] [] [] [] false boot).2
           !! js "c1").
Proof.
  exact (proj2 (proj2 (store_never_shrinks env_ok call_fails (js "c1") [] [] [] [] false boot))).
Defined.

(** The last accepted proposal for a key is the one staged. *)
Lemma staged_last lang earlier k raw later v acc :
  validateUpdate k raw lang = Accepted v -> k <> js "__proto__" ->
  (forall raw', (k, raw') ∈ later -> exists p, validateUpdate k raw' lang = Rejected p) ->
  (foldl (stage_step lang) acc (earlier ++ (k, raw) :: later)).2 !! k = Some v.
Proof.
  intros Hv Hk Hlater. rewrite foldl_app. simpl.
  rewrite (staged_unchanged lang later _ k Hlater).
  rewrite (stage_step_accepted lang _ (k, raw) v Hv). simpl.
  rewrite lookup_set_prop. by rewrite bool_decide_eq_true_2.
Qed.

(** X8. An accepted update is stored: when the validator returns for
    every proposal of the plan, it accepts the value proposed for a key
    other than ["__proto__"], and no later proposal of the plan for
    that key is accepted, the answers of the conversation hold the
    accepted value for the key after the turn, whatever they held
    before. *)
Theorem accepted_update_stored
    env planner plan convId messages lang page userAgent resStream w earlier k raw later v :
  llmPlan planner = resolved plan ->
  Forall (returns (langHint_of lang)) (Object_entries (updates plan)) ->
  Object_entries (updates plan) = earlier ++ (k, raw) :: later ->
  validateUpdate k raw (langHint_of lang) = Accepted v ->
  k <> js "__proto__" ->
  (forall raw', (k, raw') ∈ later ->
     exists p, validateUpdate k raw' (langHint_of lang) = Rejected p) ->
  exists answers,
    SESSIONS (handleTurn env planner convId messages lang page userAgent resStream w).2
      !! convId = Some answers /\
    answers !! k = Some v.
Proof.
  intros Hplan Hret E Hv Hk Hlater.
  rewrite (handleTurn_sessions _ _ _ _ _ _ _ _ _ _ Hplan Hret).
  eexists. split; [apply lookup_insert_eq|]. rewrite lookup_Object_assign.
  rewrite bool_decide_eq_false_2 by done. unfold stage_all. rewrite E.
  by rewrite (staged_last _ _ _ _ _ _ _ Hv Hk Hlater).
Qed.

Lemma accepted_update_stored_witness :
  exists answers,
    SESSIONS (handleTurn env_ok (content (Some plan_neet_phone)) (js "c1") [] (js "en") [] []
                false boot).2 !! js "c1" = Some answers /\
    answers !! js "phone" = Some (js "9876543210").
Proof.
  apply (accepted_update_stored env_ok (content (Some plan_neet_phone)) normal_neet_phone
           (js "c1") [] (js "en") [] [] false boot
           [(js "area", JStr (js "NEET"))] (js "phone") (JStr (js "+91 98765 43210")) []
           (js "9876543210") llmPlan_neet_phone).
  - repeat constructor; unfold returns; vm_compute; discriminate.
  - reflexivity.
  - vm_compute. reflexivity.
  - vm_compute. discriminate.
  - intros raw' Hin. by apply elem_of_nil in Hin.
Defined.

(** A proposal under the key ["__proto__"] never reaches the answers. *)
Lemma proto_never_stored env planner convId messages lang page userAgent resStream w a' :
  SESSIONS (handleTurn env planner convId messages lang page userAgent resStream w).2
    !! convId = Some a' ->
  a' !! js "__proto__" = default ∅ (SESSIONS w !! convId) !! js "__proto__".
Proof.
  destruct (turn_cases lang planner) as [(plan & Hplan & Hret)|Hfail].
  - rewrite (handleTurn_sessions _ _ _ _ _ _ _ _ _ _ Hplan Hret), lookup_insert_eq.
    intros [= <-]. rewrite lookup_Object_assign. by rewrite bool_decide_eq_true_2.
  - rewrite (handleTurn_throws _ _ _ _ _ _ _ _ _ Hfail).
    destruct (ensureSession_run convId w) as (wa & Ea & Sa & _). rewrite Ea. cbn [snd].
    rewrite Sa, lookup_insert_eq. by intros [= <-].
Qed.

(** ** [ensureSession] *)

(** X9. [ensureSession] is a get-or-create: it returns the answers of
    the conversation, empty when it creates them; it never changes the
    answers of a conversation that exists nor any other conversation;
    it writes nothing to the spreadsheet; and calling it again returns
    the same answers and changes nothing. *)
Theorem ensureSession_get_or_create (convId : jsstring) (w : world) :
  let r := ensureSession convId w in
  r.1 = resolved (default ∅ (SESSIONS w !! convId)) /\
  SESSIONS r.2 !! convId = Some (default ∅ (SESSIONS w !! convId)) /\
  (forall c, c <> convId -> SESSIONS r.2 !! c = SESSIONS w !! c) /\
  sheet r.2 = sheet w /\
  ensureSession convId r.2 = (r.1, r.2).
Proof.
  intros r. unfold r, ensureSession, bind, get_world, put_sessions, ret.
  destruct (SESSIONS w !! convId) as [a|] eqn:E; cbn.
  - rewrite E. by repeat split.
  - rewrite lookup_insert_eq. repeat split; try done.
    intros c Hc. by rewrite lookup_insert_ne.
Qed.

Lemma ensureSession_get_or_create_witness :
  SESSIONS (ensureSession (js "c1") boot).2 !! js "c2" = SESSIONS boot !! js "c2" /\
  ensureSession (js "c1") (ensureSession (js "c1") boot).2
    = ((ensureSession (js "c1") boot).1, (ensureSession (js "c1") boot).2).
Proof.
  split.
  - apply (proj1 (proj2 (proj2 (ensureSession_get_or_create (js "c1") boot)))).
    vm_compute. discriminate.
  - exact (proj2 (proj2 (proj2 (proj2 (ensureSession_get_or_create (js "c1") boot))))).
Defined.

(** ** When a turn fails *)

Lemma llmPlan_rejected_iff planner :
  llmPlan planner = rejected <-> planner = call_fails \/ planner = content (Some JNull).
Proof.
  destruct planner as [| |[j|]]; simpl; try (split; [done | by intros [|]]).
  - split; [by left | done].
  - destruct j; simpl; try (split; [done | by intros [|]]). split; [by right | done].
Qed.

Lemma llmPlan_updates planner plan :
  llmPlan planner = resolved plan ->
  (exists props, updates plan = JObj props) \/ (exists items, updates plan = JArr items).
Proof.
  intros Hplan.
  assert (Hn : forall j p, normalizePlan j = resolved p ->
            (exists props, updates p = JObj props) \/ (exists items, updates p = JArr items)).
  { intros j p Hj. unfold normalizePlan in Hj.
    assert (Hobj : forall props p',
              resolved {| updates := match get_prop (js "updates") props with
                                     | Some (JObj o) => JObj o
                                     | Some (JArr a) => JArr a
                                     | _ => JObj []
                                     end;
                          assistant_text := match get_prop (js "assistant_text") props with
                                            | Some (JStr s) => s
                                            | _ => js "Okay."
                                            end;
                          next_field := match get_prop (js "next_field") props with
                                        | Some (JStr s) => s
                                        | _ => []
                                        end;
                          done := match get_prop (js "done") props with
                                  | Some (JBool b) => b
                                  | _ => false
                                  end |} = resolved p' ->
              (exists props, updates p' = JObj props) \/ (exists items, updates p' = JArr items)).
    { intros props p' [= <-]. cbn [updates].
      destruct (get_prop (js "updates") props) as [[]|];
        try (left; by eexists); right; by eexists. }
    destruct j; try done; by eapply Hobj. }
  destruct planner as [| |[j|]]; simpl in Hplan; [done|by eapply Hn| by eapply Hn|by eapply Hn].
Qed.

(** A proposal on which [String] throws makes the turn fail. *)
Lemma throwing_proposal lang planner k raw :
  (k, raw) ∈ proposals planner -> ToString raw = None -> turn_fails lang planner.
Proof.
  intros Hin Hraw. right. intros HF. rewrite Forall_forall in HF.
  apply (HF (k, raw) Hin). by apply validateUpdate_throws.
Qed.

(** X10. How a turn fails.  [llmPlan] fails in two cases only: the
    completion call fails, or the content parses to [null]; in every
    other case it yields a plan whose updates are an object or an
    array.  When [llmPlan] fails, and when [String] throws on a value
    that the plan proposes, the turn fails: it has created the session
    if there was none, changed no answer and sent nothing to the
    spreadsheet, and [/chat] answers [chat_failed].  When the
    conversation identifier cannot be set as a header, [/chat] answers
    [chat_failed] without header and nothing has changed. *)
Theorem turn_fails_iff env planner randomUUID (req : request) (w : world) :
  (llmPlan planner = rejected <-> planner = call_fails \/ planner = content (Some JNull)) /\
  (forall plan, llmPlan planner = resolved plan ->
     (exists props, updates plan = JObj props) \/ (exists items, updates plan = JArr items)) /\
  (llmPlan planner = rejected \/
   (exists k raw, (k, raw) ∈ proposals planner /\ ToString raw = None) ->
     (forall convId messages lang page userAgent resStream,
        let out := handleTurn env planner convId messages lang page userAgent resStream w in
        out.1 = rejected /\
        SESSIONS out.2 = <[convId := default ∅ (SESSIONS w !! convId)]> (SESSIONS w) /\
        sheet out.2 = sheet w /\ api_calls out.2 = api_calls w) /\
     body (post_chat env planner randomUUID req w).1 = json_chat_failed) /\
  (setHeader_ok (convId_of req randomUUID) = false ->
     post_chat env planner randomUUID req w
     = ({| x_conv_id := None; body := json_chat_failed |}, w)).
Proof.
  split; [apply llmPlan_rejected_iff|]. split; [apply llmPlan_updates|]. split.
  - intros Hcause.
    assert (Hfail : forall lang, turn_fails lang planner).
    { intros lang. destruct Hcause as [H|(k & raw & Hin & Hraw)];
        [by left | by eapply throwing_proposal]. }
    split.
    + intros convId messages lang page userAgent resStream out. unfold out.
      rewrite (handleTurn_throws _ _ _ _ _ _ _ _ _ (Hfail lang)).
      destruct (ensureSession_run convId w) as (wa & Ea & Sa & Sh & _ & Ap).
      rewrite Ea. cbn [fst snd]. done.
    + unfold post_chat. destruct (setHeader_ok _); cbn [negb]; [|done].
      by rewrite (handleTurn_throws _ _ _ _ _ _ _ _ _ (Hfail (req_lang req))).
  - intros Hh. unfold post_chat. by rewrite Hh.
Qed.

Lemma turn_fails_iff_witness :
  ((exists props, updates normal_phone = JObj props) \/
   (exists items, updates normal_phone = JArr items)) /\
  body (post_chat env_ok
          (content (Some (JObj [ (js "updates",
                                  JObj [ (js "phone", JStr (js "9876543210"));
                                         (js "budget", JObj [(js "toString", JStr (js "x"))]) ])
                               ])))
          (js "c1") empty_request boot).1
  = json_chat_failed /\
  post_chat env_ok (content (Some plan_phone)) [10] empty_request boot
  = ({| x_conv_id := None; body := json_chat_failed |}, boot).
Proof.
  split; [|split].
  - exact (proj1 (proj2 (turn_fails_iff env_ok (content (Some plan_phone)) (js "c1")
                            empty_request boot)) normal_phone llmPlan_phone).
  - apply (proj1 (proj2 (proj2 (turn_fails_iff env_ok _ (js "c1") empty_request boot)))).
    right. exists (js "budget"), (JObj [(js "toString", JStr (js "x"))]).
    split; [|reflexivity]. vm_compute. apply list_elem_of_further, list_elem_of_here.
  - exact (proj2 (proj2 (proj2 (turn_fails_iff env_ok (content (Some plan_phone)) [10]
                                   empty_request boot))) eq_refl).
Defined.

(** ** The last user message *)

(** X11. The message logged for the user is the content of the last
    message of the history whose role is "user", whatever follows it,
    and the empty string when the history has none. *)
Theorem lastUser_is_last_user_message (messages : list message) :
  (forall earlier m later,
     messages = earlier ++ m :: later -> role m = js "user" ->
     Forall (fun m' => role m' <> js "user") later ->
     lastUser_content messages = content_ m) /\
  (Forall (fun m' => role m' <> js "user") messages -> lastUser_content messages = []).
Proof.
  assert (Hnone : forall l, Forall (fun m' => role m' <> js "user") l ->
            find (fun m => bool_decide (role m = js "user")) (rev l) = None).
  { intros l Hl.
    assert (Hr : Forall (fun m' => role m' <> js "user") (rev l)).
    { apply Forall_forall. intros m' Hm'%list_elem_of_In%in_rev.
      rewrite Forall_forall in Hl. apply Hl. by apply list_elem_of_In. }
    induction Hr as [|x r Hx _ IH]; [done|]. simpl. by rewrite bool_decide_eq_false_2. }
  split.
  - intros earlier m later -> Hm Hlater. unfold lastUser_content.
    rewrite rev_app_distr. simpl. rewrite <- app_assoc.
    assert (Hf : forall l1 l2,
              find (fun m => bool_decide (role m = js "user")) l1 = None ->
              find (fun m => bool_decide (role m = js "user")) (l1 ++ l2)
              = find (fun m => bool_decide (role m = js "user")) l2).
    { induction l1 as [|x l1 IH]; intros l2 Hn; [done|]. simpl in *.
      destruct (bool_decide (role x = js "user")); [done | by apply IH]. }
    rewrite (Hf _ _ (Hnone later Hlater)). simpl. by rewrite bool_decide_eq_true_2.
  - intros Hall. unfold lastUser_content. by rewrite (Hnone _ Hall).
Qed.

Lemma lastUser_is_last_user_message_witness :
  lastUser_content
    [ {| role := js "user"; content_ := js "hello" |};
      {| role := js "assistant"; content_ := js "Hi! Your name?" |};
      {| role := js "user"; content_ := js "Asha" |};
      {| role := js "assistant"; content_ := js "Phone?" |} ]
  = content_ {| role := js "user"; content_ := js "Asha" |}.
Proof.
  apply (proj1 (lastUser_is_last_user_message _)
           [ {| role := js "user"; content_ := js "hello" |};
             {| role := js "assistant"; content_ := js "Hi! Your name?" |} ]
           {| role := js "user"; content_ := js "Asha" |}
           [ {| role := js "assistant"; content_ := js "Phone?" |} ] eq_refl eq_refl).
  constructor; [|constructor]. vm_compute. discriminate.
Defined.
(** ** The requests of a turn *)

Lemma mirror_phone_trace env p w :
  exists written,
    sheet (mirror_phone env p w).2 = sheet w ++ written /\
    (written = [] \/ (p <> [] /\ exists ts, written = [presales_row ts p])) /\
    (hasSheets env = true -> (forall n, api_ok env n = true) -> p <> [] -> written <> []).
Proof.
  unfold mirror_phone. destruct p as [|x p].
  { exists []. rewrite app_nil_r. split; [done|]. split; [by left | done]. }
  unfold try_catch, appendPresales, bind, new_Date, appendRow.
  destruct (hasSheets env) eqn:Hs; cbn.
  2:{ exists []. rewrite app_nil_r. split; [done|]. split; [by left | done]. }
  unfold sheets_call. cbn. destruct (api_ok env (api_calls w)) eqn:Hok; cbn.
  - eexists [_]. split; [done|]. split; [|done]. right. split; [done|]. by eexists.
  - exists []. rewrite app_nil_r. split; [done|]. split; [by left|].
    intros _ Hall. by rewrite Hall in Hok.
Qed.

Lemma persist_turn_trace env convId lastUser reply p page userAgent langHint answers w :
  exists written ts2 ts3 ts4,
    sheet (persist_turn env convId lastUser reply p page userAgent langHint answers w).2
    = sheet w ++ written /\
    written `prefix_of`
      [ chat_log_row ts2 convId (js "user") lastUser p page userAgent langHint;
        chat_log_row ts3 convId (js "assistant") reply p page userAgent langHint;
        values_update_leads (lead_columns ts4 convId answers) ] /\
    (hasSheets env = true -> (forall n, api_ok env n = true) -> length written = 3%nat).
Proof.
  unfold persist_turn, try_catch, appendChatLog, updateLeadFixedRow, composeLeadRow, bind,
    new_Date, appendRow, ret.
  destruct (hasSheets env) eqn:Hs; cbn.
  2:{ exists [], [], [], []. rewrite app_nil_r. split; [done|]. split; [|done].
      apply prefix_nil. }
  unfold sheets_call. cbn.
  destruct (api_ok env (api_calls w)) eqn:H1; cbn.
  2:{ exists [], [], [], []. rewrite app_nil_r. split; [done|]. split; [apply prefix_nil|].
      intros _ Hall. by rewrite Hall in H1. }
  destruct (api_ok env (S (api_calls w))) eqn:H2; cbn.
  2:{ eexists [_], _, [], []. split; [done|]. split; [by eexists|].
      intros _ Hall. by rewrite Hall in H2. }
  destruct (api_ok env (S (S (api_calls w)))) eqn:H3; cbn.
  2:{ eexists [_; _], _, _, []. rewrite <- !app_assoc. split; [done|]. split; [by eexists|].
      intros _ Hall. by rewrite Hall in H3. }
  eexists [_; _; _], _, _, _. rewrite <- !app_assoc. split; [done|]. split; [|done].
  unfold lead_columns, answer, chat_log_row. cbn [map take LEADS_HEADER_COUNT].
  rewrite !or_else_default. done.
Qed.

(** X12. The requests that a turn sends to the spreadsheet when its
    plan was obtained and validated (the validator returned for every
    update; a turn that fails sends none): first, when
    the answers hold a phone number of ten digits, at most one presales
    row for it; then a beginning of the list made of the transcript row
    of the user, the transcript row of the assistant with the reply,
    and the leads row, in this order (a failing call ends the list).
    When the spreadsheet is configured and accepts the calls, the
    presales row is there whenever the phone number is, and the three
    others all are. *)
Theorem turn_requests env planner plan convId messages lang page userAgent resStream w :
  llmPlan planner = resolved plan ->
  Forall (returns (langHint_of lang)) (Object_entries (updates plan)) ->
  let out := handleTurn env planner convId messages lang page userAgent resStream w in
  let answers := default ∅ (SESSIONS out.2 !! convId) in
  let p := phoneClean_of answers in
  let reply := default [] (reply_of out.1) in
  exists mirror log ts1 ts2 ts3 ts4,
    sheet out.2 = sheet w ++ mirror ++ log /\
    (mirror = [] \/ (p <> [] /\ mirror = [presales_row ts1 p])) /\
    log `prefix_of`
      [ chat_log_row ts2 convId (js "user") (lastUser_content messages) p page userAgent
          (langHint_of lang);
        chat_log_row ts3 convId (js "assistant") reply p page userAgent (langHint_of lang);
        values_update_leads (lead_columns ts4 convId answers) ] /\
    (hasSheets env = true -> (forall n, api_ok env n = true) ->
       (p <> [] -> mirror <> []) /\ length log = 3%nat).
Proof.
  intros Hplan Hret out answers p reply.
  assert (Ha : answers = Object_assign (default ∅ (SESSIONS w !! convId))
                 (stage_all (langHint_of lang) (Object_entries (updates plan))).2).
  { unfold answers, out. rewrite (handleTurn_sessions _ _ _ _ _ _ _ _ _ _ Hplan Hret).
    by rewrite lookup_insert_eq. }
  assert (Hr : reply = compose_reply
                 (stage_all (langHint_of lang) (Object_entries (updates plan))).1
                 (assistant_text plan)).
  { unfold reply, out. by rewrite (handleTurn_reply _ _ _ _ _ _ _ _ _ _ Hplan Hret). }
  unfold out.
  rewrite (handleTurn_blocks env planner plan convId messages lang page userAgent resStream w
             Hplan Hret).
  cbv zeta. cbn [snd]. rewrite <- Ha, <- Hr. fold p.
  match goal with
  | |- context [persist_turn ?e ?c ?l ?r ?ph ?pg ?ua ?lh ?a ?w1] =>
    destruct (persist_turn_trace e c l r ph pg ua lh a w1) as (log & ts2 & ts3 & ts4 & E2 & P2 & L2)
  end.
  match goal with
  | _ : context [mirror_phone ?e ?ph ?w0] |- _ =>
    destruct (mirror_phone_trace e ph w0) as (mirror & E1 & M1 & L1)
  end.
  exists mirror, log.
  assert (Hts : exists ts1, mirror = [] \/ (p <> [] /\ mirror = [presales_row ts1 p])).
  { destruct M1 as [->|(Hp & ts & ->)]; [exists []; by left | exists ts; by right]. }
  destruct Hts as [ts1 Hts]. exists ts1, ts2, ts3, ts4.
  rewrite E2, E1. cbn [sheet]. rewrite <- app_assoc.
  split; [done|]. split; [done|]. split; [done|].
  intros Hs Hok. split; [by apply L1 | by apply L2].
Qed.

Lemma turn_requests_witness :
  exists mirror log ts1 ts2 ts3 ts4,
    sheet (handleTurn env_ok (content (Some plan_phone)) (js "c1") [] (js "en") [] []
             false boot).2
    = sheet boot ++ mirror ++ log /\
    (mirror = [] \/
     (phoneClean_of (default ∅ (SESSIONS (handleTurn env_ok (content (Some plan_phone))
                                             (js "c1") [] (js "en") [] [] false boot).2
                                 !! js "c1")) <> [] /\
      mirror = [presales_row ts1
                  (phoneClean_of
                     (default ∅ (SESSIONS (handleTurn env_ok (content (Some plan_phone))
                                             (js "c1") [] (js "en") [] [] false boot).2
                                 !! js "c1")))])) /\
    log `prefix_of`
      [ chat_log_row ts2 (js "c1") (js "user") (lastUser_content [])
          (phoneClean_of
             (default ∅ (SESSIONS (handleTurn env_ok (content (Some plan_phone))
                                     (js "c1") [] (js "en") [] [] false boot).2 !! js "c1")))
          [] [] (langHint_of (js "en"));
        chat_log_row ts3 (js "c1") (js "assistant")
          (default [] (reply_of (handleTurn env_ok (content (Some plan_phone)) (js "c1") []
                                   (js "en") [] [] false boot).1))
          (phoneClean_of
             (default ∅ (SESSIONS (handleTurn env_ok (content (Some plan_phone))
                                     (js "c1") [] (js "en") [] [] false boot).2 !! js "c1")))
          [] [] (langHint_of (js "en"));
        values_update_leads
          (lead_columns ts4 (js "c1")
             (default ∅ (SESSIONS (handleTurn env_ok (content (Some plan_phone))
                                     (js "c1") [] (js "en") [] [] false boot).2 !! js "c1"))) ] /\
    (hasSheets env_ok = true -> (forall n, api_ok env_ok n = true) ->
       (phoneClean_of (default ∅ (SESSIONS (handleTurn env_ok (content (Some plan_phone))
                                             (js "c1") [] (js "en") [] [] false boot).2
                                  !! js "c1")) <> [] -> mirror <> []) /\
       length log = 3%nat).
Proof.
  refine (turn_requests env_ok (content (Some plan_phone)) normal_phone (js "c1") [] (js "en")
            [] [] false boot llmPlan_phone _).
  repeat constructor; unfold returns; vm_compute; discriminate.
Defined.

(** The four requests of that turn. *)
Example turn_requests_sample :
  sheet (handleTurn env_ok (content (Some plan_phone)) (js "c1")
           [ {| role := js "user"; content_ := js "+91 98765 43210" |} ]
           (js "en") (js "/") (js "UA") false boot).2
  = [ presales_row (js "2024-01-01T00:00:00.000Z") (js "9876543210");
      chat_log_row (js "2024-01-01T00:00:00.000Z") (js "c1") (js "user") (js "+91 98765 43210")
        (js "9876543210") (js "/") (js "UA") (js "en");
      chat_log_row (js "2024-01-01T00:00:00.000Z") (js "c1") (js "assistant")
        (js "Got it, what's the student's name?") (js "9876543210") (js "/") (js "UA") (js "en");
      values_update_leads
        (lead_columns (js "2024-01-01T00:00:00.000Z") (js "c1")
           {[ js "phone" := js "9876543210" ]}) ].
Proof. vm_compute. reflexivity. Qed.

(** ** Without a spreadsheet *)

Lemma no_sheets_appendRow env t values w :
  hasSheets env = false -> appendRow env t values w = (resolved tt, w).
Proof. intros Hs. unfold appendRow. by rewrite Hs. Qed.

(** X13. When the spreadsheet is not configured no request is made: a
    turn and a call of [/tool/log_message] leave the spreadsheet as it
    is and never call its API, and [/tool/log_message] answers ok. *)
Theorem sheets_disabled_writes_nothing
    env planner convId messages lang page userAgent resStream b w :
  hasSheets env = false ->
  (let w' := (handleTurn env planner convId messages lang page userAgent resStream w).2 in
   sheet w' = sheet w /\ api_calls w' = api_calls w) /\
  (let r := post_log_message env b w in
   r.1 = log_ok /\ sheet r.2 = sheet w /\ api_calls r.2 = api_calls w).
Proof.
  intros Hs. split.
  - destruct (turn_cases lang planner) as [(plan & Hplan & Hret)|Hfail].
    + rewrite (handleTurn_blocks env planner plan convId messages lang page userAgent resStream w
                 Hplan Hret).
      cbv zeta. cbn [snd].
      unfold persist_turn, mirror_phone, try_catch, appendChatLog, appendPresales,
        updateLeadFixedRow, bind, new_Date.
      rewrite Hs. cbn [negb].
      destruct (phoneClean_of _) as [|x p]; cbn; rewrite ?(no_sheets_appendRow _ _ _ _ Hs);
        by cbn.
    + rewrite (handleTurn_throws _ _ _ _ _ _ _ _ _ Hfail).
      destruct (ensureSession_run convId w) as (wa & Ea & _ & Sh & _ & Ap). by rewrite Ea.
  - unfold post_log_message, appendChatLog, bind, new_Date. cbn.
    by rewrite (no_sheets_appendRow _ _ _ _ Hs).
Qed.

Lemma sheets_disabled_writes_nothing_witness :
  sheet (handleTurn {| hasSheets := false; toISOString := fun _ => []; api_ok := fun _ => false |}
           (content (Some plan_phone)) (js "c1") [] (js "en") [] [] false boot).2
  = sheet boot.
Proof.
  exact (proj1 (proj1 (sheets_disabled_writes_nothing
                         {| hasSheets := false; toISOString := fun _ => [];
                            api_ok := fun _ => false |}
                         (content (Some plan_phone)) (js "c1") [] (js "en") [] [] false
                         {| log_conversationId := None; log_role := None; log_text := None;
                            log_phone := None; log_latencyMs := None; log_page := None;
                            log_userAgent := None; log_lang := None |}
                         boot eq_refl))).
Defined.

(** ** The route [/tool/log_message] *)

(** X14. [/tool/log_message] never touches the session store.  With a
    configured spreadsheet it makes one call: when the call succeeds the
    answer is ok and one row of nine columns is appended to the
    chat_log tab, with the timestamp and the properties of the body, a
    missing property being an empty cell; when the call fails the answer
    is the failure and nothing is appended. *)
Theorem log_message_appends_one_row env b w :
  let r := post_log_message env b w in
  let row :=
    values_append chat_log
      [ toISOString env (clock_reads w);
        default [] (log_conversationId b); default [] (log_role b); default [] (log_text b);
        default [] (log_phone b); default [] (log_latencyMs b); default [] (log_page b);
        default [] (log_userAgent b); default [] (log_lang b) ] in
  SESSIONS r.2 = SESSIONS w /\
  (hasSheets env = true -> api_ok env (api_calls w) = true ->
     r.1 = log_ok /\ sheet r.2 = sheet w ++ [row]) /\
  (hasSheets env = true -> api_ok env (api_calls w) = false ->
     r.1 = log_failed /\ sheet r.2 = sheet w).
Proof.
  intros r row. unfold r, row, post_log_message, appendChatLog, bind, new_Date, appendRow.
  rewrite !or_else_default. destruct (hasSheets env); cbn; [|done].
  unfold sheets_call. cbn. destruct (api_ok env (api_calls w)); cbn; by repeat split.
Qed.

Lemma log_message_appends_one_row_witness :
  (post_log_message env_ok
     {| log_conversationId := Some (js "c1"); log_role := Some (js "user");
        log_text := Some (js "hello"); log_phone := None; log_latencyMs := None;
        log_page := None; log_userAgent := None; log_lang := Some (js "en") |} boot).1
  = log_ok.
Proof.
  exact (proj1 (proj1 (proj2 (log_message_appends_one_row env_ok
     {| log_conversationId := Some (js "c1"); log_role := Some (js "user");
        log_text := Some (js "hello"); log_phone := None; log_latencyMs := None;
        log_page := None; log_userAgent := None; log_lang := Some (js "en") |} boot))
     eq_refl eq_refl)).
Defined.

(** ** The store of a running server *)

Lemma serve_all_no_proto (env : environment) (ts : list turn) (c : jsstring) (a : answers_map) :
  SESSIONS (serve_all env ts boot) !! c = Some a -> a !! js "__proto__" = None.
Proof.
  unfold serve_all.
  assert (H : forall w,
            (forall c a, SESSIONS w !! c = Some a -> a !! js "__proto__" = None) ->
            forall c a, SESSIONS (foldl (fun w t => serve env t w) w ts) !! c = Some a ->
                        a !! js "__proto__" = None).
  { induction ts as [|t ts IH]; intros w Hw; [exact Hw|]. simpl. apply IH.
    intros c' a' Hc'. unfold serve in Hc'.
    destruct (decide (c' = turn_convId t)) as [->|Hne].
    - rewrite (proto_never_stored _ _ _ _ _ _ _ _ _ _ Hc').
      destruct (SESSIONS w !! turn_convId t) as [a0|] eqn:E; [by eapply Hw | done].
    - destruct (handleTurn_store env (turn_planner t) (turn_convId t) (turn_messages t)
                  (turn_lang t) (turn_page t) (turn_userAgent t) (turn_stream t) w)
        as (answers & HS & _).
      rewrite HS, lookup_insert_ne in Hc' by done. by eapply Hw. }
  apply H. intros c' a' Hc'. cbn [boot SESSIONS] in Hc'. by rewrite lookup_empty in Hc'.
Qed.

(** X15. The answers of a running server are well formed.  In the store
    reached from the empty store of a fresh process by any sequence of
    turns, successful or not: a stored phone number is ten digits, a
    stored grade is the decimal form of an integer of [1,12], a stored
    mode is "home" or "online", any other stored value neither starts
    nor ends with white space, and no answers hold a property
    ["__proto__"]. *)
Theorem reachable_store_wellformed (env : environment) (ts : list turn) (c : jsstring) (a : answers_map) :
  SESSIONS (serve_all env ts boot) !! c = Some a ->
  (forall v, a !! js "phone" = Some v -> length v = 10%nat /\ all_digits v) /\
  (forall v, a !! js "grade" = Some v -> exists g, 1 <= g <= 12 /\ v = decimal g) /\
  (forall v, a !! js "mode" = Some v -> v = js "home" \/ v = js "online") /\
  (forall k v, a !! k = Some v ->
     k <> js "phone" -> k <> js "grade" -> k <> js "mode" ->
     (forall x, head v = Some x -> is_space x = false) /\
     (forall x, last v = Some x -> is_space x = false)) /\
  a !! js "__proto__" = None.
Proof.
  intros Hc. pose proof (serve_all_validated env ts) as Hinv.
  split; [|split; [|split; [|split]]].
  - intros v Hv. destruct (Hinv c a _ v Hc Hv) as (raw & lang & Hok).
    by eapply accepted_phone.
  - intros v Hv. destruct (Hinv c a _ v Hc Hv) as (raw & lang & Hok).
    by eapply accepted_grade.
  - intros v Hv. destruct (Hinv c a _ v Hc Hv) as (raw & lang & Hok).
    by eapply accepted_mode.
  - intros k v Hv Hp Hg Hm. destruct (Hinv c a k v Hc Hv) as (raw & lang & Hok).
    destruct (accepted_other_key _ _ _ _ Hp Hg Hm Hok) as (str & _ & ->). apply trim_ends.
  - by eapply serve_all_no_proto.
Qed.

Lemma reachable_store_wellformed_witness :
  length (js "9876543210") = 10%nat /\ all_digits (js "9876543210").
Proof.
  refine (proj1 (reachable_store_wellformed env_ok
            [ {| turn_planner := content (Some plan_phone); turn_convId := js "c1";
                 turn_messages := []; turn_lang := js "en"; turn_page := [];
                 turn_userAgent := []; turn_stream := false |};
              {| turn_planner := call_fails; turn_convId := js "c1";
                 turn_messages := []; turn_lang := js "en"; turn_page := [];
                 turn_userAgent := []; turn_stream := true |} ]
            (js "c1") {[ js "phone" := js "9876543210" ]} _) (js "9876543210") _).
  - vm_compute. reflexivity.
  - vm_compute. reflexivity.
Defined.

(** ** The route [/chat] across turns *)

Lemma post_chat_world env planner randomUUID req w :
  setHeader_ok (convId_of req randomUUID) = true ->
  (post_chat env planner randomUUID req w).2
  = (handleTurn env planner (convId_of req randomUUID) (req_messages req) (req_lang req)
       (req_page req) (req_userAgent req) false w).2.
Proof.
  intros Hh. unfold post_chat. cbv zeta. rewrite Hh. cbn [negb].
  by destruct (handleTurn _ _ _ _ _ _ _ _ _) as [[[]|] ?].
Qed.

Lemma post_chat_header env planner randomUUID req w :
  setHeader_ok (convId_of req randomUUID) = true ->
  x_conv_id (post_chat env planner randomUUID req w).1 = Some (convId_of req randomUUID).
Proof.
  intros Hh. unfold post_chat. cbv zeta. rewrite Hh. cbn [negb].
  by destruct (handleTurn _ _ _ _ _ _ _ _ _) as [[[]|] ?].
Qed.

Lemma post_chat_no_header env planner randomUUID req w :
  setHeader_ok (convId_of req randomUUID) = false ->
  post_chat env planner randomUUID req w
  = ({| x_conv_id := None; body := json_chat_failed |}, w).
Proof. intros Hh. unfold post_chat. by rewrite Hh. Qed.

(** The body that [/chat] returns carries the identifier of the header
    and the answers that the store holds for it. *)
Lemma post_chat_answers_stored env planner randomUUID req w reply c answers :
  body (post_chat env planner randomUUID req w).1 = json_out reply c answers ->
  c = convId_of req randomUUID /\ setHeader_ok c = true /\
  SESSIONS (post_chat env planner randomUUID req w).2 !! c = Some answers.
Proof.
  destruct (setHeader_ok (convId_of req randomUUID)) eqn:Hh;
    [|by rewrite (post_chat_no_header _ _ _ _ _ Hh)].
  rewrite (post_chat_world _ _ _ _ _ Hh). unfold post_chat. cbv zeta. rewrite Hh. cbn [negb].
  destruct (turn_cases (req_lang req) planner) as [(plan & Hplan & Hret)|Hfail].
  - rewrite (handleTurn_sessions _ _ _ _ _ _ _ _ _ _ Hplan Hret).
    rewrite (handleTurn_blocks _ planner plan _ _ _ _ _ _ _ Hplan Hret). cbv zeta.
    cbn [body fst]. intros [= _ <- <-]. by rewrite lookup_insert_eq.
  - rewrite (handleTurn_throws _ _ _ _ _ _ _ _ _ Hfail). by cbn.
Qed.

Lemma convId_of_given req randomUUID c :
  req_convId req = Some c -> c <> [] -> convId_of req randomUUID = c.
Proof. unfold convId_of. intros -> Hc. by destruct c. Qed.

(** X16. What [/chat] answers.  The conversation identifier is that of
    the request, or the fresh one when the request has none or an empty
    one.  When it can be set as a header ([setHeader] accepts it), the
    header [x-conv-id] carries it; when it cannot, the answer is
    [chat_failed] without that header and nothing has changed.  A body
    with a reply carries the identifier of the header and exactly the
    answers that the store then holds for it; and the sessions of the
    other conversations are as before. *)
Theorem chat_response_matches_store env planner randomUUID (req : request) (w : world) :
  let r := post_chat env planner randomUUID req w in
  let convId := convId_of req randomUUID in
  (forall c, req_convId req = Some c -> c <> [] -> convId = c) /\
  (req_convId req = None \/ req_convId req = Some [] -> convId = randomUUID) /\
  (setHeader_ok convId = true -> x_conv_id r.1 = Some convId) /\
  (setHeader_ok convId = false ->
     r = ({| x_conv_id := None; body := json_chat_failed |}, w)) /\
  (forall reply c answers, body r.1 = json_out reply c answers ->
     x_conv_id r.1 = Some c /\ SESSIONS r.2 !! c = Some answers) /\
  (forall c, c <> convId -> SESSIONS r.2 !! c = SESSIONS w !! c).
Proof.
  intros r convId. unfold r, convId. split; [|split; [|split; [|split; [|split]]]].
  - intros c Hc Hne. by apply convId_of_given.
  - unfold convId_of. by intros [-> | ->].
  - apply post_chat_header.
  - apply post_chat_no_header.
  - intros reply c answers Hb. apply post_chat_answers_stored in Hb as (-> & Hh & Hs).
    split; [by apply post_chat_header | done].
  - intros c Hne. destruct (setHeader_ok (convId_of req randomUUID)) eqn:Hh;
      [|by rewrite (post_chat_no_header _ _ _ _ _ Hh)].
    rewrite (post_chat_world _ _ _ _ _ Hh).
    destruct (handleTurn_store env planner (convId_of req randomUUID) (req_messages req)
                (req_lang req) (req_page req) (req_userAgent req) false w)
      as (answers & HS & _).
    rewrite HS. by apply lookup_insert_ne.
Qed.

Lemma chat_response_matches_store_witness :
  x_conv_id (post_chat env_ok (content (Some plan_phone)) (js "fresh") empty_request boot).1
  = Some (js "fresh") /\
  SESSIONS (post_chat env_ok (content (Some plan_phone)) (js "fresh") empty_request boot).2
    !! js "fresh" = Some {[ js "phone" := js "9876543210" ]} /\
  post_chat env_ok (content (Some plan_phone)) (js "fresh")
    {| req_convId := Some [7]; req_messages := []; req_lang := []; req_page := [];
       req_userAgent := [] |} boot
  = ({| x_conv_id := None; body := json_chat_failed |}, boot).
Proof.
  pose proof (chat_response_matches_store env_ok (content (Some plan_phone)) (js "fresh")
                empty_request boot) as (_ & _ & Hheader & _ & Hbody & _).
  split; [|split].
  - apply Hheader. reflexivity.
  - apply (Hbody (js "Got it, what's the student's name?") (js "fresh")).
    vm_compute. reflexivity.
  - apply (proj1 (proj2 (proj2 (proj2 (chat_response_matches_store env_ok
                                         (content (Some plan_phone)) (js "fresh")
                                         {| req_convId := Some [7]; req_messages := [];
                                            req_lang := []; req_page := [];
                                            req_userAgent := [] |} boot))))).
    reflexivity.
Defined.

(** X17. A conversation continues.  When [/chat] has answered with an
    identifier and the client sends it back, the next turn, whether it
    succeeds or fails, works on the same session: its header carries the
    identifier, every answer for which the new plan has no accepted
    proposal is kept as it was returned, and a body with a reply carries
    the identifier and the stored answers. *)
Theorem conversation_continues env p1 p2 uuid1 uuid2 (req1 req2 : request) (w : world)
    reply1 c answers1 :
  body (post_chat env p1 uuid1 req1 w).1 = json_out reply1 c answers1 ->
  c <> [] ->
  req_convId req2 = Some c ->
  let r2 := post_chat env p2 uuid2 req2 (post_chat env p1 uuid1 req1 w).2 in
  let entries :=
    match llmPlan p2 with
    | resolved plan => Object_entries (updates plan)
    | rejected => []
    end in
  x_conv_id r2.1 = Some c /\
  exists a2,
    SESSIONS r2.2 !! c = Some a2 /\
    (forall k,
       (forall raw, (k, raw) ∈ entries ->
          exists p, validateUpdate k raw (langHint_of (req_lang req2)) = Rejected p) ->
       a2 !! k = answers1 !! k) /\
    (forall reply2 c2 answers2, body r2.1 = json_out reply2 c2 answers2 ->
       c2 = c /\ answers2 = a2).
Proof.
  intros Hb Hne Hreq r2 entries.
  apply post_chat_answers_stored in Hb as (_ & Hh & Hstored).
  set (w1 := (post_chat env p1 uuid1 req1 w).2) in *.
  pose proof (convId_of_given req2 uuid2 c Hreq Hne) as Hc.
  rewrite <- Hc in Hh.
  split; [unfold r2; by rewrite (post_chat_header _ _ _ _ _ Hh), Hc|].
  destruct (handleTurn_store env p2 c (req_messages req2) (req_lang req2) (req_page req2)
              (req_userAgent req2) false w1) as (a2 & HS & _ & Hkeep).
  assert (Hw : SESSIONS r2.2 = <[c := a2]> (SESSIONS w1)).
  { unfold r2. by rewrite (post_chat_world _ _ _ _ _ Hh), Hc. }
  exists a2. split; [by rewrite Hw, lookup_insert_eq|]. split.
  - intros k Hk. rewrite (Hkeep k Hk), Hstored. reflexivity.
  - intros reply2 c2 answers2 Hb2. apply post_chat_answers_stored in Hb2 as (-> & _ & Hs2).
    split; [done|]. fold r2 in Hs2. rewrite Hw, Hc, lookup_insert_eq in Hs2. congruence.
Qed.

Lemma conversation_continues_witness :
  x_conv_id (post_chat env_ok call_fails (js "other")
               {| req_convId := Some (js "fresh"); req_messages := []; req_lang := [];
                  req_page := []; req_userAgent := [] |}
               (post_chat env_ok (content (Some plan_phone)) (js "fresh") empty_request boot).2).1
  = Some (js "fresh").
Proof.
  refine (proj1 (conversation_continues env_ok (content (Some plan_phone)) call_fails
                   (js "fresh") (js "other") empty_request
                   {| req_convId := Some (js "fresh"); req_messages := []; req_lang := [];
                      req_page := []; req_userAgent := [] |}
                   boot (js "Got it, what's the student's name?") (js "fresh")
                   {[ js "phone" := js "9876543210" ]} _ _ _)).
  - vm_compute. reflexivity.
  - vm_compute. discriminate.
  - reflexivity.
Defined.

(** ** [onlyDigits] *)

(** X18. [onlyDigits] keeps the digits of a string, in their order and
    as often as they occur, and nothing else: the result consists of
    digits, a string of digits is left as it is, the digits of a
    concatenation are those of its parts, a code unit occurs in the
    result exactly when it is a digit of the string, and a second pass
    changes nothing. *)
Theorem onlyDigits_keeps_digits (s r : jsstring) :
  all_digits (onlyDigits s) /\
  (all_digits s -> onlyDigits s = s) /\
  onlyDigits (s ++ r) = onlyDigits s ++ onlyDigits r /\
  (forall x, x ∈ onlyDigits s <-> x ∈ s /\ is_digit x = true) /\
  onlyDigits (onlyDigits s) = onlyDigits s.
Proof.
  rewrite !onlyDigits_filter. split; [|split; [|split; [|split]]].
  - apply digits_of_all_digits.
  - apply filter_all_digits.
  - unfold digits_of. apply List.filter_app.
  - intros x. unfold digits_of. rewrite !list_elem_of_In. apply filter_In.
  - apply filter_all_digits, digits_of_all_digits.
Qed.

Lemma onlyDigits_keeps_digits_witness : onlyDigits (js "9876543210") = js "9876543210".
Proof.
  apply (proj1 (proj2 (onlyDigits_keeps_digits (js "9876543210") []))).
  vm_compute. repeat constructor.
Defined.

(** ** Tab names *)

Lemma startsWith_one q t : startsWith [q] t = true <-> head t = Some q.
Proof.
  destruct t as [|x t]; simpl; [done|]. rewrite andb_true_r, N.eqb_eq.
  split; [by intros -> | by intros [= ->]].
Qed.

Lemma endsWith_one q t : endsWith [q] t = true <-> last t = Some q.
Proof.
  unfold endsWith. change (rev [q]) with [q].
  by rewrite startsWith_one, <- last_rev_head, rev_involutive.
Qed.

Lemma trimQuotes_Some s :
  trimQuotes (Some s) =
    if (startsWith [34] (trim s) && endsWith [34] (trim s))
       || (startsWith [39] (trim s) && endsWith [39] (trim s))
    then slice_1_m1 (trim s) else trim s.
Proof. reflexivity. Qed.

(** X19. [trimQuotes] trims the name and removes one pair of enclosing
    quotes, double or single, when the trimmed name starts and ends
    with the same quote, leaving what is between them as it is (a
    trimmed name that is one quote becomes empty); otherwise the result
    is the trimmed name; a missing name gives the empty string. *)
Theorem trimQuotes_strips_one_pair :
  (forall s q body, q = 34 \/ q = 39 -> trim s = q :: body ++ [q] ->
     trimQuotes (Some s) = body) /\
  (forall s q, q = 34 \/ q = 39 -> trim s = [q] -> trimQuotes (Some s) = []) /\
  (forall s,
     (head (trim s) <> Some 34 \/ last (trim s) <> Some 34) ->
     (head (trim s) <> Some 39 \/ last (trim s) <> Some 39) ->
     trimQuotes (Some s) = trim s) /\
  trimQuotes None = [].
Proof.
  split; [|split; [|split]].
  - intros s q body Hq Ht. rewrite trimQuotes_Some, Ht.
    assert (Hs : (startsWith [34] (q :: body ++ [q]) && endsWith [34] (q :: body ++ [q]))
                 || (startsWith [39] (q :: body ++ [q]) && endsWith [39] (q :: body ++ [q]))
                 = true).
    { apply orb_true_iff. destruct Hq as [-> | ->]; [left | right];
        apply andb_true_iff; (split; [by apply startsWith_one|]); apply endsWith_one;
        by rewrite app_comm_cons, last_snoc. }
    rewrite Hs. unfold slice_1_m1.
    change (drop 1 (q :: body ++ [q])) with (body ++ [q]).
    replace (length (q :: body ++ [q]) - 2)%nat with (length body)
      by (cbn [length]; rewrite length_app; cbn [length]; lia).
    by rewrite take_app_length.
  - intros s q Hq Ht. rewrite trimQuotes_Some, Ht.
    destruct Hq as [-> | ->]; reflexivity.
  - intros s H34 H39. rewrite trimQuotes_Some. set (t := trim s) in *.
    assert (E34 : startsWith [34] t && endsWith [34] t = false).
    { apply andb_false_iff. destruct H34 as [H|H]; [left | right];
        apply not_true_iff_false; by rewrite ?startsWith_one, ?endsWith_one. }
    assert (E39 : startsWith [39] t && endsWith [39] t = false).
    { apply andb_false_iff. destruct H39 as [H|H]; [left | right];
        apply not_true_iff_false; by rewrite ?startsWith_one, ?endsWith_one. }
    by rewrite E34, E39.
  - reflexivity.
Qed.

Lemma trimQuotes_strips_one_pair_witness :
  trimQuotes (Some (js "  'chat log' ")) = js "chat log" /\
  trimQuotes (Some (js "  leads ")) = trim (js "  leads ").
Proof.
  split.
  - apply (proj1 trimQuotes_strips_one_pair (js "  'chat log' ") 39); [by right|].
    vm_compute. reflexivity.
  - apply (proj1 (proj2 (proj2 trimQuotes_strips_one_pair))); left; vm_compute; discriminate.
Defined.

(** Replacing every quote by two. *)
Lemma replace_go_quotes fuel prev s :
  (length s < fuel)%nat ->
  replace_go fuel false (Char 39) [39; 39] prev s = double_quotes s.
Proof.
  revert prev s. induction fuel as [|fuel IH]; intros prev s Hlen; [lia|].
  destruct s as [|x s]; [done|]. simpl in Hlen.
  cbn [replace_go matcher fst snd char_match].
  destruct (N.eqb_spec 39 x) as [<-|Hne].
  - cbn [snd fst]. destruct (Nat.ltb_spec (length s) (length (39 :: s))); [|simpl in *; lia].
    rewrite IH by lia. reflexivity.
  - rewrite IH by lia. unfold double_quotes. cbn [flat_map].
    destruct (N.eqb_spec x 39); [congruence | done].
Qed.

Lemma replaceAll_quotes raw : replaceAll quoteRx (js "''") raw = double_quotes raw.
Proof.
  unfold replaceAll. change (js "''") with [39; 39].
  apply (replace_go_quotes _ None raw). lia.
Qed.

Lemma spaceBangRx_finds s : test spaceBangRx s = needs_quoting s.
Proof.
  apply eq_true_iff_eq.
  rewrite (test_reads spaceBangRx _ s (reads_Class false false (space_ranges ++ [(33, 33)]))).
  unfold needs_quoting. rewrite existsb_exists.
  assert (Hc : forall x, class_match false false (space_ranges ++ [(33, 33)]) x
                         = is_space x || (x =? 33)).
  { intros x. unfold class_match, is_space, in_ranges. rewrite existsb_app. simpl.
    rewrite !orb_false_r. f_equal. unfold in_range. simpl.
    apply eq_true_iff_eq. rewrite andb_true_iff, !N.leb_le, N.eqb_eq. lia. }
  split.
  - intros (pre & w & post & -> & x & -> & Hx). exists x. split; [|by rewrite <- Hc].
    apply in_or_app. right. by left.
  - intros (x & Hin & Hx). apply in_split in Hin as (pre & post & ->).
    exists pre, [x], post. split; [done|]. exists x. split; [done|]. by rewrite Hc.
Qed.

Lemma needs_quoting_double_quotes raw : needs_quoting (double_quotes raw) = needs_quoting raw.
Proof.
  unfold needs_quoting, double_quotes. induction raw as [|x raw IH]; [done|].
  cbn [flat_map]. rewrite existsb_app. cbn [existsb]. rewrite <- IH.
  destruct (N.eqb_spec x 39) as [->|]; [reflexivity|]. cbn [existsb]. by rewrite orb_false_r.
Qed.

Lemma double_quotes_inj raw1 raw2 : double_quotes raw1 = double_quotes raw2 -> raw1 = raw2.
Proof.
  unfold double_quotes. revert raw2.
  induction raw1 as [|x raw1 IH]; intros [|y raw2]; cbn [flat_map].
  - done.
  - destruct (y =? 39); discriminate.
  - destruct (x =? 39); discriminate.
  - destruct (N.eqb_spec x 39) as [->|Hx], (N.eqb_spec y 39) as [->|Hy]; cbn [app].
    + intros [= E]. f_equal. by apply IH.
    + intros [= E _]. congruence.
    + intros [= E _]. congruence.
    + intros [= -> E]. f_equal. by apply IH.
Qed.

Lemma tabRefFromName_unfold name :
  tabRefFromName name =
    if needs_quoting (trimQuotes name)
    then [39] ++ double_quotes (trimQuotes name) ++ [39]
    else double_quotes (trimQuotes name).
Proof.
  unfold tabRefFromName. cbv zeta.
  rewrite replaceAll_quotes, spaceBangRx_finds, needs_quoting_double_quotes. reflexivity.
Qed.

(** X20. [tabRefFromName] doubles every single quote of the name
    (stripped by [trimQuotes]) and encloses the result in single quotes
    exactly when the name holds white space or an exclamation mark; two
    names that differ after [trimQuotes] never get the same reference. *)
Theorem tabRefFromName_quoting (name other : option jsstring) :
  let raw := trimQuotes name in
  (needs_quoting raw = true ->
     tabRefFromName name = [39] ++ double_quotes raw ++ [39]) /\
  (needs_quoting raw = false -> tabRefFromName name = double_quotes raw) /\
  (tabRefFromName name = tabRefFromName other -> raw = trimQuotes other).
Proof.
  intros raw. split; [|split].
  - intros H. rewrite tabRefFromName_unfold. fold raw. by rewrite H.
  - intros H. rewrite tabRefFromName_unfold. fold raw. by rewrite H.
  - rewrite !tabRefFromName_unfold. fold raw. set (raw' := trimQuotes other).
    assert (Hq : forall l, needs_quoting ([39] ++ l ++ [39]) = needs_quoting l).
    { intros l. unfold needs_quoting. rewrite !existsb_app. simpl. by rewrite orb_false_r. }
    destruct (needs_quoting raw) eqn:H1, (needs_quoting raw') eqn:H2; intros E.
    + apply app_inv_head in E. apply app_inv_tail in E. by apply double_quotes_inj.
    + apply (f_equal needs_quoting) in E.
      rewrite Hq, !needs_quoting_double_quotes in E. congruence.
    + apply (f_equal needs_quoting) in E.
      rewrite Hq, !needs_quoting_double_quotes in E. congruence.
    + by apply double_quotes_inj.
Qed.

Lemma tabRefFromName_quoting_witness :
  tabRefFromName (Some (js "Lead's log")) = [39] ++ double_quotes (trimQuotes (Some (js "Lead's log"))) ++ [39] /\
  tabRefFromName (Some (js "presales")) = double_quotes (trimQuotes (Some (js "presales"))).
Proof.
  split.
  - exact (proj1 (tabRefFromName_quoting (Some (js "Lead's log")) None) eq_refl).
  - exact (proj1 (proj2 (tabRefFromName_quoting (Some (js "presales")) None)) eq_refl).
Defined.

Example tabRefFromName_sample :
  tabRefFromName (Some (js "Lead's log")) = js "'Lead''s log'" /\
  append_range (Some (js " presales ")) = js "presales!A:Z".
Proof. vm_compute. split; reflexivity. Qed.
